(** * Gallery lightbox and card sliders of the makeup portfolio

    A shallow embedding of the navigation logic of the React components
    - [src/components/ui/PortfolioLightbox.tsx] (gallery lightbox),
    - [src/components/ui/EnhancedLightbox.tsx]  (simple lightbox),
    - [src/components/ui/PortfolioMosaic.tsx]   (owner of a simple lightbox),
    - the portfolio card and the slider card (multi-image sliders),
    - [src/components/sections/FeaturedSection.tsx] (cards that open a
      simple lightbox), [src/components/lightbox.tsx] (single image),
    - [src/utils/emailService.ts] and the contact form that uses it,
    followed by the properties of the specification that concern them and
    by further properties of the same code.

    Conventions of the embedding.
    - A JavaScript [number] that holds an index or a pixel coordinate is an
      integer [Z]; [images.length] is [len images].
    - [useState] cells are record fields; a setter is a record update.
    - An event handler does nothing but call callbacks, so a handler is the
      list of [Call]s it makes, in order; [perform] runs one call on the
      component state and [performAll] runs a handler's calls.
    - [useEffect] bodies and their clean-ups act on a small [Document]
      record (scroll lock and registered global listeners).
    - A render of the gallery lightbox is its body first, with the props
      and the state as they are then, and the effects whose dependencies
      changed after it. When the body throws, React removes the component
      and runs the clean-ups of its effects: the repository has no error
      boundary. *)

From Stdlib Require Import ZArith Lia Bool.
From stdpp Require Import base list strings.

Local Open Scope Z_scope.

(** ** Shared data model *)

(** [interface PortfolioImage] (the same in every component). *)
Record PortfolioImage := mkImage {
  src : string;
  alt : string;
  caption : option string;
  description : option string
}.

(** [xs.length] as a JavaScript number. *)
Definition len {A : Type} (xs : list A) : Z := Z.of_nat (length xs).

(** [xs[i]] for an integer [i]: [undefined] (here [None]) outside
    [0 .. xs.length - 1], negative indices included. *)
Definition at_index {A : Type} (xs : list A) (i : Z) : option A :=
  if decide (0 <= i) then xs !! Z.to_nat i else None.

(** The index is a position of the image set. *)
Definition inRange (n i : Z) : Prop := 0 <= i < n.

(** ** PortfolioLightbox.tsx *)

Module PortfolioLightbox.

(** The three [useState] cells of the component. *)
Record State := mkState {
  currentIndex : Z;
  isZoomed : bool;
  showThumbnails : bool
}.

(** The props; [onClose] is the identity of the callback passed by the
    owner (only its changes matter, as an effect dependency). *)
Record Props := mkProps {
  isOpen : bool;
  onClose : nat;
  images : list PortfolioImage;
  initialIndex : Z;
  title : string
}.

(** [setCurrentIndex((prev) => (prev === 0 ? images.length - 1 : prev - 1));
     setIsZoomed(false);] *)
Definition goToPrevious (imgs : list PortfolioImage) (s : State) : State :=
  {| currentIndex :=
       if currentIndex s =? 0 then len imgs - 1 else currentIndex s - 1;
     isZoomed := false;
     showThumbnails := showThumbnails s |}.

(** [setCurrentIndex((prev) => (prev === images.length - 1 ? 0 : prev + 1));
     setIsZoomed(false);] *)
Definition goToNext (imgs : list PortfolioImage) (s : State) : State :=
  {| currentIndex :=
       if currentIndex s =? len imgs - 1 then 0 else currentIndex s + 1;
     isZoomed := false;
     showThumbnails := showThumbnails s |}.

(** [setCurrentIndex(index); setIsZoomed(false);] *)
Definition goToImage (index : Z) (s : State) : State :=
  {| currentIndex := index;
     isZoomed := false;
     showThumbnails := showThumbnails s |}.

(** [setIsZoomed(!isZoomed);] *)
Definition toggleZoom (s : State) : State :=
  {| currentIndex := currentIndex s;
     isZoomed := negb (isZoomed s);
     showThumbnails := showThumbnails s |}.

(** [setShowThumbnails(!showThumbnails)] *)
Definition toggleThumbnails (s : State) : State :=
  {| currentIndex := currentIndex s;
     isZoomed := isZoomed s;
     showThumbnails := negb (showThumbnails s) |}.

(** What a handler can call. [PreventDefault] and [OnClose] leave the
    component: the first goes to the browser, the second to the owner. *)
Inductive Call :=
| PreventDefault
| OnClose
| GoToPrevious
| GoToNext
| GoToImage (index : Z)
| ToggleZoom
| ToggleThumbnails.

Definition perform (imgs : list PortfolioImage) (c : Call) (s : State) : State :=
  match c with
  | PreventDefault | OnClose => s
  | GoToPrevious => goToPrevious imgs s
  | GoToNext => goToNext imgs s
  | GoToImage index => goToImage index s
  | ToggleZoom => toggleZoom s
  | ToggleThumbnails => toggleThumbnails s
  end.

Definition performAll (imgs : list PortfolioImage) (cs : list Call) (s : State) : State :=
  fold_left (fun acc c => perform imgs c acc) cs s.

(** The calls that change the current image. *)
Definition isNavigation (c : Call) : bool :=
  match c with
  | GoToPrevious | GoToNext | GoToImage _ => true
  | _ => false
  end.

(** [handleKeyDown]: the guard [if (!isOpen) return;] and the [switch]. *)
Definition handleKeyDown (open : bool) (key : string) : list Call :=
  if negb open then []
  else if String.eqb key "Escape" then [OnClose]
  else if String.eqb key "ArrowLeft" then [PreventDefault; GoToPrevious]
  else if String.eqb key "ArrowRight" then [PreventDefault; GoToNext]
  else if String.eqb key "z" || String.eqb key "Z" then [PreventDefault; ToggleZoom]
  else if String.eqb key "t" || String.eqb key "T" then [PreventDefault; ToggleThumbnails]
  else [].

(** The two variables of the touch effect's closure. *)
Record TouchVars := mkTouchVars {
  touchStartX : Z;
  touchEndX : Z
}.

(** [let touchStartX = 0; let touchEndX = 0;] *)
Definition touchVars0 : TouchVars := mkTouchVars 0 0.

(** [touchStartX = e.changedTouches[0].screenX;] *)
Definition handleTouchStart (screenX : Z) (v : TouchVars) : TouchVars :=
  {| touchStartX := screenX; touchEndX := touchEndX v |}.

Definition swipeThreshold : Z := 50.

(** [handleTouchEnd]: the assignment to [touchEndX] ... *)
Definition recordTouchEnd (screenX : Z) (v : TouchVars) : TouchVars :=
  {| touchStartX := touchStartX v; touchEndX := screenX |}.

(** ... and the [if / else if] on the two differences. *)
Definition handleTouchEnd (screenX : Z) (v : TouchVars) : list Call :=
  let v' := recordTouchEnd screenX v in
  if touchStartX v' - touchEndX v' >? swipeThreshold then [GoToNext]
  else if touchEndX v' - touchStartX v' >? swipeThreshold then [GoToPrevious]
  else [].

(** A completed gesture on the document: [touchstart] at [startX], then
    [touchend] at [endX]. *)
Definition touchGesture (startX endX : Z) (v : TouchVars) : list Call :=
  handleTouchEnd endX (handleTouchStart startX v).

(** The part of [document] the effects touch. *)
Record Document := mkDocument {
  bodyOverflow : string;
  keydownListener : bool;
  touchListeners : bool
}.

(** What the component body returns:
    [if (!isOpen || images.length === 0) return null;
     const currentImage = images[currentIndex];] and the two field reads
    [currentImage.src], [currentImage.alt] of the [<img>], which throw a
    [TypeError] when [currentImage] is [undefined]. *)
Inductive Rendered :=
| RenderNull
| RenderImage (imgSrc imgAlt : string)
| RenderTypeError.

Definition render (p : Props) (s : State) : Rendered :=
  if negb (isOpen p) || (len (images p) =? 0) then RenderNull
  else match at_index (images p) (currentIndex s) with
       | Some currentImage => RenderImage (src currentImage) (alt currentImage)
       | None => RenderTypeError
       end.

(** The component body throws with these props and this state. *)
Definition throws (p : Props) (s : State) : bool :=
  match render p s with
  | RenderTypeError => true
  | _ => false
  end.

(** [const hasMultipleImages = images.length > 1;] *)
Definition hasMultipleImages (p : Props) : bool := len (images p) >? 1.

(** The component with the document it acts on. [mounted] is false once
    the component body has thrown: no error boundary stands above the
    lightbox, so React then removes the component and runs the clean-ups
    of its effects. [props] and [state] of a component that is no longer
    mounted are those of the render that threw. *)
Record Lightbox := mkLightbox {
  mounted : bool;
  props : Props;
  state : State;
  vars : TouchVars;
  document : Document
}.

(** Effect [[initialIndex]]: [setCurrentIndex(initialIndex)]. *)
Definition syncIndexEffect (p : Props) (s : State) : State :=
  {| currentIndex := initialIndex p;
     isZoomed := isZoomed s;
     showThumbnails := showThumbnails s |}.

(** Effect [[isOpen]], state part: the [else] branch resets both toggles. *)
Definition scrollEffectState (p : Props) (s : State) : State :=
  if isOpen p then s
  else {| currentIndex := currentIndex s; isZoomed := false; showThumbnails := false |}.

(** Effect [[isOpen]], document part (its clean-up also writes ['unset']). *)
Definition scrollEffectDocument (p : Props) (d : Document) : Document :=
  {| bodyOverflow := if isOpen p then "hidden" else "unset";
     keydownListener := keydownListener d;
     touchListeners := touchListeners d |}.

(** Keyboard effect: the clean-up removes the listener, the body adds it
    again [if (isOpen)]. *)
Definition keyboardEffect (p : Props) (d : Document) : Document :=
  {| bodyOverflow := bodyOverflow d;
     keydownListener := isOpen p;
     touchListeners := touchListeners d |}.

(** Touch effect: same shape, for [touchstart] and [touchend]. *)
Definition touchEffect (p : Props) (d : Document) : Document :=
  {| bodyOverflow := bodyOverflow d;
     keydownListener := keydownListener d;
     touchListeners := isOpen p |}.

(** React removes the component: the clean-ups of the three effects that
    have one run, [document.body.style.overflow = 'unset'] and the three
    [removeEventListener] calls. *)
Definition unmount (c : Lightbox) : Lightbox :=
  {| mounted := false;
     props := props c;
     state := state c;
     vars := vars c;
     document := {| bodyOverflow := "unset"; keydownListener := false; touchListeners := false |} |}.

(** The document before the lightbox is first rendered: the body has no
    inline [overflow] and the lightbox has no listener. *)
Definition document0 : Document :=
  {| bodyOverflow := EmptyString; keydownListener := false; touchListeners := false |}.

(** First render, in the document [d]: the body runs with the [useState]
    initial values. When it throws nothing is mounted, no effect runs and
    the document stays as it is; otherwise every effect runs (their
    setters store the values the state already has). *)
Definition mountIn (d : Document) (p : Props) : Lightbox :=
  let s0 := {| currentIndex := initialIndex p; isZoomed := false; showThumbnails := false |} in
  if throws p s0
  then {| mounted := false; props := p; state := s0; vars := touchVars0; document := d |}
  else {| mounted := true;
          props := p;
          state := scrollEffectState p (syncIndexEffect p s0);
          vars := touchVars0;
          document := touchEffect p (keyboardEffect p (scrollEffectDocument p d)) |}.

Definition mount (p : Props) : Lightbox := mountIn document0 p.

(** Dependency comparisons of the effects. [goToPrevious] and [goToNext]
    are memoised on [images.length], [toggleZoom] on [isZoomed]. *)
Definition lengthChanged (p p' : Props) : bool :=
  negb (len (images p) =? len (images p')).

Definition openChanged (p p' : Props) : bool :=
  negb (Bool.eqb (isOpen p) (isOpen p')).

Definition keyboardDepsChanged (p p' : Props) (s s' : State) : bool :=
  openChanged p p' || lengthChanged p p'
  || negb (Bool.eqb (isZoomed s) (isZoomed s'))
  || negb (Bool.eqb (showThumbnails s) (showThumbnails s'))
  || negb (Nat.eqb (onClose p) (onClose p')).

Definition touchDepsChanged (p p' : Props) : bool :=
  openChanged p p' || lengthChanged p p'.

(** The effects of a render with props [p'] and state [s'] that did not
    throw: those whose dependencies changed run (clean-up, then body), in
    the order of the source. The state of the result is the one their
    setters leave. *)
Definition runEffects (p' : Props) (s' : State) (c : Lightbox) : Lightbox :=
  let p := props c in
  let s := state c in
  let s1 := if negb (initialIndex p =? initialIndex p') then syncIndexEffect p' s' else s' in
  let s2 := if openChanged p p' then scrollEffectState p' s1 else s1 in
  let d1 := if openChanged p p' then scrollEffectDocument p' (document c) else document c in
  let d2 := if keyboardDepsChanged p p' s s' then keyboardEffect p' d1 else d1 in
  let d3 := if touchDepsChanged p p' then touchEffect p' d2 else d2 in
  {| mounted := true;
     props := p';
     state := s2;
     vars := if touchDepsChanged p p' then touchVars0 else vars c;
     document := d3 |}.

(** The render the setters of the effects schedule, where [s'] is the
    state of the render before: the body runs with the state they left;
    when it throws the component is removed, otherwise only the keyboard
    effect can see a changed dependency ([toggleZoom], [showThumbnails]). *)
Definition settle (s' : State) (c : Lightbox) : Lightbox :=
  if throws (props c) (state c) then unmount c
  else {| mounted := true;
          props := props c;
          state := state c;
          vars := vars c;
          document := if keyboardDepsChanged (props c) (props c) s' (state c)
                      then keyboardEffect (props c) (document c)
                      else document c |}.

(** A render of the mounted component with props [p'] and state [s'],
    and what follows it. The body runs first, with [p'] and [s'] as they
    are: when it throws, the component is removed before any effect of
    this render has run. Otherwise the effects run and the render they
    schedule follows. Nothing is rendered for a component that is not
    mounted. *)
Definition commit (p' : Props) (s' : State) (c : Lightbox) : Lightbox :=
  if negb (mounted c) then c
  else if throws p' s'
       then unmount {| mounted := true; props := p'; state := s';
                       vars := vars c; document := document c |}
       else settle s' (runEffects p' s' c).

(** The owner renders the mounted component with new props. *)
Definition rerender (p' : Props) (c : Lightbox) : Lightbox :=
  commit p' (state c) c.

(** Same props with [isOpen = false]. *)
Definition closedProps (p : Props) : Props :=
  {| isOpen := false; onClose := onClose p; images := images p;
     initialIndex := initialIndex p; title := title p |}.

(** A handler ran and made the calls [cs]: state update, then render. *)
Definition afterCalls (cs : list Call) (c : Lightbox) : Lightbox :=
  commit (props c) (performAll (images (props c)) cs (state c)) c.

(** The browser delivers a [keydown] to the document. *)
Definition dispatchKeyDown (key : string) (c : Lightbox) : Lightbox :=
  if keydownListener (document c)
  then afterCalls (handleKeyDown (isOpen (props c)) key) c
  else c.

(** The browser delivers [touchstart] then [touchend] to the document;
    the closure keeps the two coordinates it was given. *)
Definition dispatchTouch (startX endX : Z) (c : Lightbox) : Lightbox :=
  if touchListeners (document c)
  then
    let c' := afterCalls (touchGesture startX endX (vars c)) c in
    {| mounted := mounted c';
       props := props c';
       state := state c';
       vars := recordTouchEnd endX (handleTouchStart startX (vars c));
       document := document c' |}
  else c.

(** The [onClick] handlers of the returned tree: the backdrop and the close
    button ([onClose]), the zoom button and the image ([toggleZoom]), the
    gallery button, the two arrows, and one thumbnail per position of
    [images.map((image, index) => ...)]. There is a tree only for a
    mounted component whose body returned one. *)
Definition clickable (c : Lightbox) (call : Call) : bool :=
  let p := props c in
  mounted c
  && match render p (state c) with
     | RenderImage _ _ =>
         match call with
         | PreventDefault => false
         | OnClose | ToggleZoom => true
         | ToggleThumbnails | GoToPrevious | GoToNext => hasMultipleImages p
         | GoToImage index =>
             hasMultipleImages p && showThumbnails (state c)
             && (0 <=? index) && (index <? len (images p))
         end
     | _ => false
     end.

Definition click (call : Call) (c : Lightbox) : Lightbox :=
  if clickable c call then afterCalls [call] c else c.

(** What can happen to the component. *)
Inductive Event :=
| KeyDown (key : string)
| TouchSwipe (startX endX : Z)
| Click (call : Call)
| Rerender (p' : Props).

(** The events that come from the user. *)
Definition isInput (e : Event) : bool :=
  match e with
  | Rerender _ => false
  | _ => true
  end.

(** [Rerender p']: the owner renders [<PortfolioLightbox ... />] with the
    props [p'], an update of the component when it is mounted and a first
    render when it is not. *)
Definition step (e : Event) (c : Lightbox) : Lightbox :=
  match e with
  | KeyDown key => dispatchKeyDown key c
  | TouchSwipe startX endX => dispatchTouch startX endX c
  | Click call => click call c
  | Rerender p' => if mounted c then rerender p' c else mountIn (document c) p'
  end.

Definition run (es : list Event) (c : Lightbox) : Lightbox :=
  fold_left (fun acc e => step e acc) es c.

(** The owner closes the lightbox: it renders it with [isOpen = false]. *)
Definition close (c : Lightbox) : Lightbox := step (Rerender (closedProps (props c))) c.

(** The calls an event leads to: those of the handler it reaches, none
    when no handler is reached. *)
Definition callsOf (c : Lightbox) (e : Event) : list Call :=
  match e with
  | KeyDown key =>
      if keydownListener (document c) then handleKeyDown (isOpen (props c)) key else []
  | TouchSwipe startX endX =>
      if touchListeners (document c) then touchGesture startX endX (vars c) else []
  | Click call => if clickable c call then [call] else []
  | Rerender _ => []
  end.

(** The registered global listeners are those of an open lightbox. *)
Definition listenersMatch (c : Lightbox) : Prop :=
  keydownListener (document c) = isOpen (props c)
  /\ touchListeners (document c) = isOpen (props c).

(** The scroll lock is that of the [isOpen] effect. *)
Definition scrollMatches (c : Lightbox) : Prop :=
  bodyOverflow (document c) = if isOpen (props c) then "hidden" else "unset".

(** A closed lightbox has both toggles off. *)
Definition togglesOffWhenClosed (c : Lightbox) : Prop :=
  isOpen (props c) = false ->
  isZoomed (state c) = false /\ showThumbnails (state c) = false.

(** Nothing of the lightbox is left in the document: no listener, and
    scrolling is not suspended. *)
Definition atRest (d : Document) : Prop :=
  keydownListener d = false /\ touchListeners d = false /\ bodyOverflow d <> "hidden".

(** What holds of the component after any series of events: while it is
    mounted its body did not throw and the document is that of its
    effects; when it is not, the last body that ran threw and nothing of
    the lightbox is left in the document. *)
Definition consistent (c : Lightbox) : Prop :=
  if mounted c
  then throws (props c) (state c) = false /\ listenersMatch c /\ scrollMatches c
  else throws (props c) (state c) = true /\ atRest (document c).

(** A call that keeps the index inside an image set of size [n]: a jump
    only to one of its positions. *)
Definition safeCall (n : Z) (call : Call) : Prop :=
  match call with
  | GoToImage index => inRange n index
  | _ => True
  end.

(** Props of an open lightbox over [imgs] at [index]. *)
Definition openProps (imgs : list PortfolioImage) (index : Z) : Props :=
  {| isOpen := true; onClose := 0%nat; images := imgs;
     initialIndex := index; title := "Portfolio" |}.

(** The header line [Image {currentIndex + 1} of {images.length}], shown
    [hasMultipleImages &&]. *)
Definition positionLabel (p : Props) (s : State) : option (Z * Z) :=
  match render p s with
  | RenderImage _ _ =>
      if hasMultipleImages p then Some (currentIndex s + 1, len (images p)) else None
  | _ => None
  end.

(** The places a list of calls moves the index round the cycle: one
    forward for each [goToNext], one back for each [goToPrevious]. *)
Definition netSteps (cs : list Call) : Z :=
  fold_right (fun c acc =>
                match c with
                | GoToNext => 1 + acc
                | GoToPrevious => acc - 1
                | _ => acc
                end) 0 cs.

Definition isJump (c : Call) : bool :=
  match c with
  | GoToImage _ => true
  | _ => false
  end.

End PortfolioLightbox.

(** ** EnhancedLightbox.tsx *)

Module EnhancedLightbox.

Record Props := mkProps {
  isOpen : bool;
  images : list PortfolioImage;
  currentIndex : Z;
  title : option string;
  description : option string
}.

(** What the component returns: [null], the dialog with the [<img>] built
    from [currentImage.src] and [currentImage.alt], or the [TypeError] of
    reading a field of [undefined]. *)
Inductive Rendered :=
| RenderNull
| RenderImage (imgSrc imgAlt : string)
| RenderTypeError.

(** [if (!isOpen || images.length === 0) return null;
     const currentImage = images[currentIndex];
     ... src={currentImage.src} alt={currentImage.alt} ...] *)
Definition render (p : Props) : Rendered :=
  if negb (isOpen p) || (len (images p) =? 0) then RenderNull
  else match at_index (images p) (currentIndex p) with
       | Some currentImage => RenderImage (src currentImage) (alt currentImage)
       | None => RenderTypeError
       end.

(** [handleKeyDown]: [if (!isOpen) return; if (e.key === 'Escape') onClose();]
    as the number of [onClose] calls made. *)
Definition handleKeyDown (p : Props) (key : string) : nat :=
  if negb (isOpen p) then 0%nat
  else if String.eqb key "Escape" then 1%nat else 0%nat.

End EnhancedLightbox.

(** ** PortfolioMosaic.tsx *)

Module PortfolioMosaic.

(** The [lightbox] state cell. *)
Record LightboxState := mkLightboxState {
  isOpen : bool;
  images : list PortfolioImage;
  currentIndex : Z;
  title : string;
  description : string
}.

(** [useState({ isOpen: false, images: [], currentIndex: 0, title: '',
    description: '' })] *)
Definition initialLightbox : LightboxState :=
  {| isOpen := false; images := []; currentIndex := 0; title := EmptyString; description := EmptyString |}.

(** [setLightbox({ isOpen: true, images, currentIndex: index, title,
    description })] *)
Definition openLightbox (imgs : list PortfolioImage) (index : Z)
    (ttl descr : string) (prev : LightboxState) : LightboxState :=
  {| isOpen := true; images := imgs; currentIndex := index;
     title := ttl; description := descr |}.

(** [setLightbox(prev => ({ ...prev, isOpen: false }))] *)
Definition closeLightbox (prev : LightboxState) : LightboxState :=
  {| isOpen := false; images := images prev; currentIndex := currentIndex prev;
     title := title prev; description := description prev |}.

(** The props of [<EnhancedLightbox ... />] at the end of the component. *)
Definition lightboxProps (l : LightboxState) : EnhancedLightbox.Props :=
  {| EnhancedLightbox.isOpen := isOpen l;
     EnhancedLightbox.images := images l;
     EnhancedLightbox.currentIndex := currentIndex l;
     EnhancedLightbox.title := Some (title l);
     EnhancedLightbox.description := Some (description l) |}.

End PortfolioMosaic.

(** ** The card sliders *)

(** [number | null] state cells: [!x] holds for [null] and for [0]; in a
    subtraction [null] counts as [0]. *)
Definition truthy (x : option Z) : bool :=
  match x with
  | None => false
  | Some v => negb (v =? 0)
  end.

Definition toNumber (x : option Z) : Z := default 0 x.

(** What can happen to a card: a completed touch gesture on the image
    container ([touchstart], the [touchmove]s, [touchend]), a click on one
    of the two arrows or on a pagination dot, a key pressed on the focused
    card, a click on the card itself. *)
Inductive CardEvent :=
| CardSwipe (startX : Z) (moves : list Z)
| CardClickPrevious
| CardClickNext
| CardClickDot (index : Z)
| CardKeyDown (key : string)
| CardClick.

(** The index a card may hold over [n] images: a position of the image
    set, or 0 when there is none. *)
Definition cardIndexOk (n i : Z) : Prop :=
  if n =? 0 then i = 0 else inRange n i.

(** Portfolio card ([PortfolioCard], multi-image slider). *)
Module PortfolioCard.

Record State := mkState {
  currentImageIndex : Z;
  touchStart : option Z;
  touchEnd : option Z
}.

(** [useState(0)], [useState<number | null>(null)] twice. *)
Definition initialState : State :=
  {| currentImageIndex := 0; touchStart := None; touchEnd := None |}.

(** [const hasMultipleImages = images.length > 1;] *)
Definition hasMultipleImages (imgs : list PortfolioImage) : bool := len imgs >? 1.

Definition minSwipeDistance : Z := 50.

(** [setTouchEnd(null); setTouchStart(e.targetTouches[0].clientX);] *)
Definition onTouchStart (clientX : Z) (s : State) : State :=
  {| currentImageIndex := currentImageIndex s;
     touchStart := Some clientX;
     touchEnd := None |}.

(** [setTouchEnd(e.targetTouches[0].clientX);] *)
Definition onTouchMove (clientX : Z) (s : State) : State :=
  {| currentImageIndex := currentImageIndex s;
     touchStart := touchStart s;
     touchEnd := Some clientX |}.

(** [setCurrentImageIndex((prev) => prev === 0 ? images.length - 1 : prev - 1);] *)
Definition goToPrevious (imgs : list PortfolioImage) (s : State) : State :=
  {| currentImageIndex :=
       if currentImageIndex s =? 0 then len imgs - 1 else currentImageIndex s - 1;
     touchStart := touchStart s;
     touchEnd := touchEnd s |}.

(** [setCurrentImageIndex((prev) => prev === images.length - 1 ? 0 : prev + 1);] *)
Definition goToNext (imgs : list PortfolioImage) (s : State) : State :=
  {| currentImageIndex :=
       if currentImageIndex s =? len imgs - 1 then 0 else currentImageIndex s + 1;
     touchStart := touchStart s;
     touchEnd := touchEnd s |}.

(** [setCurrentImageIndex(index);] *)
Definition goToImage (index : Z) (s : State) : State :=
  {| currentImageIndex := index;
     touchStart := touchStart s;
     touchEnd := touchEnd s |}.

Inductive Call :=
| GoToPrevious
| GoToNext.

Definition perform (imgs : list PortfolioImage) (c : Call) (s : State) : State :=
  match c with
  | GoToPrevious => goToPrevious imgs s
  | GoToNext => goToNext imgs s
  end.

(** [onTouchEnd]:
    [if (!touchStart || !touchEnd) return;
     const distance = touchStart - touchEnd;
     const isLeftSwipe = distance > minSwipeDistance;
     const isRightSwipe = distance < -minSwipeDistance;
     if (isLeftSwipe && hasMultipleImages) goToNext();
     if (isRightSwipe && hasMultipleImages) goToPrevious();] *)
Definition onTouchEnd (imgs : list PortfolioImage) (s : State) : list Call :=
  if negb (truthy (touchStart s)) || negb (truthy (touchEnd s)) then []
  else
    let distance := toNumber (touchStart s) - toNumber (touchEnd s) in
    let isLeftSwipe := distance >? minSwipeDistance in
    let isRightSwipe := distance <? - minSwipeDistance in
    (if isLeftSwipe && hasMultipleImages imgs then [GoToNext] else [])
    ++ (if isRightSwipe && hasMultipleImages imgs then [GoToPrevious] else []).

(** The state the card is in when the finger lifts: [touchstart] at
    [startX], then a [touchmove] for each element of [moves]. *)
Definition touched (startX : Z) (moves : list Z) (s : State) : State :=
  fold_left (fun acc x => onTouchMove x acc) moves (onTouchStart startX s).

(** A completed gesture on the image container. *)
Definition touchGesture (imgs : list PortfolioImage) (startX : Z) (moves : list Z)
    (s : State) : list Call :=
  onTouchEnd imgs (touched startX moves s).

(** *** The rest of the card *)

(** [images[currentImageIndex] || { src: '', alt: '', caption: '',
    description: '' }]: an image object is truthy, so the right operand is
    taken exactly when the lookup is [undefined]. *)
Definition fallbackImage : PortfolioImage :=
  mkImage EmptyString EmptyString (Some EmptyString) (Some EmptyString).

Definition currentImage (imgs : list PortfolioImage) (s : State) : PortfolioImage :=
  match at_index imgs (currentImageIndex s) with
  | Some image => image
  | None => fallbackImage
  end.

(** [handleKeyDown]: the new state and the arguments of the
    [onImageClick] calls made. The arrow branches repeat the updater of
    [goToPrevious] and [goToNext] inline. *)
Definition handleKeyDown (imgs : list PortfolioImage) (key : string) (s : State)
    : State * list Z :=
  if String.eqb key "Enter" || String.eqb key " " then (s, [currentImageIndex s])
  else if String.eqb key "ArrowLeft" && hasMultipleImages imgs then
    ({| currentImageIndex :=
          if currentImageIndex s =? 0 then len imgs - 1 else currentImageIndex s - 1;
        touchStart := touchStart s;
        touchEnd := touchEnd s |}, [])
  else if String.eqb key "ArrowRight" && hasMultipleImages imgs then
    ({| currentImageIndex :=
          if currentImageIndex s =? len imgs - 1 then 0 else currentImageIndex s + 1;
        touchStart := touchStart s;
        touchEnd := touchEnd s |}, [])
  else (s, []).

Definition performAll (imgs : list PortfolioImage) (cs : list Call) (s : State) : State :=
  fold_left (fun acc c => perform imgs c acc) cs s.

(** One event: the new state and the [onImageClick] arguments. The arrows
    and the dots exist [hasMultipleImages &&], one dot per position of
    [images.map((_, index) => ...)]; they stop the propagation of their
    click, so only a click elsewhere on the card reaches [onImageClick]. *)
Definition step (imgs : list PortfolioImage) (e : CardEvent) (s : State)
    : State * list Z :=
  match e with
  | CardSwipe startX moves =>
      let s1 := touched startX moves s in
      (performAll imgs (onTouchEnd imgs s1) s1, [])
  | CardClickPrevious =>
      if hasMultipleImages imgs then (goToPrevious imgs s, []) else (s, [])
  | CardClickNext =>
      if hasMultipleImages imgs then (goToNext imgs s, []) else (s, [])
  | CardClickDot index =>
      if hasMultipleImages imgs && (0 <=? index) && (index <? len imgs)
      then (goToImage index s, []) else (s, [])
  | CardKeyDown key => handleKeyDown imgs key s
  | CardClick => (s, [currentImageIndex s])
  end.

Fixpoint run (imgs : list PortfolioImage) (es : list CardEvent) (s : State)
    : State * list Z :=
  match es with
  | [] => (s, [])
  | e :: es' =>
      let '(s1, out1) := step imgs e s in
      let '(s2, out2) := run imgs es' s1 in
      (s2, out1 ++ out2)
  end.

End PortfolioCard.

(** Slider card ([SliderCard], single or multiple images). *)
Module SliderCard.

(** [interface CardData], the fields the slider reads. *)
Record CardData := mkCardData {
  title : string;
  description : string;
  image : option string;
  images : option (list PortfolioImage)
}.

(** [data.images || (data.image ? [{ src: data.image, alt: data.title,
    caption: data.title, description: data.description }] : [])];
    an array is truthy even when empty, a string only when non-empty. *)
Definition imagesOf (data : CardData) : list PortfolioImage :=
  match images data with
  | Some imgs => imgs
  | None =>
      match image data with
      | Some i =>
          if String.eqb i EmptyString then []
          else [ mkImage i (title data) (Some (title data)) (Some (description data)) ]
      | None => []
      end
  end.

Record State := mkState {
  currentImageIndex : Z;
  touchStart : option Z;
  touchEnd : option Z
}.

Definition initialState : State :=
  {| currentImageIndex := 0; touchStart := None; touchEnd := None |}.

Definition hasMultipleImages (imgs : list PortfolioImage) : bool := len imgs >? 1.

Definition minSwipeDistance : Z := 50.

Definition onTouchStart (clientX : Z) (s : State) : State :=
  {| currentImageIndex := currentImageIndex s;
     touchStart := Some clientX;
     touchEnd := None |}.

Definition onTouchMove (clientX : Z) (s : State) : State :=
  {| currentImageIndex := currentImageIndex s;
     touchStart := touchStart s;
     touchEnd := Some clientX |}.

Inductive Call :=
| GoToPrevious
| GoToNext.

(** Same text as the portfolio card's [onTouchEnd]. *)
Definition onTouchEnd (imgs : list PortfolioImage) (s : State) : list Call :=
  if negb (truthy (touchStart s)) || negb (truthy (touchEnd s)) then []
  else
    let distance := toNumber (touchStart s) - toNumber (touchEnd s) in
    let isLeftSwipe := distance >? minSwipeDistance in
    let isRightSwipe := distance <? - minSwipeDistance in
    (if isLeftSwipe && hasMultipleImages imgs then [GoToNext] else [])
    ++ (if isRightSwipe && hasMultipleImages imgs then [GoToPrevious] else []).

Definition touched (startX : Z) (moves : list Z) (s : State) : State :=
  fold_left (fun acc x => onTouchMove x acc) moves (onTouchStart startX s).

Definition touchGesture (data : CardData) (startX : Z) (moves : list Z)
    (s : State) : list Call :=
  onTouchEnd (imagesOf data) (touched startX moves s).

(** *** The rest of the card *)

(** [images[currentImageIndex] || { src: "", alt: data.title,
    caption: data.title, description: data.description }] *)
Definition fallbackImage (data : CardData) : PortfolioImage :=
  mkImage EmptyString (title data) (Some (title data)) (Some (description data)).

Definition currentImage (data : CardData) (s : State) : PortfolioImage :=
  match at_index (imagesOf data) (currentImageIndex s) with
  | Some image => image
  | None => fallbackImage data
  end.

(** [setCurrentImageIndex((prev) => prev === 0 ? images.length - 1 : prev - 1)] *)
Definition goToPrevious (imgs : list PortfolioImage) (s : State) : State :=
  {| currentImageIndex :=
       if currentImageIndex s =? 0 then len imgs - 1 else currentImageIndex s - 1;
     touchStart := touchStart s;
     touchEnd := touchEnd s |}.

(** [setCurrentImageIndex((prev) => prev === images.length - 1 ? 0 : prev + 1)] *)
Definition goToNext (imgs : list PortfolioImage) (s : State) : State :=
  {| currentImageIndex :=
       if currentImageIndex s =? len imgs - 1 then 0 else currentImageIndex s + 1;
     touchStart := touchStart s;
     touchEnd := touchEnd s |}.

(** [setCurrentImageIndex(index);] *)
Definition goToImage (index : Z) (s : State) : State :=
  {| currentImageIndex := index;
     touchStart := touchStart s;
     touchEnd := touchEnd s |}.

Definition perform (imgs : list PortfolioImage) (c : Call) (s : State) : State :=
  match c with
  | GoToPrevious => goToPrevious imgs s
  | GoToNext => goToNext imgs s
  end.

Definition performAll (imgs : list PortfolioImage) (cs : list Call) (s : State) : State :=
  fold_left (fun acc c => perform imgs c acc) cs s.

(** [handleKeyDown]: here the arrow branches call [goToPrevious()] and
    [goToNext()]. *)
Definition handleKeyDown (imgs : list PortfolioImage) (key : string) (s : State)
    : State * list Z :=
  if String.eqb key "Enter" || String.eqb key " " then (s, [currentImageIndex s])
  else if String.eqb key "ArrowLeft" && hasMultipleImages imgs then (goToPrevious imgs s, [])
  else if String.eqb key "ArrowRight" && hasMultipleImages imgs then (goToNext imgs s, [])
  else (s, []).

Definition step (data : CardData) (e : CardEvent) (s : State) : State * list Z :=
  let imgs := imagesOf data in
  match e with
  | CardSwipe startX moves =>
      let s1 := touched startX moves s in
      (performAll imgs (onTouchEnd imgs s1) s1, [])
  | CardClickPrevious =>
      if hasMultipleImages imgs then (goToPrevious imgs s, []) else (s, [])
  | CardClickNext =>
      if hasMultipleImages imgs then (goToNext imgs s, []) else (s, [])
  | CardClickDot index =>
      if hasMultipleImages imgs && (0 <=? index) && (index <? len imgs)
      then (goToImage index s, []) else (s, [])
  | CardKeyDown key => handleKeyDown imgs key s
  | CardClick => (s, [currentImageIndex s])
  end.

Fixpoint run (data : CardData) (es : list CardEvent) (s : State) : State * list Z :=
  match es with
  | [] => (s, [])
  | e :: es' =>
      let '(s1, out1) := step data e s in
      let '(s2, out2) := run data es' s1 in
      (s2, out1 ++ out2)
  end.

(** The slider card and the portfolio card hold the same three cells. *)
Definition sameAs (s : State) (t : PortfolioCard.State) : Prop :=
  currentImageIndex s = PortfolioCard.currentImageIndex t
  /\ touchStart s = PortfolioCard.touchStart t
  /\ touchEnd s = PortfolioCard.touchEnd t.

End SliderCard.

(** ** Sample data *)

Definition img (name : string) : PortfolioImage :=
  mkImage name name None None.

Definition gallery3 : list PortfolioImage := [img "a"; img "b"; img "c"].
Definition gallery4 : list PortfolioImage := [img "a"; img "b"; img "c"; img "d"].
Definition gallery1 : list PortfolioImage := [img "a"].

(** ** What the simple lightbox writes and does to the document *)

(** [x || y] on optional strings: the left operand when it is a non-empty
    string, the right one otherwise. *)
Definition truthyString (x : option string) : bool :=
  match x with
  | Some v => negb (String.eqb v EmptyString)
  | None => false
  end.

Definition orString (x y : option string) : option string :=
  if truthyString x then x else y.

Module EnhancedLightboxView.

(** [{currentImage.caption || title || "Portfolio Image"}] *)
Definition heading (p : EnhancedLightbox.Props) (currentImage : PortfolioImage)
    : option string :=
  orString (orString (caption currentImage) (EnhancedLightbox.title p))
           (Some "Portfolio Image").

(** [{(currentImage.description || description) && (<p>...</p>)}]: the
    paragraph, when there is one. *)
Definition paragraph (p : EnhancedLightbox.Props) (currentImage : PortfolioImage)
    : option string :=
  let text := orString (description currentImage) (EnhancedLightbox.description p) in
  if truthyString text then text else None.

(** The part of [document] the two effects touch. *)
Record Document := mkDocument {
  bodyOverflow : string;
  keydownListener : bool
}.

(** Effect [[isOpen]]: the scroll lock. *)
Definition scrollEffect (p : EnhancedLightbox.Props) (d : Document) : Document :=
  {| bodyOverflow := if EnhancedLightbox.isOpen p then "hidden" else "unset";
     keydownListener := keydownListener d |}.

(** Effect [[isOpen, onClose]]: the clean-up removes the [keydown]
    listener, the body adds it again [if (isOpen)]. *)
Definition keyboardEffect (p : EnhancedLightbox.Props) (d : Document) : Document :=
  {| bodyOverflow := bodyOverflow d;
     keydownListener := EnhancedLightbox.isOpen p |}.

Definition mount (p : EnhancedLightbox.Props) : Document :=
  keyboardEffect p (scrollEffect p {| bodyOverflow := "unset"; keydownListener := false |}).

(** A render with props [p'] after one with props [p]; [onCloseChanged]
    tells whether the owner passed another [onClose] function. *)
Definition commit (onCloseChanged : bool) (p p' : EnhancedLightbox.Props) (d : Document)
    : Document :=
  let openChanged := negb (Bool.eqb (EnhancedLightbox.isOpen p) (EnhancedLightbox.isOpen p')) in
  let d1 := if openChanged then scrollEffect p' d else d in
  if openChanged || onCloseChanged then keyboardEffect p' d1 else d1.

(** The dialog is on the screen (its backdrop and close button can be
    clicked). *)
Definition shown (p : EnhancedLightbox.Props) : bool :=
  match EnhancedLightbox.render p with
  | EnhancedLightbox.RenderImage _ _ => true
  | _ => false
  end.

End EnhancedLightboxView.

(** ** PortfolioMosaic.tsx, the whole component *)

Module MosaicApp.

(** [const portfolioImages = [...]] (the [className] of each entry only
    places the tile). *)
Definition portfolioImage0 : PortfolioImage :=
  {| src := "https://images.unsplash.com/photo-1637862666931-be59da5dd8ca?crop=entropy&cs=tinysrgb&fit=max&fm=jpg&ixid=M3w3Nzg4Nzd8MHwxfHNlYXJjaHwxfHxmZXN0aXZhbCUyMG1ha2V1cCUyMGZhY2UlMjBhcnQlMjBjb2xvcmZ1bHxlbnwxfHx8fDE3NTc1OTI0MDV8MA&ixlib=rb-4.1.0&q=80&w=1080&utm_source=figma&utm_medium=referral";
     alt := "Festival makeup with colorful face art and creative expression";
     caption := Some "Festival Artistry";
     description := Some "Vibrant festival makeup showcasing colorful face art and creative expression that captures the energy of live events" |}.

Definition portfolioImage1 : PortfolioImage :=
  {| src := "https://images.unsplash.com/photo-1602494518965-195c6ec1c980?crop=entropy&cs=tinysrgb&fit=max&fm=jpg&ixid=M3w3Nzg4Nzd8MHwxfHNlYXJjaHwxfHxVViUyMG1ha2V1cCUyMGdsb3clMjBuZW9uJTIwYmxhY2tsaWdodHxlbnwxfHx8fDE3NTc1OTI0MDl8MA&ixlib=rb-4.1.0&q=80&w=1080&utm_source=figma&utm_medium=referral";
     alt := "UV reactive makeup glowing under blacklight with neon effects";
     caption := Some "UV Exploration";
     description := Some "Innovative UV reactive makeup that comes alive under blacklight, creating magical neon effects perfect for underground scenes" |}.

Definition portfolioImage2 : PortfolioImage :=
  {| src := "https://images.unsplash.com/photo-1719429873442-e894bc0ca520?crop=entropy&cs=tinysrgb&fit=max&fm=jpg&ixid=M3w3Nzg4Nzd8MHwxfHNlYXJjaHwxfHxjcmVhdGl2ZSUyMG5haWwlMjBhcnQlMjByYWluYm93JTIwY29sb3JzfGVufDF8fHx8MTc1NzU5MjQxM3ww&ixlib=rb-4.1.0&q=80&w=1080&utm_source=figma&utm_medium=referral";
     alt := "Creative nail art with rainbow colors and artistic design";
     caption := Some "Fusion Nails";
     description := Some "Creative nail art featuring rainbow colors and artistic designs that complement makeup looks with coordinated artistry" |}.

Definition portfolioImage3 : PortfolioImage :=
  {| src := "https://images.unsplash.com/photo-1576135711730-51049b41de78?crop=entropy&cs=tinysrgb&fit=max&fm=jpg&ixid=M3w3Nzg4Nzd8MHwxfHNlYXJjaHwxfHxhcnRpc3RpYyUyMG1ha2V1cCUyMHBvcnRyYWl0JTIwY29sb3JmdWwlMjBmYWNlJTIwcGFpbnR8ZW58MXx8fHwxNzU3NTkyNDE3fDA&ixlib=rb-4.1.0&q=80&w=1080&utm_source=figma&utm_medium=referral";
     alt := "Artistic makeup portrait with colorful face paint and creative styling";
     caption := Some "Portrait Artistry";
     description := Some "Professional artistic makeup portrait showcasing colorful face paint and creative styling for editorial and creative shoots" |}.

Definition portfolioImage4 : PortfolioImage :=
  {| src := "https://images.unsplash.com/photo-1687152271728-f04baaefebab?crop=entropy&cs=tinysrgb&fit=max&fm=jpg&ixid=M3w3Nzg4Nzd8MHwxfHNlYXJjaHwxfHxnbGl0dGVyJTIwbWFrZXVwJTIwc3BhcmtsZSUyMGZhbnRhc3l8ZW58MXx8fHwxNzU3NTkyNDIxfDA&ixlib=rb-4.1.0&q=80&w=1080&utm_source=figma&utm_medium=referral";
     alt := "Glitter makeup with sparkle and fantasy elements";
     caption := Some "Fantasy Glitter";
     description := Some "Enchanting glitter makeup with sparkle and fantasy elements that transform faces into magical canvases of light and color" |}.

Definition portfolioImage5 : PortfolioImage :=
  {| src := "https://images.unsplash.com/photo-1585049303349-6680e6179692?crop=entropy&cs=tinysrgb&fit=max&fm=jpg&ixid=M3w3Nzg4Nzd8MHwxfHNlYXJjaHwxfHxib2xkJTIwZXllJTIwbWFrZXVwJTIwYXJ0aXN0aWMlMjBlZGl0b3JpYWx8ZW58MXx8fHwxNzU3NTkyNDI2fDA&ixlib=rb-4.1.0&q=80&w=1080&utm_source=figma&utm_medium=referral";
     alt := "Bold eye makeup with artistic editorial styling";
     caption := Some "Editorial Eyes";
     description := Some "Bold editorial eye makeup with artistic styling that pushes creative boundaries for fashion and editorial photography" |}.

Definition portfolioImages : list PortfolioImage :=
  [portfolioImage0; portfolioImage1; portfolioImage2;
   portfolioImage3; portfolioImage4; portfolioImage5].

(** [portfolioImages.map(img => ({ src: img.src, alt: img.alt,
    caption: img.caption, description: img.description }))] *)
Definition lightboxImages : list PortfolioImage :=
  map (fun image => mkImage (src image) (alt image) (caption image) (description image))
      portfolioImages.

(** The six tiles of the mosaic, in the order of the source. *)
Inductive Tile := Tile0 | Tile1 | Tile2 | Tile3 | Tile4 | Tile5.

(** The index each tile passes to [openLightbox], which is also the index
    of [portfolioImages] its background comes from. *)
Definition tileIndex (t : Tile) : Z :=
  match t with
  | Tile0 => 0 | Tile1 => 1 | Tile2 => 2 | Tile3 => 3 | Tile4 => 4 | Tile5 => 5
  end.

(** [backgroundImage: url("${portfolioImages[k].src}")] *)
Definition tileBackground (t : Tile) : option string :=
  src <$> at_index portfolioImages (tileIndex t).

Definition showcaseTitle : string := "Portfolio Showcase".
Definition showcaseDescription : string :=
  "Explore Ash Shaw's creative makeup artistry journey".

(** The component with the document its lightbox acts on. *)
Record App := mkApp {
  lightbox : PortfolioMosaic.LightboxState;
  document : EnhancedLightboxView.Document
}.

Definition initialApp : App :=
  {| lightbox := PortfolioMosaic.initialLightbox;
     document := EnhancedLightboxView.mount
                   (PortfolioMosaic.lightboxProps PortfolioMosaic.initialLightbox) |}.

(** [setLightbox(l')]: the mosaic renders again, and with it the lightbox;
    [closeLightbox] is a new function at every render. *)
Definition setLightbox (l' : PortfolioMosaic.LightboxState) (a : App) : App :=
  {| lightbox := l';
     document := EnhancedLightboxView.commit true
                   (PortfolioMosaic.lightboxProps (lightbox a))
                   (PortfolioMosaic.lightboxProps l') (document a) |}.

(** [onClick] of a tile. *)
Definition tileOpen (t : Tile) (a : App) : App :=
  setLightbox (PortfolioMosaic.openLightbox lightboxImages (tileIndex t)
                 showcaseTitle showcaseDescription (lightbox a)) a.

(** [onClose], that is [closeLightbox]. *)
Definition close (a : App) : App :=
  setLightbox (PortfolioMosaic.closeLightbox (lightbox a)) a.

(** A [keydown] reaches the document. *)
Definition documentKeyDown (key : string) (a : App) : App :=
  if EnhancedLightboxView.keydownListener (document a)
  then Nat.iter (EnhancedLightbox.handleKeyDown
                   (PortfolioMosaic.lightboxProps (lightbox a)) key) close a
  else a.

(** [onKeyDown] of a tile: [if (e.key === 'Enter' || e.key === ' ')];
    the event then bubbles to the document. *)
Definition tileKeyDown (t : Tile) (key : string) (a : App) : App :=
  documentKeyDown key
    (if String.eqb key "Enter" || String.eqb key " " then tileOpen t a else a).

Inductive Event :=
| TileClick (t : Tile)
| TileKeyDown (t : Tile) (key : string)
| DocumentKeyDown (key : string)
| BackdropClick
| CloseButtonClick
| InsideClick.

Definition step (e : Event) (a : App) : App :=
  match e with
  | TileClick t => tileOpen t a
  | TileKeyDown t key => tileKeyDown t key a
  | DocumentKeyDown key => documentKeyDown key a
  | BackdropClick | CloseButtonClick =>
      if EnhancedLightboxView.shown (PortfolioMosaic.lightboxProps (lightbox a))
      then close a else a
  | InsideClick => a
  end.

Definition run (es : list Event) (a : App) : App :=
  fold_left (fun acc e => step e acc) es a.

(** What the lightbox of the mosaic returns. *)
Definition view (a : App) : EnhancedLightbox.Rendered :=
  EnhancedLightbox.render (PortfolioMosaic.lightboxProps (lightbox a)).

(** The lightbox of the mosaic is closed or on one of the six images, and
    the document follows it. *)
Definition consistent (a : App) : Prop :=
  PortfolioMosaic.images (lightbox a) = (if PortfolioMosaic.isOpen (lightbox a)
                                        then lightboxImages
                                        else PortfolioMosaic.images (lightbox a))
  /\ (PortfolioMosaic.isOpen (lightbox a) = true ->
      inRange 6 (PortfolioMosaic.currentIndex (lightbox a)))
  /\ EnhancedLightboxView.bodyOverflow (document a)
     = (if PortfolioMosaic.isOpen (lightbox a) then "hidden" else "unset")
  /\ EnhancedLightboxView.keydownListener (document a) = PortfolioMosaic.isOpen (lightbox a).

End MosaicApp.

(** ** FeaturedSection.tsx *)

Module FeaturedSection.

(** An entry of [FEATURED_WORK_DATA], with the fields the section and the
    card read. *)
Record Work := mkWork {
  id : option string;
  title : string;
  subtitle : option string;
  description : string;
  image : option string;
  images : option (list PortfolioImage)
}.

(** The supplementary images, as the card data of both layouts and the
    [onImageClick] of the desktop grid have them. *)
Definition vibrantColors : PortfolioImage :=
  mkImage
    "https://images.unsplash.com/photo-1730738228877-ae09a433b209?crop=entropy&cs=tinysrgb&fit=max&fm=jpg&ixid=M3w3Nzg4Nzd8MHwxfHNlYXJjaHwxfHxmZXN0aXZhbCUyMGZhY2UlMjBwYWludCUyMGJyaWdodCUyMGNvbG9yc3xlbnwxfHx8fDE3NTc1OTgyNTV8MA&ixlib=rb-4.1.0&q=80&w=1080&utm_source=figma&utm_medium=referral"
    "Festival Euphoria - bright colorful face paint at outdoor festival"
    (Some "Vibrant Colors")
    (Some "Bright colorful face paint capturing festival energy").

(** The same entry as the fourth copy of the table has it (the
    [onImageClick] of the mobile slider): another [src]. *)
Definition vibrantColorsMobileClick : PortfolioImage :=
  mkImage
    "https://images.unsplash.com/photo-1730738228877-ae09a433b209?crop=entropy&cs=tinysrgb&fit=max&fm=jpg&ixid=M3w3Nzg4Nzd8MHwxfHNlYXJjaHwxfHxmZXN0aXZhbCUyMGZhY2UlMjBwYWludCUyMGJyaWdodCUyMGNvbG9yc3hlbnwxfHx8fDE3NTc1OTgyNTV8MA&ixlib=rb-4.1.0&q=80&w=1080&utm_source=figma&utm_medium=referral"
    "Festival Euphoria - bright colorful face paint at outdoor festival"
    (Some "Vibrant Colors")
    (Some "Bright colorful face paint capturing festival energy").

Definition mohawkStyle : PortfolioImage :=
  mkImage
    "https://images.unsplash.com/photo-1747121445324-8ed1aec4b451?crop=entropy&cs=tinysrgb&fit=max&fm=jpg&ixid=M3w3Nzg4Nzd8MHwxfHNlYXJjaHwxfHxwdXJwbGUlMjBtb2hhd2slMjBmZXN0aXZhbCUyMG1ha2V1cHxlbnwxfHx8fDE3NTc1OTgyNTh8MA&ixlib=rb-4.1.0&q=80&w=1080&utm_source=figma&utm_medium=referral"
    "Festival Euphoria - purple mohawk festival style"
    (Some "Mohawk Style")
    (Some "Purple mohawk complementing the festival euphoria look").

Definition glitterDetails : PortfolioImage :=
  mkImage
    "https://images.unsplash.com/photo-1677808566807-1097fc06b472?crop=entropy&cs=tinysrgb&fit=max&fm=jpg&ixid=M3w3Nzg4Nzd8MHwxfHNlYXJjaHwxfHxnbGl0dGVyJTIwZmFjZSUyMG1ha2V1cCUyMGFydHxlbnwxfHx8fDE3NTc1OTgyNjN8MA&ixlib=rb-4.1.0&q=80&w=1080&utm_source=figma&utm_medium=referral"
    "Forest Warrior - glitter face makeup art details"
    (Some "Glitter Details")
    (Some "Close-up of glitter face makeup art creating warrior effect").

Definition fierceApplication : PortfolioImage :=
  mkImage
    "https://images.unsplash.com/photo-1730738228877-ae09a433b209?crop=entropy&cs=tinysrgb&fit=max&fm=jpg&ixid=M3w3Nzg4Nzd8MHwxfHNlYXJjaHwxfHxmZXN0aXZhbCUyMGZhY2UlMjBwYWludCUyMGJyaWdodCUyMGNvbG9yc3xlbnwxfHx8fDE3NTc1OTgyNTV8MA&ixlib=rb-4.1.0&q=80&w=1080&utm_source=figma&utm_medium=referral"
    "Forest Warrior - fierce festival makeup application"
    (Some "Fierce Application")
    (Some "Application process of the fierce forest warrior look").

(** The same entry as the fourth copy of the table has it (the
    [onImageClick] of the mobile slider): another [src]. *)
Definition fierceApplicationMobileClick : PortfolioImage :=
  mkImage
    "https://images.unsplash.com/photo-1730738228877-ae09a433b209?crop=entropy&cs=tinysrgb&fit=max&fm=jpg&ixid=M3w3Nzg4Nzd8MHwxfHNlYXJjaHwxfHxmZXN0aXZhbCUyMGZhY2UlMjBwYWludCUyMGJyaWdodCUyMGNvbG9yc3hlbnwxfHx8fDE3NTc1OTgyNTV8MA&ixlib=rb-4.1.0&q=80&w=1080&utm_source=figma&utm_medium=referral"
    "Forest Warrior - fierce festival makeup application"
    (Some "Fierce Application")
    (Some "Application process of the fierce forest warrior look").

Definition goldenArtistry : PortfolioImage :=
  mkImage
    "https://images.unsplash.com/photo-1755223736694-3863b2f81de2?crop=entropy&cs=tinysrgb&fit=max&fm=jpg&ixid=M3w3Nzg4Nzd8MHwxfHNlYXJjaHwxfHxnb2xkZW4lMjBibHVlJTIwbWFrZXVwJTIwYXJ0aXN0aWN8ZW58MXx8fHwxNzU3NTk4MjY2fDA&ixlib=rb-4.1.0&q=80&w=1080&utm_source=figma&utm_medium=referral"
    "New Year Magic - golden and blue artistic makeup"
    (Some "Golden Artistry")
    (Some "Golden and blue artistic makeup for New Year magic").

Definition forestEnergy : PortfolioImage :=
  mkImage
    "https://images.unsplash.com/photo-1677808566807-1097fc06b472?crop=entropy&cs=tinysrgb&fit=max&fm=jpg&ixid=M3w3Nzg4Nzd8MHwxfHNlYXJjaHwxfHxnbGl0dGVyJTIwZmFjZSUyMG1ha2V1cCUyMGFydHxlbnwxfHx8fDE3NTc1OTgyNjN8MA&ixlib=rb-4.1.0&q=80&w=1080&utm_source=figma&utm_medium=referral"
    "New Year Magic - contemplative forest energy details"
    (Some "Forest Energy")
    (Some "Contemplative details capturing peaceful forest energy").

(** [work.id === "featured-euphoria" ? [...] : work.id === "featured-warrior"
    ? [...] : work.id === "featured-magic" ? [...] : []] *)
Definition supplementary (workId : option string) : list PortfolioImage :=
  match workId with
  | None => []
  | Some i =>
      if String.eqb i "featured-euphoria" then [vibrantColors; mohawkStyle]
      else if String.eqb i "featured-warrior" then [glitterDetails; fierceApplication]
      else if String.eqb i "featured-magic" then [goldenArtistry; forestEnergy]
      else []
  end.

(** The fourth copy of the table. *)
Definition supplementaryMobileClick (workId : option string) : list PortfolioImage :=
  match workId with
  | None => []
  | Some i =>
      if String.eqb i "featured-euphoria" then [vibrantColorsMobileClick; mohawkStyle]
      else if String.eqb i "featured-warrior" then [glitterDetails; fierceApplicationMobileClick]
      else if String.eqb i "featured-magic" then [goldenArtistry; forestEnergy]
      else []
  end.

Inductive Layout := Desktop | Mobile.

Definition cardTable (l : Layout) : option string -> list PortfolioImage :=
  supplementary.

Definition clickTable (l : Layout) : option string -> list PortfolioImage :=
  match l with
  | Desktop => supplementary
  | Mobile => supplementaryMobileClick
  end.

(** [[...(work.images || []), ...supplementary].slice(0, 4)] *)
Definition enhance (table : option string -> list PortfolioImage) (work : Work)
    : list PortfolioImage :=
  take 4 (default [] (images work) ++ table (id work)).

(** [data={{ ...work, images: [...].slice(0, 4) }}] *)
Definition cardData (l : Layout) (work : Work) : SliderCard.CardData :=
  {| SliderCard.title := title work;
     SliderCard.description := description work;
     SliderCard.image := image work;
     SliderCard.images := Some (enhance (cardTable l) work) |}.

(** The [lightbox] state cell of the section. *)
Record LightboxState := mkLightboxState {
  isOpen : bool;
  lightboxImages : list PortfolioImage;
  currentIndex : Z;
  lightboxTitle : option string;
  lightboxDescription : option string
}.

Definition initialLightbox : LightboxState :=
  {| isOpen := false; lightboxImages := []; currentIndex := 0;
     lightboxTitle := Some EmptyString; lightboxDescription := Some EmptyString |}.

(** [setLightbox({ isOpen: true, images, currentIndex, title, description })] *)
Definition openLightbox (imgs : list PortfolioImage) (index : Z)
    (ttl descr : option string) : LightboxState :=
  {| isOpen := true; lightboxImages := imgs; currentIndex := index;
     lightboxTitle := ttl; lightboxDescription := descr |}.

(** [setLightbox({ isOpen: false, images: [], currentIndex: 0, title: "",
    description: "" })] *)
Definition closeLightbox : LightboxState := initialLightbox.

(** A template literal writes an absent value as [undefined]. *)
Definition interpolate (x : option string) : string := default "undefined" x.

(** [onImageClick={(imageIndex) => { ...; openLightbox(enhancedImages,
    imageIndex, work.title, `${work.subtitle} - ${work.description}`) }}] *)
Definition onImageClick (l : Layout) (work : Work) (imageIndex : Z) : LightboxState :=
  openLightbox (enhance (clickTable l) work) imageIndex (Some (title work))
    (Some (String.append (interpolate (subtitle work))
             (String.append " - " (description work)))).

(** The props of [<EnhancedLightbox ... />]. *)
Definition lightboxProps (s : LightboxState) : EnhancedLightbox.Props :=
  {| EnhancedLightbox.isOpen := isOpen s;
     EnhancedLightbox.images := lightboxImages s;
     EnhancedLightbox.currentIndex := currentIndex s;
     EnhancedLightbox.title := lightboxTitle s;
     EnhancedLightbox.description := lightboxDescription s |}.

End FeaturedSection.

(** ** lightbox.tsx, the single-image lightbox *)

Module SimpleLightbox.

(** The props; [onClose] is the identity of the callback. *)
Record Props := mkProps {
  isOpen : bool;
  onClose : nat;
  imageSrc : string;
  imageAlt : string;
  title : option string;
  description : option string
}.

Record Document := mkDocument {
  bodyOverflow : string;
  keydownListener : bool
}.

(** [handleEscape]: [if (e.key === "Escape") onClose();], as the number of
    [onClose] calls. The handler does not look at [isOpen]. *)
Definition handleEscape (key : string) : nat :=
  if String.eqb key "Escape" then 1%nat else 0%nat.

(** Effect [[isOpen]]. *)
Definition scrollEffect (p : Props) (d : Document) : Document :=
  {| bodyOverflow := if isOpen p then "hidden" else "unset";
     keydownListener := keydownListener d |}.

(** Effect [[isOpen, onClose]]: clean-up, then [if (isOpen)
    document.addEventListener("keydown", handleEscape)]. *)
Definition keyboardEffect (p : Props) (d : Document) : Document :=
  {| bodyOverflow := bodyOverflow d;
     keydownListener := isOpen p |}.

Definition mount (p : Props) : Document :=
  keyboardEffect p (scrollEffect p {| bodyOverflow := "unset"; keydownListener := false |}).

Definition commit (p p' : Props) (d : Document) : Document :=
  let openChanged := negb (Bool.eqb (isOpen p) (isOpen p')) in
  let d1 := if openChanged then scrollEffect p' d else d in
  if openChanged || negb (Nat.eqb (onClose p) (onClose p')) then keyboardEffect p' d1 else d1.

(** The component after its owner rendered it with each of [ps] in turn. *)
Fixpoint rerenders (p : Props) (d : Document) (ps : list Props) : Props * Document :=
  match ps with
  | [] => (p, d)
  | p' :: rest => rerenders p' (commit p p' d) rest
  end.

(** The [onClose] calls a [keydown] on the document leads to. *)
Definition documentKeyDown (d : Document) (key : string) : nat :=
  if keydownListener d then handleEscape key else 0%nat.

(** [if (!isOpen) return null;] then the image. *)
Definition render (p : Props) : option (string * string) :=
  if negb (isOpen p) then None else Some (imageSrc p, imageAlt p).

End SimpleLightbox.

(** ** emailService.ts *)

Module EmailService.

Local Open Scope N_scope.

(** A JavaScript string: its UTF-16 code units. *)
Definition JsString : Type := list N.

(** An ASCII literal of the source as a JavaScript string. *)
Definition lit (s : string) : JsString :=
  map Ascii.N_of_ascii (String.list_ascii_of_string s).

(** The code units [\s] matches and [trim] removes: the white space and
    line terminator characters of ECMAScript. *)
Definition isWhiteSpace (c : N) : bool :=
  ((9 <=? c) && (c <=? 13)) || (c =? 32) || (c =? 160) || (c =? 5760)
  || ((8192 <=? c) && (c <=? 8202)) || (c =? 8232) || (c =? 8233)
  || (c =? 8239) || (c =? 8287) || (c =? 12288) || (c =? 65279).

Fixpoint trimStart (s : JsString) : JsString :=
  match s with
  | [] => []
  | c :: s' => if isWhiteSpace c then trimStart s' else s
  end.

Definition trimEnd (s : JsString) : JsString := rev (trimStart (rev s)).

(** [s.trim()] *)
Definition trim (s : JsString) : JsString := trimEnd (trimStart s).

(** [!s?.trim()]: the trimmed string is empty. *)
Definition blank (s : JsString) : bool :=
  match trim s with
  | [] => true
  | _ => false
  end.

(** The regular expressions the file needs: a character class, a class
    repeated one or more times ([+]), a sequence. *)
Inductive Regex :=
| Class (member : N -> bool)
| PlusClass (member : N -> bool)
| Seq (r1 r2 : Regex).

(** The strings an expression matches. *)
Inductive Matches : Regex -> JsString -> Prop :=
| MatchesClass (member : N -> bool) (c : N) :
    member c = true -> Matches (Class member) [c]
| MatchesPlusOne (member : N -> bool) (c : N) :
    member c = true -> Matches (PlusClass member) [c]
| MatchesPlusMore (member : N -> bool) (c : N) (s : JsString) :
    member c = true -> Matches (PlusClass member) s -> Matches (PlusClass member) (c :: s)
| MatchesSeq (r1 r2 : Regex) (s1 s2 : JsString) :
    Matches r1 s1 -> Matches r2 s2 -> Matches (Seq r1 r2) (s1 ++ s2).

(** A backtracking matcher: [k] is what must match the rest. A repeated
    class first tries to take one more character, then to stop. *)
Fixpoint matchPlus (member : N -> bool) (k : JsString -> bool) (s : JsString) : bool :=
  match s with
  | [] => false
  | c :: s' => member c && (matchPlus member k s' || k s')
  end.

Fixpoint matchFrom (r : Regex) (k : JsString -> bool) (s : JsString) : bool :=
  match r with
  | Class member =>
      match s with
      | [] => false
      | c :: s' => member c && k s'
      end
  | PlusClass member => matchPlus member k s
  | Seq r1 r2 => matchFrom r1 (matchFrom r2 k) s
  end.

Definition atEnd (s : JsString) : bool :=
  match s with
  | [] => true
  | _ => false
  end.

(** [/^r$/.test(s)]: the expression between the two anchors must match
    the whole string. *)
Definition test (r : Regex) (s : JsString) : bool := matchFrom r atEnd s.

(** [[^\s@]] *)
Definition notSpaceNorAt (c : N) : bool := negb (isWhiteSpace c || (c =? 64)).

Definition isAt (c : N) : bool := c =? 64.
Definition isDot (c : N) : bool := c =? 46.

(** [/^[^\s@]+@[^\s@]+\.[^\s@]+$/] *)
Definition emailRegex : Regex :=
  Seq (PlusClass notSpaceNorAt)
      (Seq (Class isAt)
           (Seq (PlusClass notSpaceNorAt)
                (Seq (Class isDot) (PlusClass notSpaceNorAt)))).

(** [interface ContactFormData] *)
Record ContactFormData := mkFormData {
  name : JsString;
  email : JsString;
  message : JsString
}.

(** [interface EmailServiceResponse]; [responseMessage] is its [message]. *)
Record EmailServiceResponse := mkResponse {
  success : bool;
  responseMessage : string;
  error : option string
}.

(** [const EMAILJS_CONFIG] *)
Record Config := mkConfig {
  serviceId : string;
  templateId : string;
  autoReplyTemplateId : string;
  publicKey : string
}.

Definition EMAILJS_CONFIG : Config :=
  {| serviceId := "service_ash_shaw_makeup";
     templateId := "template_contact_form";
     autoReplyTemplateId := "template_auto_reply";
     publicKey := "your_emailjs_public_key" |}.

(** One call of [emailjs.send(serviceId, templateId, params, publicKey)];
    the template parameters are in the order of the source. *)
Record Email := mkEmail {
  service : string;
  template : string;
  params : list (string * JsString);
  key : string
}.

(** What [emailjs.send] can do: resolve, or reject with an [Error] that
    has a message, or with some other value. *)
Inductive Thrown :=
| ThrownError (errorText : string)
| ThrownOther.

Inductive SendResult :=
| Sent
| Rejected (e : Thrown).

(** [hay.includes(needle)] *)
Fixpoint includes (needle hay : string) : bool :=
  String.prefix needle hay
  || match hay with
     | EmptyString => false
     | String _ rest => includes needle rest
     end.

(** The message chosen in the [catch] block. *)
Definition failureMessage (e : Thrown) : string :=
  match e with
  | ThrownError text =>
      if includes "network" text
      then "Network error. Please check your connection and try again."
      else if includes "template" text
      then "Email configuration error. Please contact support."
      else if includes "limit" text
      then "Email limit reached. Please try again later."
      else "Failed to send message. Please try again."
  | ThrownOther => "Failed to send message. Please try again."
  end.

(** [error instanceof Error ? error.message : 'Unknown error'] *)
Definition failureError (e : Thrown) : string :=
  match e with
  | ThrownError text => text
  | ThrownOther => "Unknown error"
  end.

(** The notification to the artist. [now] is [new Date().toLocaleString()]. *)
Definition notification (cfg : Config) (now : JsString) (formData : ContactFormData) : Email :=
  {| service := serviceId cfg;
     template := templateId cfg;
     key := publicKey cfg;
     params :=
       [ ("from_name", name formData);
         ("from_email", email formData);
         ("message", message formData);
         ("to_email", lit "hello@ashshaw.makeup");
         ("reply_to", email formData);
         ("subject", lit "New Contact Form Submission from " ++ name formData);
         ("website_source", lit "makeup-by-ashshaw.netlify.app");
         ("submission_time", now) ] |}.

(** The confirmation to the sender. *)
Definition autoReply (cfg : Config) (formData : ContactFormData) : Email :=
  {| service := serviceId cfg;
     template := autoReplyTemplateId cfg;
     key := publicKey cfg;
     params :=
       [ ("to_name", name formData);
         ("to_email", email formData);
         ("from_name", lit "Ash Shaw");
         ("website_url", lit "https://makeup-by-ashshaw.netlify.app");
         ("portfolio_url", lit "https://makeup-by-ashshaw.netlify.app/portfolio");
         ("about_url", lit "https://makeup-by-ashshaw.netlify.app/about") ] |}.

Definition successResponse : EmailServiceResponse :=
  {| success := true;
     responseMessage :=
       "Message sent successfully! You should receive a confirmation email shortly.";
     error := None |}.

(** [sendContactForm]: the response, and the [emailjs.send] calls made, in
    order. [send] answers each call. *)
Definition sendContactForm (cfg : Config) (send : Email -> SendResult) (now : JsString)
    (formData : ContactFormData) : EmailServiceResponse * list Email :=
  if blank (name formData) || blank (email formData) || blank (message formData) then
    ({| success := false;
        responseMessage := "Please fill in all required fields.";
        error := Some "Missing required form fields" |}, [])
  else if negb (test emailRegex (email formData)) then
    ({| success := false;
        responseMessage := "Please enter a valid email address.";
        error := Some "Invalid email format" |}, [])
  else
    match send (notification cfg now formData) with
    | Rejected e =>
        ({| success := false;
            responseMessage := failureMessage e;
            error := Some (failureError e) |},
         [notification cfg now formData])
    | Sent =>
        (successResponse, [notification cfg now formData; autoReply cfg formData])
    end.

(** [validateEmailJSConfig], on a configuration. *)
Definition validateEmailJSConfig (cfg : Config) : bool :=
  negb (String.eqb (serviceId cfg) "service_ash_shaw_makeup")
  && negb (String.eqb (templateId cfg) "template_contact_form")
  && negb (String.eqb (autoReplyTemplateId cfg) "template_auto_reply")
  && negb (String.eqb (publicKey cfg) "your_emailjs_public_key")
  && (0 <? String.length (serviceId cfg))%nat
  && (0 <? String.length (templateId cfg))%nat
  && (0 <? String.length (publicKey cfg))%nat.

(** [sendContactFormDemo]: nothing is sent. *)
Definition sendContactFormDemo (formData : ContactFormData)
    : EmailServiceResponse * list Email :=
  (successResponse, []).

(** An address of the shape the expression asks for: a local part, one
    [@], and a domain with a dot inside it, all without white space. *)
Definition emailShape (s : JsString) : Prop :=
  exists localPart domain tld : JsString,
    s = localPart ++ [64%N] ++ domain ++ [46%N] ++ tld
    /\ localPart <> [] /\ domain <> [] /\ tld <> []
    /\ Forall (fun c => notSpaceNorAt c = true) (localPart ++ domain ++ tld).

(** A string with a character that is not white space. *)
Definition hasText (s : JsString) : Prop :=
  Exists (fun c => isWhiteSpace c = false) s.

End EmailService.

(** ** The contact form that sends through the e-mail service *)

Module ContactForm.

Import EmailService.

(** The five state cells. *)
Record State := mkState {
  formData : ContactFormData;
  isSubmitting : bool;
  isSubmitted : bool;
  submitError : option string;
  isEmailJSConfigured : bool
}.

Definition emptyForm : ContactFormData := mkFormData [] [] [].

(** The [useState] initial values. *)
Definition initialState : State :=
  {| formData := emptyForm; isSubmitting := false; isSubmitted := false;
     submitError := None; isEmailJSConfigured := false |}.

(** The mount effect: [setIsEmailJSConfigured(validateEmailJSConfig())]. *)
Definition mount (cfg : Config) : State :=
  {| formData := emptyForm; isSubmitting := false; isSubmitted := false;
     submitError := None; isEmailJSConfigured := validateEmailJSConfig cfg |}.

(** The three inputs bound to [handleChange], by their [name]. *)
Inductive Field := NameField | EmailField | MessageField.

(** [{ ...formData, [e.target.name]: e.target.value }] *)
Definition setField (f : Field) (value : JsString) (d : ContactFormData) : ContactFormData :=
  match f with
  | NameField => mkFormData value (email d) (message d)
  | EmailField => mkFormData (name d) value (message d)
  | MessageField => mkFormData (name d) (email d) value
  end.

(** [handleChange]: [if (submitError) setSubmitError(null)]. *)
Definition handleChange (f : Field) (value : JsString) (st : State) : State :=
  {| formData := setField f value (formData st);
     isSubmitting := isSubmitting st;
     isSubmitted := isSubmitted st;
     submitError := if truthyString (submitError st) then None else submitError st;
     isEmailJSConfigured := isEmailJSConfigured st |}.

(** [handleSubmit], from the click to the end of the [finally] block: the
    state reached, the [emailjs.send] calls made and the number of reset
    timers started. *)
Definition handleSubmit (cfg : Config) (send : Email -> SendResult) (now : JsString)
    (st : State) : State * list Email * nat :=
  let d := formData st in
  if blank (name d) || blank (email d) || blank (message d) then
    ({| formData := d; isSubmitting := isSubmitting st; isSubmitted := isSubmitted st;
        submitError := Some "Please fill in all fields";
        isEmailJSConfigured := isEmailJSConfigured st |}, [], 0%nat)
  else
    let '(result, sent) :=
      if isEmailJSConfigured st then sendContactForm cfg send now d
      else sendContactFormDemo d in
    if success result then
      ({| formData := d; isSubmitting := false; isSubmitted := true;
          submitError := None;
          isEmailJSConfigured := isEmailJSConfigured st |}, sent, 1%nat)
    else
      ({| formData := d; isSubmitting := false; isSubmitted := isSubmitted st;
          submitError :=
            orString (Some (responseMessage result))
                     (Some "Failed to send message. Please try again.");
          isEmailJSConfigured := isEmailJSConfigured st |}, sent, 0%nat).

(** The reset timer fires, 8 seconds after a success. *)
Definition resetTimer (st : State) : State :=
  {| formData := emptyForm; isSubmitting := isSubmitting st; isSubmitted := false;
     submitError := None; isEmailJSConfigured := isEmailJSConfigured st |}.

End ContactForm.

(** Two images that differ at most in their source. *)
Definition sameText (x y : PortfolioImage) : Prop :=
  alt x = alt y /\ caption x = caption y /\ description x = description y.

(** * Properties *)

Module PL := PortfolioLightbox.
Module PC := PortfolioCard.
Module SC := SliderCard.
Module MA := MosaicApp.
Module FS := FeaturedSection.
Module ES := EmailService.
Module CF := ContactForm.
Module SL := SimpleLightbox.

(** ** Indices of a list *)

Lemma len_pos {A : Type} (xs : list A) : xs <> [] -> 0 < len xs.
Proof. destruct xs as [|x xs']; [congruence|]. intros _. unfold len. simpl. lia. Qed.

Lemma at_index_None {A : Type} (xs : list A) (i : Z) :
  at_index xs i = None <-> ~ inRange (len xs) i.
Proof.
  unfold at_index, inRange, len.
  destruct (decide (0 <= i)) as [Hi|Hi].
  - rewrite lookup_ge_None. lia.
  - split; [lia | reflexivity].
Qed.

(** ** Next and Previous on the index *)

Section Navigation.

Variable imgs : list PortfolioImage.

Lemma goToNext_index (s : PL.State) :
  inRange (len imgs) (PL.currentIndex s) ->
  PL.currentIndex (PL.goToNext imgs s) = (PL.currentIndex s + 1) mod len imgs.
Proof.
  unfold inRange. intros Hr. simpl.
  destruct (Z.eqb_spec (PL.currentIndex s) (len imgs - 1)) as [E|E].
  - replace (PL.currentIndex s + 1) with (len imgs) by lia.
    symmetry. apply Z_mod_same_full.
  - symmetry. apply Z.mod_small. lia.
Qed.

Lemma goToNext_inRange (s : PL.State) :
  inRange (len imgs) (PL.currentIndex s) ->
  inRange (len imgs) (PL.currentIndex (PL.goToNext imgs s)).
Proof.
  unfold inRange. intros Hr. simpl.
  destruct (Z.eqb_spec (PL.currentIndex s) (len imgs - 1)); lia.
Qed.

Lemma goToPrevious_inRange (s : PL.State) :
  inRange (len imgs) (PL.currentIndex s) ->
  inRange (len imgs) (PL.currentIndex (PL.goToPrevious imgs s)).
Proof.
  unfold inRange. intros Hr. simpl.
  destruct (Z.eqb_spec (PL.currentIndex s) 0); lia.
Qed.

(** [k] presses of Next move the index [k] places round the cycle. *)
Lemma iter_goToNext_index (k : nat) (s : PL.State) :
  inRange (len imgs) (PL.currentIndex s) ->
  PL.currentIndex (Nat.iter k (PL.goToNext imgs) s)
  = (PL.currentIndex s + Z.of_nat k) mod len imgs
  /\ inRange (len imgs) (PL.currentIndex (Nat.iter k (PL.goToNext imgs) s)).
Proof.
  intros Hr. induction k as [|k [IHeq IHr]].
  - simpl. split; [|exact Hr].
    rewrite Z.add_0_r. symmetry. apply Z.mod_small. exact Hr.
  - change (Nat.iter (S k) (PL.goToNext imgs) s)
      with (PL.goToNext imgs (Nat.iter k (PL.goToNext imgs) s)).
    split; [|apply goToNext_inRange; exact IHr].
    rewrite goToNext_index by exact IHr.
    rewrite IHeq, Nat2Z.inj_succ.
    assert (Hn : len imgs <> 0) by (unfold inRange in Hr; lia).
    rewrite Zplus_mod_idemp_l. f_equal. lia.
Qed.

End Navigation.

(** ** The component body *)

Lemma len_nonneg {A : Type} (xs : list A) : 0 <= len xs.
Proof. unfold len. lia. Qed.

Lemma at_index_Some {A : Type} (xs : list A) (i : Z) (x : A) :
  at_index xs i = Some x -> inRange (len xs) i.
Proof.
  unfold at_index, inRange, len.
  destruct (decide (0 <= i)) as [Hi|Hi]; [|discriminate].
  intros H. apply lookup_lt_Some in H. lia.
Qed.

(** The body throws exactly when the lightbox is open over a non-empty
    image set and the current index is not one of its positions. *)
Lemma throws_true (p : PL.Props) (s : PL.State) :
  PL.throws p s = true <->
  PL.isOpen p = true /\ 0 < len (PL.images p)
  /\ ~ inRange (len (PL.images p)) (PL.currentIndex s).
Proof.
  unfold PL.throws, PL.render.
  destruct (PL.isOpen p); cbn [negb orb].
  - destruct (Z.eqb_spec (len (PL.images p)) 0) as [E|E].
    + split; [discriminate | intros (_ & H & _); lia].
    + destruct (at_index (PL.images p) (PL.currentIndex s)) as [image|] eqn:Ei.
      * split; [discriminate|]. intros (_ & _ & Hn).
        exfalso. apply Hn. exact (at_index_Some _ _ _ Ei).
      * split; [|reflexivity]. intros _. split; [reflexivity|]. split.
        -- pose proof (len_nonneg (PL.images p)). lia.
        -- apply at_index_None. exact Ei.
  - split; [discriminate | intros (H & _); discriminate].
Qed.

Lemma throws_false (p : PL.Props) (s : PL.State) :
  PL.throws p s = false <->
  (PL.isOpen p = true -> 0 < len (PL.images p) ->
   inRange (len (PL.images p)) (PL.currentIndex s)).
Proof.
  split.
  - intros Hf Hopen Hn.
    destruct (decide (inRange (len (PL.images p)) (PL.currentIndex s))) as [Hr|Hr];
      [exact Hr|].
    assert (Ht : PL.throws p s = true) by (apply throws_true; auto).
    congruence.
  - intros H. destruct (PL.throws p s) eqn:E; [|reflexivity].
    apply throws_true in E as (Hopen & Hn & Hr). exfalso. apply Hr. auto.
Qed.

(** The body reads the state only through the current index. *)
Lemma throws_same_index (p : PL.Props) (s s' : PL.State) :
  PL.currentIndex s = PL.currentIndex s' -> PL.throws p s = PL.throws p s'.
Proof. unfold PL.throws, PL.render. intros ->. reflexivity. Qed.

Lemma throws_closed (p : PL.Props) (s : PL.State) :
  PL.isOpen p = false -> PL.throws p s = false.
Proof. intros H. apply throws_false. congruence. Qed.

(** What the body returns when it does not throw. *)
Lemma render_image (p : PL.Props) (s : PL.State) :
  PL.isOpen p = true -> PL.images p <> [] -> PL.throws p s = false ->
  exists image : PortfolioImage,
    at_index (PL.images p) (PL.currentIndex s) = Some image
    /\ PL.render p s = PL.RenderImage (src image) (alt image).
Proof.
  intros Hopen Hne. unfold PL.throws, PL.render. rewrite Hopen. cbn [negb orb].
  pose proof (len_pos _ Hne) as Hpos.
  destruct (Z.eqb_spec (len (PL.images p)) 0); [lia|].
  destruct (at_index (PL.images p) (PL.currentIndex s)) as [image|];
    [|discriminate].
  intros _. exists image. split; reflexivity.
Qed.

Lemma render_image_inv (p : PL.Props) (s : PL.State) (a b : string) :
  PL.render p s = PL.RenderImage a b ->
  PL.isOpen p = true /\ inRange (len (PL.images p)) (PL.currentIndex s).
Proof.
  unfold PL.render. destruct (PL.isOpen p); cbn [negb orb]; [|discriminate].
  destruct (len (PL.images p) =? 0); [discriminate|].
  destruct (at_index (PL.images p) (PL.currentIndex s)) as [image|] eqn:E;
    [|discriminate].
  intros _. split; [reflexivity|]. exact (at_index_Some _ _ _ E).
Qed.

(** ** Renders and their effects *)

Section Commit.

Variables (p' : PL.Props) (s' : PL.State) (c : PL.Lightbox).

Lemma runEffects_props : PL.props (PL.runEffects p' s' c) = p'.
Proof. reflexivity. Qed.

Lemma runEffects_index :
  PL.currentIndex (PL.state (PL.runEffects p' s' c))
  = if PL.initialIndex (PL.props c) =? PL.initialIndex p'
    then PL.currentIndex s' else PL.initialIndex p'.
Proof.
  unfold PL.runEffects. cbn [PL.state].
  destruct (PL.initialIndex (PL.props c) =? PL.initialIndex p'); cbn [negb];
    destruct (PL.openChanged (PL.props c) p'); unfold PL.scrollEffectState;
    destruct (PL.isOpen p'); reflexivity.
Qed.

Lemma runEffects_zoom :
  PL.isOpen p' = true ->
  PL.isZoomed (PL.state (PL.runEffects p' s' c)) = PL.isZoomed s'
  /\ PL.showThumbnails (PL.state (PL.runEffects p' s' c)) = PL.showThumbnails s'.
Proof.
  intros Hopen. unfold PL.runEffects. cbn [PL.state].
  unfold PL.scrollEffectState. rewrite Hopen.
  destruct (negb (PL.initialIndex (PL.props c) =? PL.initialIndex p'));
    destruct (PL.openChanged (PL.props c) p'); split; reflexivity.
Qed.

Lemma runEffects_listeners :
  PL.listenersMatch c -> PL.listenersMatch (PL.runEffects p' s' c).
Proof.
  unfold PL.listenersMatch. intros [Hk Ht].
  unfold PL.runEffects. cbn [PL.document PL.props].
  unfold PL.keyboardDepsChanged, PL.touchDepsChanged.
  assert (Ho : PL.openChanged (PL.props c) p' = false ->
               PL.isOpen (PL.props c) = PL.isOpen p').
  { unfold PL.openChanged.
    destruct (PL.isOpen (PL.props c)), (PL.isOpen p'); simpl; congruence. }
  destruct (PL.openChanged (PL.props c) p') eqn:Eo; cbn [orb];
    [| specialize (Ho eq_refl) ].
  - split; reflexivity.
  - destruct (PL.lengthChanged (PL.props c) p'); cbn [orb];
      repeat match goal with
             | |- context [if ?b then _ else _] => destruct b
             end; cbn; split; congruence.
Qed.

Lemma runEffects_scroll :
  PL.scrollMatches c -> PL.scrollMatches (PL.runEffects p' s' c).
Proof.
  unfold PL.scrollMatches, PL.runEffects. cbn [PL.document PL.props]. intros Hs.
  assert (Hb : forall (b : bool) (d : PL.Document),
             PL.bodyOverflow (if b then PL.keyboardEffect p' d else d)
             = PL.bodyOverflow d) by (intros [] d; reflexivity).
  assert (Ht : forall (b : bool) (d : PL.Document),
             PL.bodyOverflow (if b then PL.touchEffect p' d else d)
             = PL.bodyOverflow d) by (intros [] d; reflexivity).
  rewrite Ht, Hb.
  unfold PL.openChanged, PL.scrollEffectDocument.
  destruct (PL.isOpen (PL.props c)), (PL.isOpen p'); cbn in *;
    try reflexivity; exact Hs.
Qed.

(** What a render of a mounted component leaves, case by case. *)
Lemma commit_cases :
  PL.mounted c = true ->
  (PL.throws p' s' = true
   /\ PL.commit p' s' c
      = PL.unmount (PL.mkLightbox true p' s' (PL.vars c) (PL.document c)))
  \/ (PL.throws p' s' = false
      /\ PL.throws p' (PL.state (PL.runEffects p' s' c)) = true
      /\ PL.commit p' s' c = PL.unmount (PL.runEffects p' s' c))
  \/ (PL.throws p' s' = false
      /\ PL.throws p' (PL.state (PL.runEffects p' s' c)) = false
      /\ PL.mounted (PL.commit p' s' c) = true
      /\ PL.props (PL.commit p' s' c) = p'
      /\ PL.state (PL.commit p' s' c) = PL.state (PL.runEffects p' s' c)
      /\ PL.vars (PL.commit p' s' c) = PL.vars (PL.runEffects p' s' c)
      /\ PL.bodyOverflow (PL.document (PL.commit p' s' c))
         = PL.bodyOverflow (PL.document (PL.runEffects p' s' c))
      /\ (PL.listenersMatch (PL.runEffects p' s' c) ->
          PL.listenersMatch (PL.commit p' s' c))).
Proof.
  intros Hm. unfold PL.commit. rewrite Hm. cbn [negb].
  destruct (PL.throws p' s') eqn:E1; [left; split; reflexivity|].
  right. unfold PL.settle. rewrite runEffects_props.
  destruct (PL.throws p' (PL.state (PL.runEffects p' s' c))) eqn:E2.
  - left. repeat split.
  - right. cbn [PL.mounted PL.props PL.state PL.vars PL.document].
    repeat split.
    + destruct (PL.keyboardDepsChanged _ _ _ _); reflexivity.
    + destruct H as [Hk Ht]. rewrite runEffects_props in Hk.
      destruct (PL.keyboardDepsChanged _ _ _ _); cbn; [reflexivity|exact Hk].
    + destruct H as [Hk Ht]. rewrite runEffects_props in Ht.
      destruct (PL.keyboardDepsChanged _ _ _ _); cbn; exact Ht.
Qed.

Lemma commit_props : PL.mounted c = true -> PL.props (PL.commit p' s' c) = p'.
Proof.
  intros Hm.
  destruct (commit_cases Hm) as [(_ & ->)|[(_ & _ & ->)|(_ & _ & _ & H & _)]];
    [reflexivity|reflexivity|exact H].
Qed.

Lemma commit_state :
  PL.mounted c = true ->
  PL.state (PL.commit p' s' c)
  = if PL.throws p' s' then s' else PL.state (PL.runEffects p' s' c).
Proof.
  intros Hm.
  destruct (commit_cases Hm) as [(E & ->)|[(E & _ & ->)|(E & _ & _ & _ & H & _)]];
    rewrite E; [reflexivity|reflexivity|exact H].
Qed.

Lemma commit_mounted :
  PL.mounted c = true ->
  PL.mounted (PL.commit p' s' c)
  = negb (PL.throws p' s') && negb (PL.throws p' (PL.state (PL.runEffects p' s' c))).
Proof.
  intros Hm.
  destruct (commit_cases Hm) as [(E & ->)|[(E & E2 & ->)|(E & E2 & H & _)]];
    rewrite E, ?E2; [reflexivity|reflexivity|exact H].
Qed.

Lemma commit_consistent :
  PL.consistent c -> PL.consistent (PL.commit p' s' c).
Proof.
  intros Hc. destruct (PL.mounted c) eqn:Hm.
  - unfold PL.consistent in Hc. rewrite Hm in Hc. destruct Hc as (_ & Hl & Hs).
    destruct (commit_cases Hm)
      as [(E & ->)|[(E & E2 & ->)|(E & E2 & Hm' & Hp & Hst & _ & Ho & Hl')]].
    + unfold PL.consistent. cbn. split; [exact E|]. repeat split. discriminate.
    + unfold PL.consistent. cbn [PL.unmount PL.mounted PL.props PL.state PL.document].
      split; [exact E2|]. repeat split. discriminate.
    + unfold PL.consistent. rewrite Hm', Hp, Hst. split; [exact E2|]. split.
      * apply Hl'. apply runEffects_listeners. exact Hl.
      * unfold PL.scrollMatches. rewrite Ho, Hp.
        pose proof (runEffects_scroll Hs) as Hs'. unfold PL.scrollMatches in Hs'.
        rewrite runEffects_props in Hs'. exact Hs'.
  - unfold PL.commit. rewrite Hm. exact Hc.
Qed.

End Commit.

(** A render with the props the component has leaves the state it was
    given, whether the body throws or not. *)
Lemma runEffects_same_props (s' : PL.State) (c : PL.Lightbox) :
  PL.state (PL.runEffects (PL.props c) s' c) = s'.
Proof.
  unfold PL.runEffects. cbn [PL.state]. rewrite Z.eqb_refl. cbn [negb].
  unfold PL.openChanged. rewrite eqb_reflx. reflexivity.
Qed.

Lemma commit_same_props_state (s' : PL.State) (c : PL.Lightbox) :
  PL.mounted c = true ->
  PL.state (PL.commit (PL.props c) s' c) = s'.
Proof.
  intros Hm. rewrite commit_state by exact Hm. rewrite runEffects_same_props.
  destruct (PL.throws (PL.props c) s'); reflexivity.
Qed.

Lemma commit_same_props_mounted (s' : PL.State) (c : PL.Lightbox) :
  PL.mounted c = true ->
  PL.mounted (PL.commit (PL.props c) s' c) = negb (PL.throws (PL.props c) s').
Proof.
  intros Hm. rewrite commit_mounted by exact Hm. rewrite runEffects_same_props.
  destruct (PL.throws (PL.props c) s'); reflexivity.
Qed.

Lemma mountIn_consistent (d : PL.Document) (p : PL.Props) :
  PL.atRest d -> PL.consistent (PL.mountIn d p).
Proof.
  intros Hd. unfold PL.consistent, PL.mountIn.
  destruct (PL.throws p _) eqn:E; cbn [PL.mounted PL.props PL.state PL.document].
  - split; [exact E|exact Hd].
  - split; [|split; [split; reflexivity|reflexivity]].
    rewrite <- E. apply throws_same_index.
    unfold PL.scrollEffectState. destruct (PL.isOpen p); reflexivity.
Qed.

Lemma mount_consistent (p : PL.Props) : PL.consistent (PL.mount p).
Proof. apply mountIn_consistent. repeat split. discriminate. Qed.

(** ** What holds after every series of events *)

Lemma performAll_app (imgs : list PortfolioImage) (cs ds : list PL.Call) (s : PL.State) :
  PL.performAll imgs (cs ++ ds) s = PL.performAll imgs ds (PL.performAll imgs cs s).
Proof. unfold PL.performAll. apply fold_left_app. Qed.

Section SafeCalls.

Variable imgs : list PortfolioImage.

Lemma perform_safe (call : PL.Call) (s : PL.State) :
  PL.safeCall (len imgs) call ->
  inRange (len imgs) (PL.currentIndex s) ->
  inRange (len imgs) (PL.currentIndex (PL.perform imgs call s)).
Proof.
  intros Hc Hs. destruct call; cbn [PL.perform]; try exact Hs.
  - apply goToPrevious_inRange; exact Hs.
  - apply goToNext_inRange; exact Hs.
  - exact Hc.
Qed.

Lemma performAll_safe (cs : list PL.Call) (s : PL.State) :
  Forall (PL.safeCall (len imgs)) cs ->
  inRange (len imgs) (PL.currentIndex s) ->
  inRange (len imgs) (PL.currentIndex (PL.performAll imgs cs s)).
Proof.
  intros Hcs. revert s. induction Hcs as [|call cs Hcall _ IH]; intros s Hs.
  - exact Hs.
  - unfold PL.performAll. cbn [fold_left]. apply IH. apply perform_safe; assumption.
Qed.

End SafeCalls.

Lemma handleKeyDown_safe (n : Z) (open : bool) (key : string) :
  Forall (PL.safeCall n) (PL.handleKeyDown open key).
Proof.
  unfold PL.handleKeyDown.
  repeat match goal with
         | |- context [if ?b then _ else _] => destruct b
         end; repeat constructor.
Qed.

Lemma touchGesture_safe (n startX endX : Z) (v : PL.TouchVars) :
  Forall (PL.safeCall n) (PL.touchGesture startX endX v).
Proof.
  unfold PL.touchGesture, PL.handleTouchEnd.
  repeat match goal with
         | |- context [if ?b then _ else _] => destruct b
         end; repeat constructor.
Qed.

(** What can be clicked is on the screen, and a thumbnail is there only
    for a position of the image set. *)
Lemma clickable_shown (c : PL.Lightbox) (call : PL.Call) :
  PL.clickable c call = true ->
  PL.mounted c = true /\ PL.isOpen (PL.props c) = true
  /\ inRange (len (PL.images (PL.props c))) (PL.currentIndex (PL.state c)).
Proof.
  unfold PL.clickable. intros H. apply andb_prop in H as [Hm H].
  split; [exact Hm|].
  destruct (PL.render (PL.props c) (PL.state c)) as [|a b|] eqn:E; try discriminate.
  exact (render_image_inv _ _ _ _ E).
Qed.

Lemma clickable_safe (c : PL.Lightbox) (call : PL.Call) :
  PL.clickable c call = true ->
  PL.safeCall (len (PL.images (PL.props c))) call.
Proof.
  unfold PL.clickable. intros H. apply andb_prop in H as [_ H].
  destruct (PL.render (PL.props c) (PL.state c)); try discriminate.
  destruct call; cbn; trivial.
  apply andb_prop in H as [H Hhi]. apply andb_prop in H as [_ Hlo].
  unfold inRange. lia.
Qed.

(** Calls that keep the index in range never make the body throw. *)
Lemma safe_calls_do_not_throw (cs : list PL.Call) (c : PL.Lightbox) :
  Forall (PL.safeCall (len (PL.images (PL.props c)))) cs ->
  PL.throws (PL.props c) (PL.state c) = false ->
  PL.throws (PL.props c) (PL.performAll (PL.images (PL.props c)) cs (PL.state c)) = false.
Proof.
  intros Hcs Hc. apply throws_false. intros Hopen Hn.
  apply performAll_safe; [exact Hcs|].
  apply (proj1 (throws_false _ _) Hc); assumption.
Qed.

Lemma afterCalls_consistent (cs : list PL.Call) (c : PL.Lightbox) :
  PL.consistent c -> PL.consistent (PL.afterCalls cs c).
Proof. apply commit_consistent. Qed.

Lemma afterCalls_mounted (cs : list PL.Call) (c : PL.Lightbox) :
  Forall (PL.safeCall (len (PL.images (PL.props c)))) cs ->
  PL.consistent c -> PL.mounted c = true ->
  PL.mounted (PL.afterCalls cs c) = true.
Proof.
  intros Hcs Hc Hm. unfold PL.afterCalls.
  rewrite commit_same_props_mounted by exact Hm.
  unfold PL.consistent in Hc. rewrite Hm in Hc. destruct Hc as (Hok & _).
  rewrite (safe_calls_do_not_throw cs c Hcs Hok). reflexivity.
Qed.

Lemma dispatchTouch_consistent (startX endX : Z) (c : PL.Lightbox) :
  PL.consistent c -> PL.consistent (PL.dispatchTouch startX endX c).
Proof.
  intros Hc. unfold PL.dispatchTouch.
  destruct (PL.touchListeners (PL.document c)); [|exact Hc].
  exact (afterCalls_consistent (PL.touchGesture startX endX (PL.vars c)) c Hc).
Qed.

Lemma step_consistent (e : PL.Event) (c : PL.Lightbox) :
  PL.consistent c -> PL.consistent (PL.step e c).
Proof.
  intros Hc. destruct e as [key|startX endX|call|p']; cbn [PL.step].
  - unfold PL.dispatchKeyDown.
    destruct (PL.keydownListener (PL.document c)); [|exact Hc].
    apply afterCalls_consistent; exact Hc.
  - apply dispatchTouch_consistent; exact Hc.
  - unfold PL.click. destruct (PL.clickable c call); [|exact Hc].
    apply afterCalls_consistent; exact Hc.
  - destruct (PL.mounted c) eqn:Hm; [apply commit_consistent; exact Hc|].
    apply mountIn_consistent. unfold PL.consistent in Hc. rewrite Hm in Hc. apply Hc.
Qed.

Lemma run_consistent (es : list PL.Event) (c : PL.Lightbox) :
  PL.consistent c -> PL.consistent (PL.run es c).
Proof.
  revert c. induction es as [|e es IH]; intros c Hc; [exact Hc|].
  unfold PL.run. cbn [fold_left]. apply IH, step_consistent, Hc.
Qed.

Lemma reachable_consistent (p : PL.Props) (es : list PL.Event) :
  PL.consistent (PL.run es (PL.mount p)).
Proof. apply run_consistent, mount_consistent. Qed.

(** The parts of [consistent], for a mounted and for a removed component. *)
Lemma consistent_mounted (c : PL.Lightbox) :
  PL.consistent c -> PL.mounted c = true ->
  PL.throws (PL.props c) (PL.state c) = false
  /\ PL.listenersMatch c /\ PL.scrollMatches c.
Proof. unfold PL.consistent. intros Hc Hm. rewrite Hm in Hc. exact Hc. Qed.

Lemma consistent_removed (c : PL.Lightbox) :
  PL.consistent c -> PL.mounted c = false ->
  PL.throws (PL.props c) (PL.state c) = true
  /\ PL.keydownListener (PL.document c) = false
  /\ PL.touchListeners (PL.document c) = false
  /\ PL.bodyOverflow (PL.document c) <> "hidden".
Proof. unfold PL.consistent. intros Hc Hm. rewrite Hm in Hc. exact Hc. Qed.

(** A closed lightbox is mounted and has no listener. *)
Lemma consistent_closed (c : PL.Lightbox) :
  PL.consistent c -> PL.isOpen (PL.props c) = false ->
  PL.mounted c = true
  /\ PL.keydownListener (PL.document c) = false
  /\ PL.touchListeners (PL.document c) = false.
Proof.
  intros Hc Hclosed. destruct (PL.mounted c) eqn:Hm.
  - destruct (consistent_mounted c Hc Hm) as (_ & [Hk Ht] & _).
    rewrite Hclosed in Hk, Ht. auto.
  - destruct (consistent_removed c Hc Hm) as (Ht & _).
    apply throws_true in Ht as (Hopen & _). congruence.
Qed.

(** An input event leaves the state its calls give, whether the body then
    throws or not, and it never makes the body of a consistent component
    throw. *)
Lemma step_state (c : PL.Lightbox) (e : PL.Event) :
  PL.mounted c = true -> PL.isInput e = true ->
  PL.state (PL.step e c)
  = PL.performAll (PL.images (PL.props c)) (PL.callsOf c e) (PL.state c).
Proof.
  intros Hm Hin. destruct e as [key|startX endX|call|p']; cbn [PL.step PL.callsOf];
    [| | |discriminate Hin].
  - unfold PL.dispatchKeyDown.
    destruct (PL.keydownListener (PL.document c)); [|reflexivity].
    apply commit_same_props_state; exact Hm.
  - unfold PL.dispatchTouch.
    destruct (PL.touchListeners (PL.document c)); [|reflexivity].
    cbn [PL.state]. apply commit_same_props_state; exact Hm.
  - unfold PL.click. destruct (PL.clickable c call); [|reflexivity].
    apply commit_same_props_state; exact Hm.
Qed.

Lemma step_input_mounted (c : PL.Lightbox) (e : PL.Event) :
  PL.consistent c -> PL.mounted c = true -> PL.isInput e = true ->
  PL.mounted (PL.step e c) = true /\ PL.props (PL.step e c) = PL.props c.
Proof.
  intros Hc Hm Hin. destruct e as [key|startX endX|call|p']; cbn [PL.step];
    [| | |discriminate Hin].
  - unfold PL.dispatchKeyDown.
    destruct (PL.keydownListener (PL.document c)); [|auto].
    split; [apply afterCalls_mounted; auto using handleKeyDown_safe|].
    apply commit_props; exact Hm.
  - unfold PL.dispatchTouch.
    destruct (PL.touchListeners (PL.document c)); [|auto].
    cbn [PL.mounted PL.props].
    split; [apply afterCalls_mounted; auto using touchGesture_safe|].
    apply commit_props; exact Hm.
  - unfold PL.click. destruct (PL.clickable c call) eqn:E; [|auto].
    split; [|apply commit_props; exact Hm].
    apply afterCalls_mounted; auto.
    repeat constructor. apply clickable_safe; exact E.
Qed.

(** ** Zoom *)

(** Whenever the calls of a handler end with a navigation call, the state
    they produce is not zoomed. *)
Lemma navigation_last_resets_zoom (imgs : list PortfolioImage)
    (cs : list PL.Call) (c : PL.Call) (s : PL.State) :
  PL.isNavigation c = true ->
  PL.isZoomed (PL.performAll imgs (cs ++ [c]) s) = false.
Proof.
  intros Hc. rewrite performAll_app. simpl.
  destruct c; simpl in Hc; try discriminate; reflexivity.
Qed.

(** In every handler the navigation call, when there is one, comes last. *)
Lemma callsOf_navigation_last (c : PL.Lightbox) (e : PL.Event) :
  existsb PL.isNavigation (PL.callsOf c e) = true ->
  exists (cs : list PL.Call) (call : PL.Call),
    PL.callsOf c e = cs ++ [call] /\ PL.isNavigation call = true.
Proof.
  destruct e as [key|startX endX|call|p']; cbn [PL.callsOf].
  - unfold PL.handleKeyDown.
    repeat match goal with
           | |- context [if ?b then _ else _] => destruct b
           end; cbn; try discriminate; intros _.
    + exists [PL.PreventDefault], PL.GoToPrevious. split; reflexivity.
    + exists [PL.PreventDefault], PL.GoToNext. split; reflexivity.
  - unfold PL.touchGesture, PL.handleTouchEnd.
    repeat match goal with
           | |- context [if ?b then _ else _] => destruct b
           end; cbn; try discriminate; intros _.
    + exists [], PL.GoToNext. split; reflexivity.
    + exists [], PL.GoToPrevious. split; reflexivity.
  - destruct (PL.clickable c call); cbn; [|discriminate].
    rewrite orb_false_r. intros H. exists [], call. split; [reflexivity|exact H].
  - discriminate.
Qed.

(** A render by the owner that keeps the lightbox open leaves [isZoomed]
    as it was, and puts the index prop in the state when that changed and
    the body did not throw on the state before. *)
Lemma rerender_open_keeps_zoom (c : PL.Lightbox) (p' : PL.Props) :
  PL.mounted c = true -> PL.isOpen p' = true ->
  PL.isZoomed (PL.state (PL.rerender p' c)) = PL.isZoomed (PL.state c)
  /\ (PL.initialIndex p' <> PL.initialIndex (PL.props c) ->
      PL.throws p' (PL.state c) = false ->
      PL.currentIndex (PL.state (PL.rerender p' c)) = PL.initialIndex p').
Proof.
  intros Hm Hopen. unfold PL.rerender. rewrite commit_state by exact Hm. split.
  - destruct (PL.throws p' (PL.state c)); [reflexivity|].
    apply runEffects_zoom. exact Hopen.
  - intros Hne Hok. rewrite Hok, runEffects_index.
    destruct (Z.eqb_spec (PL.initialIndex (PL.props c)) (PL.initialIndex p'));
      [congruence|reflexivity].
Qed.

(** C4. Each of [goToNext], [goToPrevious] and [goToImage] ends with
    [setIsZoomed(false)], so each leaves [isZoomed] false whatever it was,
    and so does every key press, swipe or click that reaches one of them.
    The index prop is the other way the current image changes, and there
    the reset is missing: the [initialIndex] effect calls
    [setCurrentIndex] alone, so a render by the owner that moves an open
    lightbox to another image leaves [isZoomed] as it was. *)
Theorem zoom_reset_misses_index_prop :
  forall (imgs : list PortfolioImage) (s : PL.State),
    PL.isZoomed (PL.goToNext imgs s) = false
    /\ PL.isZoomed (PL.goToPrevious imgs s) = false
    /\ (forall i : Z, PL.isZoomed (PL.goToImage i s) = false)
    /\ (forall (c : PL.Lightbox) (e : PL.Event),
          PL.mounted c = true ->
          existsb PL.isNavigation (PL.callsOf c e) = true ->
          PL.isZoomed (PL.state (PL.step e c)) = false)
    /\ (forall p : PL.Props,
          PL.currentIndex (PL.syncIndexEffect p s) = PL.initialIndex p
          /\ PL.isZoomed (PL.syncIndexEffect p s) = PL.isZoomed s)
    /\ (forall (c : PL.Lightbox) (p' : PL.Props),
          PL.mounted c = true -> PL.isOpen p' = true ->
          PL.isZoomed (PL.state (PL.step (PL.Rerender p') c)) = PL.isZoomed (PL.state c)
          /\ (PL.initialIndex p' <> PL.initialIndex (PL.props c) ->
              PL.throws p' (PL.state c) = false ->
              PL.currentIndex (PL.state (PL.step (PL.Rerender p') c))
              = PL.initialIndex p')).
Proof.
  intros imgs s. split; [reflexivity|]. split; [reflexivity|].
  split; [reflexivity|]. split; [|split].
  - intros c e Hm Hnav.
    assert (Hin : PL.isInput e = true) by (destruct e; [reflexivity..|discriminate Hnav]).
    rewrite step_state by assumption.
    destruct (callsOf_navigation_last c e Hnav) as (cs & call & -> & Hcall).
    apply navigation_last_resets_zoom. exact Hcall.
  - intros p. split; reflexivity.
  - intros c p' Hm Hopen. cbn [PL.step]. rewrite Hm.
    apply rerender_open_keeps_zoom; assumption.
Qed.

Lemma zoom_reset_misses_index_prop_witness :
  let c := PL.run [PL.KeyDown "z"] (PL.mount (PL.openProps gallery3 1)) in
  let c' := PL.step (PL.Rerender (PL.openProps gallery3 2)) c in
  (PL.currentIndex (PL.state c) = 1 /\ PL.isZoomed (PL.state c) = true)
  /\ PL.isZoomed (PL.state (PL.step (PL.KeyDown "ArrowRight") c)) = false
  /\ PL.isZoomed (PL.state (PL.step (PL.TouchSwipe 40 100) c)) = false
  /\ PL.mounted c' = true
  /\ PL.currentIndex (PL.state c') = 2
  /\ PL.isZoomed (PL.state c') = true.
Proof.
  intros c c'. split; [split; reflexivity|].
  destruct (zoom_reset_misses_index_prop gallery3 (PL.state c)) as (_ & _ & _ & Hev & _ & Hprop).
  split; [apply Hev; reflexivity|]. split; [apply Hev; reflexivity|].
  split; [reflexivity|].
  destruct (Hprop c (PL.openProps gallery3 2) eq_refl eq_refl) as [Hzoom Hidx].
  split.
  - apply Hidx; [discriminate|reflexivity].
  - subst c'. rewrite Hzoom. reflexivity.
Defined.

(** C5. Over a non-empty image set of size N, N presses of Next bring the
    current index back to where it started, from every position of the
    set; with a single image one press of Next already leaves it where it
    was. *)
Theorem next_cycle_closure :
  forall (imgs : list PortfolioImage) (s : PL.State),
    imgs <> [] ->
    inRange (len imgs) (PL.currentIndex s) ->
    PL.currentIndex (Nat.iter (length imgs) (PL.goToNext imgs) s) = PL.currentIndex s
    /\ (length imgs = 1%nat ->
        PL.currentIndex (PL.goToNext imgs s) = PL.currentIndex s).
Proof.
  intros imgs s Hne Hr. split.
  - destruct (iter_goToNext_index imgs (length imgs) s Hr) as [-> _].
    fold (len imgs).
    assert (Hn : 0 < len imgs) by (apply len_pos; exact Hne).
    replace (PL.currentIndex s + len imgs)
      with (PL.currentIndex s + 1 * len imgs) by lia.
    rewrite Z_mod_plus_full. apply Z.mod_small. exact Hr.
  - intros H1. unfold inRange, len in Hr. simpl. unfold len. rewrite H1 in *.
    destruct (Z.eqb_spec (PL.currentIndex s) (Z.of_nat 1 - 1)); lia.
Qed.

Lemma next_cycle_closure_witness :
  PL.currentIndex (Nat.iter (length gallery3) (PL.goToNext gallery3) (PL.mkState 1 true false)) = 1
  /\ (length gallery3 = 1%nat ->
      PL.currentIndex (PL.goToNext gallery3 (PL.mkState 1 true false)) = 1).
Proof.
  apply (next_cycle_closure gallery3 (PL.mkState 1 true false)).
  - discriminate.
  - unfold inRange. vm_compute. split; [discriminate | reflexivity].
Defined.

(** C6. Over a non-empty image set Previous undoes Next: from every state
    whose index is not negative, Next followed by Previous gives back the
    same current index. *)
Theorem previous_inverts_next :
  forall (imgs : list PortfolioImage) (s : PL.State),
    imgs <> [] ->
    0 <= PL.currentIndex s ->
    PL.currentIndex (PL.goToPrevious imgs (PL.goToNext imgs s)) = PL.currentIndex s.
Proof.
  intros imgs s Hne Hs.
  assert (Hn : 0 < len imgs) by (apply len_pos; exact Hne).
  simpl.
  destruct (Z.eqb_spec (PL.currentIndex s) (len imgs - 1)) as [E|E]; simpl.
  - lia.
  - destruct (Z.eqb_spec (PL.currentIndex s + 1) 0); lia.
Qed.

Lemma previous_inverts_next_witness :
  PL.currentIndex (PL.goToPrevious gallery3 (PL.goToNext gallery3 (PL.mkState 2 false true))) = 2.
Proof.
  apply (previous_inverts_next gallery3 (PL.mkState 2 false true)).
  - discriminate.
  - simpl. lia.
Defined.

(** ** Open with no image *)

(** C2, as the code has it. [openLightbox] with an empty array does not
    fail: the owner's state gets [isOpen = true] with the empty array, and
    the lightbox it feeds returns [null], so nothing is shown and no image
    is looked up. *)
Theorem openLightbox_empty_renders_null :
  forall (index : Z) (ttl descr : string) (prev : PortfolioMosaic.LightboxState),
    let l := PortfolioMosaic.openLightbox [] index ttl descr prev in
    PortfolioMosaic.isOpen l = true
    /\ PortfolioMosaic.images l = []
    /\ EnhancedLightbox.render (PortfolioMosaic.lightboxProps l) = EnhancedLightbox.RenderNull.
Proof. intros index ttl descr prev. repeat split. Qed.

(** C2, as the specification states it, fails: after [openLightbox] with
    [images = []] on the initial state, [isOpen] is true. *)
Lemma openLightbox_empty_is_open :
  PortfolioMosaic.isOpen PortfolioMosaic.initialLightbox = false
  /\ PortfolioMosaic.isOpen
       (PortfolioMosaic.openLightbox [] 0 EmptyString EmptyString PortfolioMosaic.initialLightbox) = true
  /\ PortfolioMosaic.isOpen
       (PortfolioMosaic.openLightbox [] 0 EmptyString EmptyString PortfolioMosaic.initialLightbox) <> false.
Proof. repeat split. discriminate. Qed.

(** ** JumpTo *)

(** C1, as the code has it. [goToImage(i)] stores [i] as the current index
    and resets the zoom for every integer [i]: an index inside
    [0 .. N-1] becomes the current index, and so does one outside; nothing
    is rejected and nothing is clamped. The thumbnails the component
    renders only ever ask for a position of the image set, and a click on
    one makes it the current index. *)
Theorem goToImage_sets_index :
  forall (imgs : list PortfolioImage) (s : PL.State) (i : Z),
    PL.currentIndex (PL.goToImage i s) = i
    /\ PL.isZoomed (PL.goToImage i s) = false
    /\ PL.showThumbnails (PL.goToImage i s) = PL.showThumbnails s
    /\ (inRange (len imgs) (PL.currentIndex (PL.goToImage i s)) <-> inRange (len imgs) i)
    /\ (forall c : PL.Lightbox,
          PL.clickable c (PL.GoToImage i) = true ->
          inRange (len (PL.images (PL.props c))) i
          /\ PL.currentIndex (PL.state (PL.click (PL.GoToImage i) c)) = i).
Proof.
  intros imgs s i. split; [reflexivity|]. split; [reflexivity|].
  split; [reflexivity|]. split; [simpl; tauto|].
  intros c Hc. split.
  - exact (clickable_safe c (PL.GoToImage i) Hc).
  - destruct (clickable_shown c _ Hc) as (Hm & _).
    unfold PL.click. rewrite Hc. unfold PL.afterCalls.
    rewrite commit_same_props_state by exact Hm. reflexivity.
Qed.

Lemma goToImage_sets_index_witness :
  let c := PL.run [PL.KeyDown "t"] (PL.mount (PL.openProps gallery4 2)) in
  PL.currentIndex (PL.state c) = 2
  /\ inRange (len (PL.images (PL.props c))) 3
  /\ PL.currentIndex (PL.state (PL.click (PL.GoToImage 3) c)) = 3.
Proof.
  intros c. split; [reflexivity|].
  destruct (goToImage_sets_index gallery4 (PL.state c) 3) as (_ & _ & _ & _ & Hclick).
  apply Hclick. reflexivity.
Defined.

(** C1, as the specification states it, fails: on four images at index 2,
    [goToImage(5)] is outside [0 .. 3] and still moves the index to 5. *)
Lemma goToImage_out_of_range_not_rejected :
  let s := PL.mkState 2 false false in
  ~ inRange (len gallery4) 5
  /\ PL.currentIndex (PL.goToImage 5 s) = 5
  /\ PL.goToImage 5 s <> s.
Proof.
  simpl. split; [|split].
  - unfold inRange. vm_compute. intros [_ H]. discriminate H.
  - reflexivity.
  - discriminate.
Qed.

(** ** Reachable states *)




(** ** A closed lightbox *)

Lemma step_rerender_props (p' : PL.Props) (c : PL.Lightbox) :
  PL.props (PL.step (PL.Rerender p') c) = p'.
Proof.
  cbn [PL.step]. destruct (PL.mounted c) eqn:Hm.
  - apply commit_props. exact Hm.
  - unfold PL.mountIn. destruct (PL.throws p' _); reflexivity.
Qed.

(** C7, as the code has it. On a lightbox that is closed ([isOpen] false),
    whatever happened to it since it was mounted: [handleKeyDown] returns
    at its guard without calling anything, no [keydown] or touch listener
    is registered on the document, nothing can be clicked, and so a key
    press, a swipe or a click leaves the component as it is, without any
    error being reported. Closing removes the listeners. (The callbacks
    themselves carry no guard and no failure result.) *)
Theorem closed_lightbox_ignores_input :
  forall (p : PL.Props) (es : list PL.Event),
    let c := PL.run es (PL.mount p) in
    (PL.isOpen (PL.props c) = false ->
       (forall key : string, PL.handleKeyDown (PL.isOpen (PL.props c)) key = [])
       /\ PL.keydownListener (PL.document c) = false
       /\ PL.touchListeners (PL.document c) = false
       /\ (forall key : string, PL.step (PL.KeyDown key) c = c)
       /\ (forall startX endX : Z, PL.step (PL.TouchSwipe startX endX) c = c)
       /\ (forall call : PL.Call, PL.step (PL.Click call) c = c))
    /\ PL.isOpen (PL.props (PL.close c)) = false
    /\ PL.keydownListener (PL.document (PL.close c)) = false
    /\ PL.touchListeners (PL.document (PL.close c)) = false.
Proof.
  intros p es c.
  assert (Hc : PL.consistent c) by apply reachable_consistent.
  split.
  - intros Hclosed. destruct (consistent_closed c Hc Hclosed) as (_ & Hk & Ht).
    repeat split.
    + intros key. rewrite Hclosed. reflexivity.
    + exact Hk.
    + exact Ht.
    + intros key. cbn [PL.step]. unfold PL.dispatchKeyDown. rewrite Hk. reflexivity.
    + intros startX endX. cbn [PL.step]. unfold PL.dispatchTouch. rewrite Ht. reflexivity.
    + intros call. cbn [PL.step]. unfold PL.click, PL.clickable, PL.render.
      rewrite Hclosed. cbn [negb orb]. rewrite andb_false_r. reflexivity.
  - assert (Hclosed : PL.isOpen (PL.props (PL.close c)) = false).
    { unfold PL.close. rewrite step_rerender_props. reflexivity. }
    split; [exact Hclosed|].
    assert (Hc' : PL.consistent (PL.close c)) by (apply step_consistent; exact Hc).
    destruct (consistent_closed _ Hc' Hclosed) as (_ & Hk & Ht). auto.
Qed.

Lemma closed_lightbox_ignores_input_witness :
  let p := PL.openProps gallery3 0 in
  let es := [PL.KeyDown "ArrowRight"; PL.Rerender (PL.closedProps p)] in
  PL.isOpen (PL.props (PL.run es (PL.mount p))) = false
  /\ PL.step (PL.KeyDown "ArrowRight") (PL.run es (PL.mount p)) = PL.run es (PL.mount p)
  /\ PL.step (PL.TouchSwipe 200 100) (PL.run es (PL.mount p)) = PL.run es (PL.mount p).
Proof.
  intros p es.
  assert (Hclosed : PL.isOpen (PL.props (PL.run es (PL.mount p))) = false)
    by reflexivity.
  destruct (proj1 (closed_lightbox_ignores_input p es) Hclosed)
    as (_ & _ & _ & Hkey & Htouch & _).
  split; [exact Hclosed|]. split; [apply Hkey | apply Htouch].
Defined.

(** C7, as the specification states it, fails: on a lightbox that was just
    closed, the Next command [goToNext] is not rejected and moves the
    index from 0 to 1; and no state change is not the same as a reported
    failure, since the keyboard handler simply makes no call. *)
Lemma closed_lightbox_command_not_rejected :
  let c := PL.close (PL.mount (PL.openProps gallery3 0)) in
  PL.isOpen (PL.props c) = false
  /\ PL.currentIndex (PL.state c) = 0
  /\ PL.currentIndex (PL.perform (PL.images (PL.props c)) PL.GoToNext (PL.state c)) = 1
  /\ PL.perform (PL.images (PL.props c)) PL.GoToNext (PL.state c) <> PL.state c.
Proof. cbn. repeat split. discriminate. Qed.

(** ** Swipes *)

(** What the card has recorded when the finger lifts. *)
Lemma PC_touched_start (startX : Z) (moves : list Z) (s : PC.State) :
  PC.touchStart (PC.touched startX moves s) = Some startX.
Proof.
  unfold PC.touched.
  induction moves as [|x moves IH] using rev_ind; [reflexivity|].
  rewrite fold_left_app. exact IH.
Qed.

Lemma PC_touched_end (startX endX : Z) (moves : list Z) (s : PC.State) :
  PC.touchEnd (PC.touched startX (moves ++ [endX]) s) = Some endX.
Proof. unfold PC.touched. rewrite fold_left_app. reflexivity. Qed.

Lemma SC_touched_start (startX : Z) (moves : list Z) (s : SC.State) :
  SC.touchStart (SC.touched startX moves s) = Some startX.
Proof.
  unfold SC.touched.
  induction moves as [|x moves IH] using rev_ind; [reflexivity|].
  rewrite fold_left_app. exact IH.
Qed.

Lemma SC_touched_end (startX endX : Z) (moves : list Z) (s : SC.State) :
  SC.touchEnd (SC.touched startX (moves ++ [endX]) s) = Some endX.
Proof. unfold SC.touched. rewrite fold_left_app. reflexivity. Qed.

(** The lightbox handler, case by case. *)
Lemma lightbox_gesture_cases (startX endX : Z) (v : PL.TouchVars) :
  (Z.abs (startX - endX) <= 50 -> PL.touchGesture startX endX v = [])
  /\ (startX - endX > 50 -> PL.touchGesture startX endX v = [PL.GoToNext])
  /\ (endX - startX > 50 -> PL.touchGesture startX endX v = [PL.GoToPrevious])
  /\ (length (PL.touchGesture startX endX v) <= 1)%nat.
Proof.
  unfold PL.touchGesture, PL.handleTouchEnd, PL.swipeThreshold. cbn.
  destruct (Z.gtb_spec (startX - endX) 50) as [Hl|Hl];
    destruct (Z.gtb_spec (endX - startX) 50) as [Hr|Hr];
    repeat split; intros; cbn; try reflexivity; lia.
Qed.

(** The card handler on a recorded pair of coordinates. *)
Lemma card_onTouchEnd_cases (imgs : list PortfolioImage) (i startX endX : Z) :
  startX <> 0 -> endX <> 0 ->
  let many := PC.hasMultipleImages imgs in
  let calls := PC.onTouchEnd imgs (PC.mkState i (Some startX) (Some endX)) in
  (Z.abs (startX - endX) <= 50 -> calls = [])
  /\ (startX - endX > 50 -> calls = if many then [PC.GoToNext] else [])
  /\ (endX - startX > 50 -> calls = if many then [PC.GoToPrevious] else []).
Proof.
  intros Hs He many calls. subst many calls.
  unfold PC.onTouchEnd, PC.minSwipeDistance, truthy, toNumber. cbn.
  destruct (Z.eqb_spec startX 0); [contradiction|].
  destruct (Z.eqb_spec endX 0); [contradiction|]. cbn.
  destruct (Z.gtb_spec (startX - endX) 50) as [Hl|Hl];
    destruct (Z.ltb_spec (startX - endX) (Z.opp 50)) as [Hr|Hr];
    destruct (PC.hasMultipleImages imgs);
    repeat split; intros; cbn; try reflexivity; lia.
Qed.

Lemma card_onTouchEnd_at_most_one (imgs : list PortfolioImage) (s : PC.State) :
  (length (PC.onTouchEnd imgs s) <= 1)%nat.
Proof.
  unfold PC.onTouchEnd, PC.minSwipeDistance.
  destruct (negb (truthy (PC.touchStart s)) || negb (truthy (PC.touchEnd s)));
    [cbn; lia|].
  cbv zeta.
  destruct (Z.gtb_spec (toNumber (PC.touchStart s) - toNumber (PC.touchEnd s)) 50);
    destruct (Z.ltb_spec (toNumber (PC.touchStart s) - toNumber (PC.touchEnd s)) (Z.opp 50));
    destruct (PC.hasMultipleImages imgs); cbn; lia.
Qed.

Lemma card_single_image_no_call (imgs : list PortfolioImage) (s : PC.State) :
  PC.hasMultipleImages imgs = false -> PC.onTouchEnd imgs s = [].
Proof.
  intros Hm. unfold PC.onTouchEnd. rewrite Hm.
  destruct (negb (truthy (PC.touchStart s)) || negb (truthy (PC.touchEnd s)));
    [reflexivity|].
  cbv zeta. rewrite !andb_false_r. reflexivity.
Qed.

(** C8, as the code has it. In the lightbox every completed touch gesture
    with a horizontal displacement of at most 50 units makes no navigation
    call, a leftward one of more than 50 makes exactly one Next, a
    rightward one of more than 50 exactly one Previous, and none makes more
    than one. In the portfolio card the same holds for a card with more
    than one image whose recorded start and end coordinates are present
    and not zero; a card with at most one image makes no navigation call
    for any gesture, and no card gesture makes more than one. *)
Theorem swipe_commands :
  (forall (startX endX : Z) (v : PL.TouchVars),
      (Z.abs (startX - endX) <= 50 -> PL.touchGesture startX endX v = [])
      /\ (startX - endX > 50 -> PL.touchGesture startX endX v = [PL.GoToNext])
      /\ (endX - startX > 50 -> PL.touchGesture startX endX v = [PL.GoToPrevious])
      /\ (length (PL.touchGesture startX endX v) <= 1)%nat)
  /\ (forall (imgs : list PortfolioImage) (startX endX : Z) (moves : list Z) (s : PC.State),
        PC.hasMultipleImages imgs = true -> startX <> 0 -> endX <> 0 ->
        let calls := PC.touchGesture imgs startX (moves ++ [endX]) s in
        (Z.abs (startX - endX) <= 50 -> calls = [])
        /\ (startX - endX > 50 -> calls = [PC.GoToNext])
        /\ (endX - startX > 50 -> calls = [PC.GoToPrevious]))
  /\ (forall (imgs : list PortfolioImage) (startX : Z) (moves : list Z) (s : PC.State),
        (PC.hasMultipleImages imgs = false -> PC.touchGesture imgs startX moves s = [])
        /\ (length (PC.touchGesture imgs startX moves s) <= 1)%nat).
Proof.
  split; [exact lightbox_gesture_cases|]. split.
  - intros imgs startX endX moves s Hm Hs He calls. subst calls.
    unfold PC.touchGesture.
    pose proof (PC_touched_start startX (moves ++ [endX]) s) as H1.
    pose proof (PC_touched_end startX endX moves s) as H2.
    destruct (PC.touched startX (moves ++ [endX]) s) as [i ts te].
    cbn in H1, H2. subst ts te.
    pose proof (card_onTouchEnd_cases imgs i startX endX Hs He) as H.
    cbv zeta in H. rewrite Hm in H. exact H.
  - intros imgs startX moves s. split.
    + intros Hm. apply card_single_image_no_call; exact Hm.
    + apply card_onTouchEnd_at_most_one.
Qed.

Lemma swipe_commands_witness :
  PL.touchGesture 100 70 PL.touchVars0 = []
  /\ PL.touchGesture 100 40 PL.touchVars0 = [PL.GoToNext]
  /\ PL.touchGesture 40 100 PL.touchVars0 = [PL.GoToPrevious]
  /\ PC.touchGesture gallery3 100 ([80; 60] ++ [40]) PC.initialState = [PC.GoToNext]
  /\ PC.touchGesture gallery1 100 [80; 60; 40] PC.initialState = [].
Proof.
  destruct swipe_commands as (Hbox & Hcard & Hsingle).
  destruct (Hbox 100 70 PL.touchVars0) as (Hnone & _).
  destruct (Hbox 100 40 PL.touchVars0) as (_ & Hnext & _).
  destruct (Hbox 40 100 PL.touchVars0) as (_ & _ & Hprev & _).
  split; [apply Hnone; cbn; lia|].
  split; [apply Hnext; lia|].
  split; [apply Hprev; lia|].
  split.
  - apply (Hcard gallery3 100 40 [80; 60] PC.initialState); [reflexivity|lia|lia|lia].
  - apply (Hsingle gallery1 100 [80; 60; 40] PC.initialState). reflexivity.
Defined.

(** C8, as the specification states it, fails: on a portfolio card with one
    image, a leftward gesture of 60 units (from 100 to 40) makes no Next
    call. *)
Lemma single_image_card_swipe_makes_no_call :
  100 - 40 > PC.minSwipeDistance
  /\ PC.touchGesture gallery1 100 [40] PC.initialState = []
  /\ PC.touchGesture gallery1 100 [40] PC.initialState <> [PC.GoToNext].
Proof.
  split; [unfold PC.minSwipeDistance; lia|]. split; [reflexivity|discriminate].
Qed.

(** ** The simple lightbox reads [images[currentIndex]] unguarded *)

(** C9. In the simple lightbox, open on a non-empty image list, the current
    image is [images[currentIndex]] with no bounds check after the
    emptiness test: for a current index outside [0 .. length-1] the lookup
    gives nothing, and reading [src] and [alt] from it is a type error
    rather than an image; only an index inside the list is rendered. *)
Theorem enhanced_lightbox_unguarded_index :
  forall p : EnhancedLightbox.Props,
    EnhancedLightbox.isOpen p = true ->
    EnhancedLightbox.images p <> [] ->
    (~ inRange (len (EnhancedLightbox.images p)) (EnhancedLightbox.currentIndex p) ->
       at_index (EnhancedLightbox.images p) (EnhancedLightbox.currentIndex p) = None
       /\ EnhancedLightbox.render p = EnhancedLightbox.RenderTypeError)
    /\ (EnhancedLightbox.render p = EnhancedLightbox.RenderTypeError ->
        ~ inRange (len (EnhancedLightbox.images p)) (EnhancedLightbox.currentIndex p)).
Proof.
  intros p Hopen Hne.
  assert (Hn : 0 < len (EnhancedLightbox.images p)) by (apply len_pos; exact Hne).
  unfold EnhancedLightbox.render. rewrite Hopen. cbn [negb orb].
  destruct (Z.eqb_spec (len (EnhancedLightbox.images p)) 0) as [E|_]; [lia|].
  split.
  - intros Hout. apply at_index_None in Hout. rewrite Hout. split; reflexivity.
  - destruct (at_index (EnhancedLightbox.images p) (EnhancedLightbox.currentIndex p))
      as [x|] eqn:E; [discriminate|].
    intros _. apply at_index_None. exact E.
Qed.

Lemma enhanced_lightbox_unguarded_index_witness :
  let p := PortfolioMosaic.lightboxProps
             (PortfolioMosaic.openLightbox gallery3 3 "Showcase" "Gallery" PortfolioMosaic.initialLightbox) in
  at_index (EnhancedLightbox.images p) (EnhancedLightbox.currentIndex p) = None
  /\ EnhancedLightbox.render p = EnhancedLightbox.RenderTypeError.
Proof.
  intros p.
  apply (proj1 (enhanced_lightbox_unguarded_index p eq_refl ltac:(discriminate))).
  subst p. unfold inRange, len. cbn. lia.
Defined.

(** ** A zero coordinate in the card sliders *)

(** C10. In both card sliders a touch gesture whose recorded start or end
    x-coordinate is exactly 0 makes no navigation call, however far the
    finger moved: [!touchStart] and [!touchEnd] hold for 0 as they do for
    [null], so the handler returns as if no touch had been recorded. *)
Theorem zero_coordinate_swipe_ignored :
  forall (imgs : list PortfolioImage) (data : SC.CardData),
    (forall s : PC.State,
        PC.touchStart s = Some 0 \/ PC.touchEnd s = Some 0 ->
        PC.onTouchEnd imgs s = [])
    /\ (forall s : SC.State,
        SC.touchStart s = Some 0 \/ SC.touchEnd s = Some 0 ->
        SC.onTouchEnd (SC.imagesOf data) s = [])
    /\ (forall (x : Z) (moves : list Z) (s : PC.State),
          PC.touchGesture imgs 0 moves s = []
          /\ PC.touchGesture imgs x (moves ++ [0]) s = [])
    /\ (forall (x : Z) (moves : list Z) (s : SC.State),
          SC.touchGesture data 0 moves s = []
          /\ SC.touchGesture data x (moves ++ [0]) s = [])
    /\ truthy (Some 0) = truthy None.
Proof.
  intros imgs data.
  assert (HP : forall s : PC.State,
             PC.touchStart s = Some 0 \/ PC.touchEnd s = Some 0 ->
             PC.onTouchEnd imgs s = []).
  { intros s [H|H]; unfold PC.onTouchEnd; rewrite H; cbn;
      [reflexivity | rewrite orb_true_r; reflexivity]. }
  assert (HS : forall s : SC.State,
             SC.touchStart s = Some 0 \/ SC.touchEnd s = Some 0 ->
             SC.onTouchEnd (SC.imagesOf data) s = []).
  { intros s [H|H]; unfold SC.onTouchEnd; rewrite H; cbn;
      [reflexivity | rewrite orb_true_r; reflexivity]. }
  split; [exact HP|]. split; [exact HS|]. split; [|split; [|reflexivity]].
  - intros x moves s. unfold PC.touchGesture. split; apply HP.
    + left. apply PC_touched_start.
    + right. apply PC_touched_end.
  - intros x moves s. unfold SC.touchGesture. split; apply HS.
    + left. apply SC_touched_start.
    + right. apply SC_touched_end.
Qed.

Lemma zero_coordinate_swipe_ignored_witness :
  PC.onTouchEnd gallery3 (PC.mkState 0 (Some 0) (Some 500)) = []
  /\ PC.onTouchEnd gallery3 (PC.mkState 0 (Some 500) (Some 0)) = []
  /\ SC.onTouchEnd gallery3 (SC.mkState 0 (Some 500) (Some 0)) = [].
Proof.
  destruct (zero_coordinate_swipe_ignored gallery3
              (SC.mkCardData "Card" "Slider" None (Some gallery3))) as (HP & HS & _).
  split; [apply HP; left; reflexivity|].
  split; [apply HP; right; reflexivity|].
  apply (HS (SC.mkState 0 (Some 500) (Some 0))). right. reflexivity.
Defined.

(** ** The scenarios of the specification, run on the lightbox *)

(** Scenario A: three images, open at 0; three presses of Next visit 1, 2
    and wrap to 0. *)
Example scenario_three_images_wrap :
  let c := PL.mount (PL.openProps gallery3 0) in
  map (fun es => PL.currentIndex (PL.state (PL.run es c)))
      [ [PL.KeyDown "ArrowRight"];
        [PL.KeyDown "ArrowRight"; PL.KeyDown "ArrowRight"];
        [PL.KeyDown "ArrowRight"; PL.KeyDown "ArrowRight"; PL.KeyDown "ArrowRight"] ]
  = [1; 2; 0].
Proof. reflexivity. Qed.

(** Scenario B: one image; Next and Previous both stay at 0. *)
Example scenario_single_image :
  let c := PL.mount (PL.openProps gallery1 0) in
  PL.currentIndex (PL.state (PL.run [PL.KeyDown "ArrowRight"] c)) = 0
  /\ PL.currentIndex (PL.state (PL.run [PL.KeyDown "ArrowLeft"] c)) = 0.
Proof. split; reflexivity. Qed.

(** Scenario E: open at 1 of 3, zoom in, then Next: not zoomed any more. *)
Example scenario_zoom_then_next :
  let c := PL.mount (PL.openProps gallery3 1) in
  PL.isZoomed (PL.state (PL.run [PL.KeyDown "z"] c)) = true
  /\ PL.state (PL.run [PL.KeyDown "z"; PL.KeyDown "ArrowRight"] c)
     = PL.mkState 2 false false.
Proof. split; reflexivity. Qed.

(** Scenario F: a swipe of 30 units moves nothing, one of 60 units to the
    left moves to the next image. *)
Example scenario_swipe_threshold :
  let c := PL.mount (PL.openProps gallery3 0) in
  PL.currentIndex (PL.state (PL.run [PL.TouchSwipe 100 70] c)) = 0
  /\ PL.currentIndex (PL.state (PL.run [PL.TouchSwipe 100 40] c)) = 1.
Proof. split; reflexivity. Qed.

(** A lightbox first rendered closed over no image and then opened on
    three images at index 1 shows the second image. *)
Example scenario_open_after_empty :
  let c := PL.run [PL.Rerender (PL.openProps gallery3 1)]
             (PL.mount (PL.closedProps (PL.openProps [] 0))) in
  PL.mounted c = true
  /\ PL.state c = PL.mkState 1 false false
  /\ PL.render (PL.props c) (PL.state c) = PL.RenderImage "b" "b".
Proof. repeat split. Qed.

(** A lightbox opened at index 3 of four images, closed, and opened again
    at index 0 of three images: the index prop was 3 and is now 0, but the
    body runs before the effect that follows the prop, reads [images[3]]
    of three images and throws. *)
Example scenario_reopen_on_fewer_images :
  let es := [PL.Rerender (PL.openProps gallery4 3);
             PL.Rerender (PL.closedProps (PL.openProps gallery4 3));
             PL.Rerender (PL.openProps gallery3 0)] in
  let c := PL.run es (PL.mount (PL.closedProps (PL.openProps gallery4 0))) in
  PL.mounted c = false
  /\ PL.currentIndex (PL.state c) = 3
  /\ PL.render (PL.props c) (PL.state c) = PL.RenderTypeError
  /\ PL.document c = PL.mkDocument "unset" false false.
Proof. repeat split. Qed.

(** * Further properties of the lightbox *)

(** ** Any mix of Next and Previous *)

Section Cycle.

Variable imgs : list PortfolioImage.

Lemma goToPrevious_index (s : PL.State) :
  inRange (len imgs) (PL.currentIndex s) ->
  PL.currentIndex (PL.goToPrevious imgs s) = (PL.currentIndex s - 1) mod len imgs.
Proof.
  unfold inRange. intros Hr. simpl.
  destruct (Z.eqb_spec (PL.currentIndex s) 0) as [E|E].
  - rewrite E.
    replace (0 - 1) with (len imgs - 1 + (-1) * len imgs) by lia.
    rewrite Z_mod_plus_full. symmetry. apply Z.mod_small. lia.
  - symmetry. apply Z.mod_small. lia.
Qed.

Lemma perform_index (call : PL.Call) (s : PL.State) :
  PL.isJump call = false ->
  inRange (len imgs) (PL.currentIndex s) ->
  PL.currentIndex (PL.perform imgs call s)
  = (PL.currentIndex s + PL.netSteps [call]) mod len imgs.
Proof.
  intros Hj Hr.
  destruct call; cbn [PL.perform PL.netSteps fold_right]; try discriminate Hj;
    try (rewrite Z.add_0_r; symmetry; apply Z.mod_small; exact Hr).
  - rewrite goToPrevious_index by exact Hr. f_equal.
  - rewrite goToNext_index by exact Hr. f_equal.
Qed.

Lemma netSteps_cons (call : PL.Call) (cs : list PL.Call) :
  PL.netSteps (call :: cs) = PL.netSteps [call] + PL.netSteps cs.
Proof. unfold PL.netSteps. destruct call; cbn [fold_right]; lia. Qed.

Lemma performAll_index (cs : list PL.Call) (s : PL.State) :
  forallb (fun c => negb (PL.isJump c)) cs = true ->
  inRange (len imgs) (PL.currentIndex s) ->
  PL.currentIndex (PL.performAll imgs cs s)
  = (PL.currentIndex s + PL.netSteps cs) mod len imgs.
Proof.
  revert s. induction cs as [|call cs IH]; intros s Hcs Hr.
  - cbn. rewrite Z.add_0_r. symmetry. apply Z.mod_small. exact Hr.
  - cbn [forallb] in Hcs. apply andb_prop in Hcs as [Hcall Hcs].
    apply negb_true_iff in Hcall.
    unfold PL.performAll. cbn [fold_left]. fold (PL.performAll imgs cs (PL.perform imgs call s)).
    assert (Hr' : inRange (len imgs) (PL.currentIndex (PL.perform imgs call s))).
    { apply perform_safe; [|exact Hr]. destruct call; cbn; trivial. discriminate Hcall. }
    rewrite IH by assumption.
    rewrite perform_index by assumption.
    rewrite Zplus_mod_idemp_l, (netSteps_cons call cs). f_equal. lia.
Qed.

End Cycle.

(** X1. Over a non-empty image set and from a position of the set, any
    sequence of calls without a jump (Next, Previous, the two toggles, in
    any order) ends on the index [(i + nexts - previouses) mod N]. *)
Theorem navigation_net_steps :
  forall (imgs : list PortfolioImage) (cs : list PL.Call) (s : PL.State),
    imgs <> [] ->
    inRange (len imgs) (PL.currentIndex s) ->
    forallb (fun c => negb (PL.isJump c)) cs = true ->
    PL.currentIndex (PL.performAll imgs cs s)
    = (PL.currentIndex s + PL.netSteps cs) mod len imgs.
Proof. intros imgs cs s _ Hr Hcs. apply performAll_index; assumption. Qed.

Lemma navigation_net_steps_witness :
  PL.currentIndex
    (PL.performAll gallery4
       [PL.GoToPrevious; PL.ToggleZoom; PL.GoToPrevious; PL.GoToNext; PL.GoToPrevious]
       (PL.mkState 1 false false))
  = (1 + -2) mod 4.
Proof.
  apply (navigation_net_steps gallery4
           [PL.GoToPrevious; PL.ToggleZoom; PL.GoToPrevious; PL.GoToNext; PL.GoToPrevious]
           (PL.mkState 1 false false)).
  - discriminate.
  - unfold inRange, len. cbn. lia.
  - reflexivity.
Defined.

Lemma iter_goToPrevious_performAll (imgs : list PortfolioImage) (k : nat) (s : PL.State) :
  Nat.iter k (PL.goToPrevious imgs) s
  = PL.performAll imgs (repeat PL.GoToPrevious k) s.
Proof.
  revert s. induction k as [|k IH]; intros s; [reflexivity|].
  rewrite Nat.iter_succ_r. rewrite IH. reflexivity.
Qed.

Lemma netSteps_repeat_previous (k : nat) :
  PL.netSteps (repeat PL.GoToPrevious k) = - Z.of_nat k.
Proof.
  induction k as [|k IH]; [reflexivity|].
  cbn [repeat]. rewrite netSteps_cons, IH. cbn. lia.
Qed.

(** X2. Over a non-empty image set of size N, N presses of Previous bring
    the current index back to where it started, from every position of
    the set; and Next undoes Previous there. *)
Theorem previous_cycle_closure :
  forall (imgs : list PortfolioImage) (s : PL.State),
    imgs <> [] ->
    inRange (len imgs) (PL.currentIndex s) ->
    PL.currentIndex (Nat.iter (length imgs) (PL.goToPrevious imgs) s) = PL.currentIndex s
    /\ PL.currentIndex (PL.goToNext imgs (PL.goToPrevious imgs s)) = PL.currentIndex s.
Proof.
  intros imgs s Hne Hr. split.
  - rewrite iter_goToPrevious_performAll.
    rewrite performAll_index; [| |exact Hr].
    + rewrite netSteps_repeat_previous. fold (len imgs).
      replace (PL.currentIndex s + - len imgs)
        with (PL.currentIndex s + (-1) * len imgs) by lia.
      rewrite Z_mod_plus_full. apply Z.mod_small. exact Hr.
    + clear. induction (length imgs) as [|k IH]; [reflexivity|exact IH].
  - unfold inRange in Hr. simpl.
    destruct (Z.eqb_spec (PL.currentIndex s) 0) as [E|E]; simpl.
    + rewrite Z.eqb_refl. lia.
    + destruct (Z.eqb_spec (PL.currentIndex s - 1) (len imgs - 1)); lia.
Qed.

Lemma previous_cycle_closure_witness :
  PL.currentIndex (Nat.iter (length gallery4) (PL.goToPrevious gallery4) (PL.mkState 0 true true)) = 0
  /\ PL.currentIndex (PL.goToNext gallery4 (PL.goToPrevious gallery4 (PL.mkState 0 true true))) = 0.
Proof.
  apply (previous_cycle_closure gallery4 (PL.mkState 0 true true)).
  - discriminate.
  - unfold inRange, len. cbn. lia.
Defined.

(** ** The document while the lightbox lives *)

(** X3. Whatever keys, swipes, clicks and renders a lightbox receives:
    while it is mounted, background scrolling is suspended exactly while
    it is open ([overflow] is ['hidden'] when [isOpen], ['unset']
    otherwise) and the global [keydown] and touch listeners are registered
    exactly while it is open; when its body has thrown and it is not
    mounted, scrolling is not suspended and no listener is left, although
    [isOpen] is true. So [overflow] is ['hidden'] exactly for a mounted,
    open lightbox. *)
Theorem scroll_lock_follows_open :
  forall (p : PL.Props) (es : list PL.Event),
    let c := PL.run es (PL.mount p) in
    (PL.mounted c = true ->
       PL.bodyOverflow (PL.document c)
         = (if PL.isOpen (PL.props c) then "hidden" else "unset")
       /\ PL.keydownListener (PL.document c) = PL.isOpen (PL.props c)
       /\ PL.touchListeners (PL.document c) = PL.isOpen (PL.props c))
    /\ (PL.mounted c = false ->
        PL.isOpen (PL.props c) = true
        /\ PL.bodyOverflow (PL.document c) <> "hidden"
        /\ PL.keydownListener (PL.document c) = false
        /\ PL.touchListeners (PL.document c) = false)
    /\ (PL.bodyOverflow (PL.document c) = "hidden"
        <-> PL.mounted c = true /\ PL.isOpen (PL.props c) = true).
Proof.
  intros p es c.
  assert (Hc : PL.consistent c) by apply reachable_consistent.
  assert (Hlive : PL.mounted c = true ->
                  PL.bodyOverflow (PL.document c)
                    = (if PL.isOpen (PL.props c) then "hidden" else "unset")
                  /\ PL.keydownListener (PL.document c) = PL.isOpen (PL.props c)
                  /\ PL.touchListeners (PL.document c) = PL.isOpen (PL.props c)).
  { intros Hm. destruct (consistent_mounted c Hc Hm) as (_ & [Hk Ht] & Hs). auto. }
  assert (Hgone : PL.mounted c = false ->
                  PL.isOpen (PL.props c) = true
                  /\ PL.bodyOverflow (PL.document c) <> "hidden"
                  /\ PL.keydownListener (PL.document c) = false
                  /\ PL.touchListeners (PL.document c) = false).
  { intros Hm. destruct (consistent_removed c Hc Hm) as (Ht & Hk & Htl & Ho).
    apply throws_true in Ht as (Hopen & _). auto. }
  split; [exact Hlive|]. split; [exact Hgone|].
  destruct (PL.mounted c) eqn:Hm.
  - destruct (Hlive eq_refl) as (-> & _).
    destruct (PL.isOpen (PL.props c)); split; auto; try discriminate.
    intros [_ H]. discriminate H.
  - destruct (Hgone eq_refl) as (_ & Ho & _).
    split; [contradiction|]. intros [H _]. discriminate H.
Qed.

Lemma scroll_lock_follows_open_witness :
  let p := PL.openProps gallery3 0 in
  let es := [PL.KeyDown "ArrowLeft"; PL.Rerender (PL.openProps gallery1 0)] in
  PL.bodyOverflow (PL.document (PL.mount p)) = "hidden"
  /\ PL.currentIndex (PL.state (PL.run es (PL.mount p))) = 2
  /\ PL.isOpen (PL.props (PL.run es (PL.mount p))) = true
  /\ PL.document (PL.run es (PL.mount p)) = PL.mkDocument "unset" false false
  /\ PL.keydownListener (PL.document (PL.run es (PL.mount p))) = false.
Proof.
  intros p es.
  destruct (scroll_lock_follows_open p []) as (Hlive & _).
  destruct (scroll_lock_follows_open p es) as (_ & Hgone & _).
  split; [exact (proj1 (Hlive eq_refl))|]. split; [reflexivity|].
  split; [reflexivity|]. split; [reflexivity|].
  exact (proj1 (proj2 (proj2 (Hgone eq_refl)))).
Defined.

(** ** Zoom and thumbnails across sessions *)

Lemma runEffects_toggles_off (p' : PL.Props) (s' : PL.State) (c : PL.Lightbox) :
  (PL.isOpen (PL.props c) = false ->
   PL.isZoomed s' = false /\ PL.showThumbnails s' = false) ->
  PL.isOpen p' = false ->
  PL.isZoomed (PL.state (PL.runEffects p' s' c)) = false
  /\ PL.showThumbnails (PL.state (PL.runEffects p' s' c)) = false.
Proof.
  unfold PL.runEffects. cbn [PL.state].
  intros Hs' Hclosed. unfold PL.openChanged, PL.scrollEffectState. rewrite Hclosed.
  destruct (PL.isOpen (PL.props c)); cbn.
  - split; reflexivity.
  - destruct (Hs' eq_refl) as [Hz Ht].
    destruct (negb (PL.initialIndex (PL.props c) =? PL.initialIndex p')); cbn; auto.
Qed.

Lemma rerender_toggles_off (p' : PL.Props) (c : PL.Lightbox) :
  PL.isZoomed (PL.state c) = false -> PL.showThumbnails (PL.state c) = false ->
  PL.isZoomed (PL.state (PL.rerender p' c)) = false
  /\ PL.showThumbnails (PL.state (PL.rerender p' c)) = false.
Proof.
  intros Hz Ht. unfold PL.rerender. destruct (PL.mounted c) eqn:Hm.
  - rewrite commit_state by exact Hm.
    destruct (PL.throws p' (PL.state c)); [auto|].
    unfold PL.runEffects. cbn [PL.state]. unfold PL.scrollEffectState, PL.syncIndexEffect.
    repeat match goal with
           | |- context [if ?b then _ else _] => destruct b
           end; cbn; auto.
  - unfold PL.commit. rewrite Hm. auto.
Qed.

Lemma mountIn_toggles (d : PL.Document) (p : PL.Props) :
  PL.togglesOffWhenClosed (PL.mountIn d p).
Proof.
  unfold PL.togglesOffWhenClosed, PL.mountIn.
  destruct (PL.throws p _); cbn [PL.props PL.state]; [auto|].
  unfold PL.scrollEffectState. intros ->. split; reflexivity.
Qed.

Lemma step_toggles (e : PL.Event) (c : PL.Lightbox) :
  PL.consistent c -> PL.togglesOffWhenClosed c ->
  PL.togglesOffWhenClosed (PL.step e c).
Proof.
  intros Hc Hoff.
  destruct (PL.isInput e) eqn:Hin.
  - destruct (PL.isOpen (PL.props c)) eqn:Hopen.
    + destruct (PL.mounted c) eqn:Hm.
      * destruct (step_input_mounted c e Hc Hm Hin) as [_ Hp].
        intros Hclosed. rewrite Hp in Hclosed. congruence.
      * destruct (consistent_removed c Hc Hm) as (_ & Hk & Ht & _).
        replace (PL.step e c) with c; [exact Hoff|].
        destruct e as [key|startX endX|call|p']; cbn [PL.step];
          [| | |discriminate Hin].
        -- unfold PL.dispatchKeyDown. rewrite Hk. reflexivity.
        -- unfold PL.dispatchTouch. rewrite Ht. reflexivity.
        -- unfold PL.click, PL.clickable. rewrite Hm. reflexivity.
    + destruct (consistent_closed c Hc Hopen) as (_ & Hk & Ht).
      replace (PL.step e c) with c; [exact Hoff|].
      destruct e as [key|startX endX|call|p']; cbn [PL.step];
        [| | |discriminate Hin].
      * unfold PL.dispatchKeyDown. rewrite Hk. reflexivity.
      * unfold PL.dispatchTouch. rewrite Ht. reflexivity.
      * unfold PL.click, PL.clickable, PL.render. rewrite Hopen.
        cbn [negb orb]. rewrite andb_false_r. reflexivity.
  - destruct e as [key|startX endX|call|p']; try discriminate Hin.
    cbn [PL.step]. destruct (PL.mounted c) eqn:Hm; [|apply mountIn_toggles].
    intros Hclosed. unfold PL.rerender in *.
    rewrite commit_props in Hclosed by exact Hm.
    rewrite commit_state by exact Hm.
    rewrite (throws_closed _ _ Hclosed).
    apply runEffects_toggles_off; [exact Hoff|exact Hclosed].
Qed.

Lemma run_toggles (es : list PL.Event) (c : PL.Lightbox) :
  PL.consistent c -> PL.togglesOffWhenClosed c ->
  PL.togglesOffWhenClosed (PL.run es c).
Proof.
  revert c. induction es as [|e es IH]; intros c Hc Hoff; [exact Hoff|].
  unfold PL.run. cbn [fold_left]. apply IH.
  - apply step_consistent; exact Hc.
  - apply step_toggles; assumption.
Qed.

(** X4. A closed lightbox is never zoomed and never has its thumbnail
    strip on, whatever happened before it was closed; so every opening
    starts not zoomed and with the strip hidden. *)
Theorem sessions_start_unzoomed :
  forall (p : PL.Props) (es : list PL.Event),
    let c := PL.run es (PL.mount p) in
    PL.isOpen (PL.props c) = false ->
    (PL.isZoomed (PL.state c) = false /\ PL.showThumbnails (PL.state c) = false)
    /\ (forall p' : PL.Props,
          PL.isZoomed (PL.state (PL.rerender p' c)) = false
          /\ PL.showThumbnails (PL.state (PL.rerender p' c)) = false).
Proof.
  intros p es c Hclosed.
  assert (Hoff : PL.togglesOffWhenClosed c)
    by (apply run_toggles; [apply mount_consistent | apply mountIn_toggles]).
  destruct (Hoff Hclosed) as [Hz Ht]. split; [split; assumption|].
  intros p'. apply rerender_toggles_off; assumption.
Qed.

Lemma sessions_start_unzoomed_witness :
  let p := PL.openProps gallery3 0 in
  let es := [PL.KeyDown "z"; PL.KeyDown "t"; PL.KeyDown "ArrowRight"; PL.KeyDown "z";
             PL.Rerender (PL.closedProps p)] in
  PL.state (PL.run es (PL.mount p)) = PL.mkState 1 false false
  /\ PL.isZoomed (PL.state (PL.rerender (PL.openProps gallery3 2) (PL.run es (PL.mount p)))) = false.
Proof.
  intros p es. split; [reflexivity|].
  exact (proj1 (proj2 (sessions_start_unzoomed p es eq_refl) (PL.openProps gallery3 2))).
Defined.

(** ** The index prop is followed only when it changes *)

Lemma rerender_same_index_prop (c : PL.Lightbox) (p' : PL.Props) :
  PL.initialIndex p' = PL.initialIndex (PL.props c) ->
  PL.currentIndex (PL.state (PL.rerender p' c)) = PL.currentIndex (PL.state c).
Proof.
  intros Hsame. unfold PL.rerender. destruct (PL.mounted c) eqn:Hm.
  - rewrite commit_state by exact Hm.
    destruct (PL.throws p' (PL.state c)); [reflexivity|].
    rewrite runEffects_index, Hsame, Z.eqb_refl. reflexivity.
  - unfold PL.commit. rewrite Hm. reflexivity.
Qed.

(** X5. A render whose index prop equals the previous one keeps the current
    index, wherever navigation left it; when the new image set is non-empty
    and has no more images than that index, the open lightbox then fails
    on [currentImage.src] instead of showing an image. *)
Theorem unchanged_index_prop_keeps_index :
  forall (c : PL.Lightbox) (p' : PL.Props),
    PL.initialIndex p' = PL.initialIndex (PL.props c) ->
    PL.currentIndex (PL.state (PL.rerender p' c)) = PL.currentIndex (PL.state c)
    /\ (PL.isOpen p' = true -> PL.images p' <> [] ->
        len (PL.images p') <= PL.currentIndex (PL.state c) ->
        PL.render p' (PL.state (PL.rerender p' c)) = PL.RenderTypeError).
Proof.
  intros c p' Hsame.
  pose proof (rerender_same_index_prop c p' Hsame) as Hidx.
  split; [exact Hidx|].
  intros Hopen Hne Hlen. unfold PL.render. rewrite Hopen. cbn [negb orb].
  pose proof (len_pos _ Hne) as Hpos.
  destruct (Z.eqb_spec (len (PL.images p')) 0); [lia|].
  rewrite Hidx.
  assert (Hnone : at_index (PL.images p') (PL.currentIndex (PL.state c)) = None).
  { apply at_index_None. unfold inRange. lia. }
  rewrite Hnone. reflexivity.
Qed.

Lemma unchanged_index_prop_keeps_index_witness :
  let c := PL.run [PL.KeyDown "ArrowLeft"; PL.Rerender (PL.closedProps (PL.openProps gallery4 0))]
             (PL.mount (PL.openProps gallery4 0)) in
  PL.currentIndex (PL.state c) = 3
  /\ PL.currentIndex (PL.state (PL.rerender (PL.openProps gallery3 0) c)) = 3
  /\ PL.render (PL.openProps gallery3 0) (PL.state (PL.rerender (PL.openProps gallery3 0) c))
     = PL.RenderTypeError.
Proof.
  intros c. split; [reflexivity|].
  destruct (unchanged_index_prop_keeps_index c (PL.openProps gallery3 0) eq_refl)
    as [Hidx Hcrash].
  split; [exact Hidx|].
  apply Hcrash; [reflexivity|discriminate|].
  subst c. vm_compute. discriminate.
Defined.

(** ** What a mounted lightbox shows, and which renders keep it mounted *)

(** The first render, and a render by the owner, leave the component
    mounted exactly when no body they run reads outside the image set. *)
Lemma mountIn_mounted (d : PL.Document) (p : PL.Props) :
  PL.mounted (PL.mountIn d p) = true <->
  (PL.isOpen p = true -> 0 < len (PL.images p) ->
   inRange (len (PL.images p)) (PL.initialIndex p)).
Proof.
  unfold PL.mountIn.
  rewrite <- (throws_false p (PL.mkState (PL.initialIndex p) false false)).
  destruct (PL.throws p _); cbn [PL.mounted]; split; congruence.
Qed.

Lemma rerender_mounted (c : PL.Lightbox) (p' : PL.Props) :
  PL.mounted c = true ->
  PL.mounted (PL.rerender p' c) = true <->
  (PL.isOpen p' = true -> 0 < len (PL.images p') ->
   inRange (len (PL.images p')) (PL.currentIndex (PL.state c))
   /\ (PL.initialIndex p' <> PL.initialIndex (PL.props c) ->
       inRange (len (PL.images p')) (PL.initialIndex p'))).
Proof.
  intros Hm. unfold PL.rerender. rewrite commit_mounted by exact Hm.
  rewrite andb_true_iff, !negb_true_iff, !throws_false, runEffects_index.
  destruct (Z.eqb_spec (PL.initialIndex (PL.props c)) (PL.initialIndex p')) as [E|E].
  - split.
    + intros [H1 _] Hopen Hn. split; [auto|]. intros Hne. congruence.
    + intros H. split; intros Hopen Hn; apply (H Hopen Hn).
  - split.
    + intros [H1 H2] Hopen Hn. split; auto.
    + intros H. split; intros Hopen Hn; [apply (H Hopen Hn)|].
      apply (H Hopen Hn). congruence.
Qed.

(** X6. After any series of key presses, swipes, clicks and renders by
    the owner, a lightbox that is still mounted does not fail on its image
    lookup: it returns [null] or the image at the current index, and the
    position line it shows, when it shows one, is between 1 and the number
    of images. A render by the owner leaves it mounted exactly when the
    body does not read outside the new image set: the index held must be a
    position of the new set when the lightbox is open over a non-empty
    one, and so must the new index prop when it differs from the previous
    one. The first render of a lightbox that is not mounted succeeds
    exactly when its index prop is such a position. *)
Theorem mounted_lightbox_shows_image :
  forall (p : PL.Props) (es : list PL.Event),
    let c := PL.run es (PL.mount p) in
    (PL.mounted c = true ->
       PL.render (PL.props c) (PL.state c) <> PL.RenderTypeError
       /\ (PL.isOpen (PL.props c) = true -> PL.images (PL.props c) <> [] ->
           exists image : PortfolioImage,
             at_index (PL.images (PL.props c)) (PL.currentIndex (PL.state c)) = Some image
             /\ PL.render (PL.props c) (PL.state c) = PL.RenderImage (src image) (alt image))
       /\ (forall k n : Z,
             PL.positionLabel (PL.props c) (PL.state c) = Some (k, n) ->
             1 <= k <= n /\ n = len (PL.images (PL.props c)))
       /\ (forall p' : PL.Props,
             PL.mounted (PL.step (PL.Rerender p') c) = true <->
             (PL.isOpen p' = true -> 0 < len (PL.images p') ->
              inRange (len (PL.images p')) (PL.currentIndex (PL.state c))
              /\ (PL.initialIndex p' <> PL.initialIndex (PL.props c) ->
                  inRange (len (PL.images p')) (PL.initialIndex p')))))
    /\ (PL.mounted c = false ->
        forall p' : PL.Props,
          PL.mounted (PL.step (PL.Rerender p') c) = true <->
          (PL.isOpen p' = true -> 0 < len (PL.images p') ->
           inRange (len (PL.images p')) (PL.initialIndex p'))).
Proof.
  intros p es c.
  assert (Hc : PL.consistent c) by apply reachable_consistent.
  split.
  - intros Hm. destruct (consistent_mounted c Hc Hm) as (Hok & _).
    split; [|split; [|split]].
    + unfold PL.throws in Hok. intros E. rewrite E in Hok. discriminate Hok.
    + intros Hopen Hne. apply render_image; assumption.
    + intros k n. unfold PL.positionLabel.
      destruct (PL.render (PL.props c) (PL.state c)) as [|a b|] eqn:E; try discriminate.
      destruct (render_image_inv _ _ _ _ E) as [_ Hr].
      unfold PL.hasMultipleImages.
      destruct (Z.gtb_spec (len (PL.images (PL.props c))) 1) as [Hgt|Hle]; [|discriminate].
      intros [= <- <-]. unfold inRange in Hr. lia.
    + intros p'. cbn [PL.step]. rewrite Hm. apply rerender_mounted. exact Hm.
  - intros Hm p'. cbn [PL.step]. rewrite Hm. apply mountIn_mounted.
Qed.

Lemma mounted_lightbox_shows_image_witness :
  let c := PL.run [PL.KeyDown "ArrowLeft"; PL.Rerender (PL.closedProps (PL.openProps gallery4 0))]
             (PL.mount (PL.openProps gallery4 0)) in
  PL.currentIndex (PL.state c) = 3
  /\ PL.mounted (PL.step (PL.Rerender (PL.openProps gallery4 0)) c) = true
  /\ PL.mounted (PL.step (PL.Rerender (PL.openProps gallery3 1)) c) = false.
Proof.
  intros c. split; [reflexivity|].
  destruct (mounted_lightbox_shows_image (PL.openProps gallery4 0)
              [PL.KeyDown "ArrowLeft"; PL.Rerender (PL.closedProps (PL.openProps gallery4 0))])
    as (Hlive & _).
  destruct (Hlive eq_refl) as (_ & _ & _ & Hrender).
  split.
  - apply Hrender. intros _ _. split.
    + vm_compute. split; [discriminate|reflexivity].
    + intros Hne. exfalso. apply Hne. reflexivity.
  - destruct (PL.mounted (PL.step (PL.Rerender (PL.openProps gallery3 1)) c)) eqn:E;
      [|reflexivity].
    destruct (proj1 (Hrender _) E eq_refl eq_refl) as [[_ Hlt] _].
    vm_compute in Hlt. discriminate Hlt.
Defined.

(** ** Keys, swipes and arrows *)

(** X7. On a mounted, open lightbox the three ways to navigate agree: a
    leftward swipe of more than 50 units, the ArrowRight key and a click
    on the next arrow (shown when there is more than one image) all leave
    the state [goToNext] gives; a rightward swipe, ArrowLeft and the
    previous arrow all leave the state [goToPrevious] gives. A lightbox
    whose body has thrown is not mounted any more, and there all three
    are ignored alike. *)
Theorem swipe_key_click_agree :
  forall (p : PL.Props) (es : list PL.Event) (startX endX : Z),
    let c := PL.run es (PL.mount p) in
    let imgs := PL.images (PL.props c) in
    PL.isOpen (PL.props c) = true ->
    (PL.mounted c = true ->
     (PL.state (PL.step (PL.KeyDown "ArrowRight") c) = PL.goToNext imgs (PL.state c)
      /\ PL.state (PL.step (PL.KeyDown "ArrowLeft") c) = PL.goToPrevious imgs (PL.state c))
     /\ (startX - endX > 50 ->
         PL.state (PL.step (PL.TouchSwipe startX endX) c) = PL.goToNext imgs (PL.state c))
     /\ (endX - startX > 50 ->
         PL.state (PL.step (PL.TouchSwipe startX endX) c) = PL.goToPrevious imgs (PL.state c))
     /\ (PL.hasMultipleImages (PL.props c) = true ->
         PL.state (PL.step (PL.Click PL.GoToNext) c) = PL.goToNext imgs (PL.state c)
         /\ PL.state (PL.step (PL.Click PL.GoToPrevious) c) = PL.goToPrevious imgs (PL.state c)))
    /\ (PL.mounted c = false ->
        forall e : PL.Event, PL.isInput e = true -> PL.step e c = c).
Proof.
  intros p es startX endX c imgs Hopen.
  assert (Hc : PL.consistent c) by apply reachable_consistent.
  split.
  - intros Hm.
    destruct (consistent_mounted c Hc Hm) as (Hok & [Hk Ht] & _).
    rewrite Hopen in Hk, Ht.
    split; [|split; [|split]].
    + split; (rewrite step_state by auto); cbn [PL.callsOf];
        rewrite Hk, Hopen; reflexivity.
    + intros Hleft. rewrite step_state by auto. cbn [PL.callsOf]. rewrite Ht.
      destruct (lightbox_gesture_cases startX endX (PL.vars c)) as (_ & Hn & _).
      rewrite (Hn Hleft). reflexivity.
    + intros Hright. rewrite step_state by auto. cbn [PL.callsOf]. rewrite Ht.
      destruct (lightbox_gesture_cases startX endX (PL.vars c)) as (_ & _ & Hn & _).
      rewrite (Hn Hright). reflexivity.
    + intros Hmany.
      assert (Hne : PL.images (PL.props c) <> []).
      { intros Hnil. unfold PL.hasMultipleImages in Hmany. rewrite Hnil in Hmany.
        discriminate Hmany. }
      destruct (render_image _ _ Hopen Hne Hok) as (image & _ & Hshown).
      split; (rewrite step_state by auto); cbn [PL.callsOf];
        unfold PL.clickable; rewrite Hm, Hshown, Hmany; reflexivity.
  - intros Hm e Hin.
    destruct (consistent_removed c Hc Hm) as (_ & Hk & Ht & _).
    destruct e as [key|sx ex|call|p']; cbn [PL.step]; [| | |discriminate Hin].
    + unfold PL.dispatchKeyDown. rewrite Hk. reflexivity.
    + unfold PL.dispatchTouch. rewrite Ht. reflexivity.
    + unfold PL.click, PL.clickable. rewrite Hm. reflexivity.
Qed.

Lemma swipe_key_click_agree_witness :
  let c := PL.run [PL.KeyDown "z"] (PL.mount (PL.openProps gallery3 2)) in
  let gone := PL.run [PL.Rerender (PL.openProps gallery3 7)] (PL.mount (PL.openProps gallery3 2)) in
  PL.state (PL.step (PL.KeyDown "ArrowRight") c) = PL.mkState 0 false false
  /\ PL.state (PL.step (PL.TouchSwipe 300 200) c) = PL.mkState 0 false false
  /\ PL.state (PL.step (PL.Click PL.GoToNext) c) = PL.mkState 0 false false
  /\ PL.mounted gone = false
  /\ PL.step (PL.KeyDown "ArrowRight") gone = gone.
Proof.
  intros c gone.
  destruct (proj1 (swipe_key_click_agree (PL.openProps gallery3 2) [PL.KeyDown "z"] 300 200
                     eq_refl) eq_refl)
    as ((Hkey & _) & Hswipe & _ & Hclick).
  split; [exact Hkey|]. split; [apply Hswipe; lia|].
  split; [apply Hclick; reflexivity|]. split; [reflexivity|].
  apply (proj2 (swipe_key_click_agree (PL.openProps gallery3 2)
                  [PL.Rerender (PL.openProps gallery3 7)] 300 200 eq_refl) eq_refl).
  reflexivity.
Defined.

(** A key that only flips a toggle, on a mounted and open lightbox. *)
Lemma toggle_key_step (c : PL.Lightbox) (key : string) (f : PL.State -> PL.State) :
  PL.mounted c = true -> PL.isOpen (PL.props c) = true ->
  PL.keydownListener (PL.document c) = true ->
  PL.throws (PL.props c) (PL.state c) = false ->
  (forall s : PL.State,
      PL.performAll (PL.images (PL.props c)) (PL.handleKeyDown true key) s = f s
      /\ PL.currentIndex (f s) = PL.currentIndex s) ->
  PL.step (PL.KeyDown key) c
  = PL.mkLightbox true (PL.props c) (f (PL.state c)) (PL.vars c) (PL.document c).
Proof.
  intros Hm Hopen Hk Hok Hf. destruct (Hf (PL.state c)) as [Hcalls Hidx].
  assert (Hok' : PL.throws (PL.props c) (f (PL.state c)) = false).
  { rewrite <- Hok. apply throws_same_index. exact Hidx. }
  cbn [PL.step]. unfold PL.dispatchKeyDown, PL.afterCalls. rewrite Hk, Hopen, Hcalls.
  unfold PL.commit. rewrite Hm, Hok'. cbn [negb].
  unfold PL.settle. rewrite runEffects_props, runEffects_same_props, Hok'.
  unfold PL.runEffects, PL.keyboardDepsChanged, PL.touchDepsChanged,
    PL.openChanged, PL.lengthChanged, PL.keyboardEffect.
  cbn [PL.props PL.state PL.vars PL.document].
  rewrite !Z.eqb_refl, !eqb_reflx, Nat.eqb_refl, Hopen. cbn [negb orb].
  destruct c as [m pr s v [o k tl]]. cbn in *. subst k.
  f_equal.
  destruct (negb (Bool.eqb (PL.isZoomed s) (PL.isZoomed (f s)))
            || negb (Bool.eqb (PL.showThumbnails s) (PL.showThumbnails (f s))) || false);
    reflexivity.
Qed.

(** X8. On an open lightbox pressing [z] twice, or [t] twice, gives back
    the component exactly as it was: state, closure variables, scroll lock
    and listeners. *)
Theorem toggle_keys_are_involutions :
  forall (p : PL.Props) (es : list PL.Event),
    let c := PL.run es (PL.mount p) in
    PL.isOpen (PL.props c) = true ->
    PL.step (PL.KeyDown "z") (PL.step (PL.KeyDown "z") c) = c
    /\ PL.step (PL.KeyDown "t") (PL.step (PL.KeyDown "t") c) = c.
Proof.
  intros p es c Hopen.
  assert (Hc : PL.consistent c) by apply reachable_consistent.
  destruct (PL.mounted c) eqn:Hm.
  - destruct (consistent_mounted c Hc Hm) as (Hok & [Hk _] & _).
    rewrite Hopen in Hk.
    assert (Htwice : forall (key : string) (f : PL.State -> PL.State),
               (forall s : PL.State,
                   PL.performAll (PL.images (PL.props c)) (PL.handleKeyDown true key) s = f s
                   /\ PL.currentIndex (f s) = PL.currentIndex s) ->
               f (f (PL.state c)) = PL.state c ->
               PL.step (PL.KeyDown key) (PL.step (PL.KeyDown key) c) = c).
    { intros key f Hf Hinv.
      rewrite (toggle_key_step c key f) by assumption.
      rewrite (toggle_key_step _ key f); cbn [PL.mounted PL.props PL.state PL.vars PL.document];
        try assumption; try reflexivity.
      - rewrite Hinv. destruct c. cbn in Hm. subst. reflexivity.
      - rewrite <- Hok. apply throws_same_index. apply Hf. }
    split.
    + apply (Htwice "z" PL.toggleZoom).
      * intros s. split; reflexivity.
      * destruct (PL.state c) as [i z t]. unfold PL.toggleZoom. cbn.
        rewrite negb_involutive. reflexivity.
    + apply (Htwice "t" PL.toggleThumbnails).
      * intros s. split; reflexivity.
      * destruct (PL.state c) as [i z t]. unfold PL.toggleThumbnails. cbn.
        rewrite negb_involutive. reflexivity.
  - destruct (consistent_removed c Hc Hm) as (_ & Hk & _).
    split; cbn [PL.step]; unfold PL.dispatchKeyDown; rewrite !Hk; reflexivity.
Qed.

Lemma toggle_keys_are_involutions_witness :
  let c := PL.run [PL.KeyDown "ArrowRight"; PL.KeyDown "t"] (PL.mount (PL.openProps gallery3 0)) in
  PL.step (PL.KeyDown "z") (PL.step (PL.KeyDown "z") c) = c.
Proof.
  intros c.
  exact (proj1 (toggle_keys_are_involutions (PL.openProps gallery3 0)
                  [PL.KeyDown "ArrowRight"; PL.KeyDown "t"] eq_refl)).
Defined.

(** * The card sliders *)

Lemma cardIndexOk_pos (n i : Z) : 0 < n -> cardIndexOk n i <-> inRange n i.
Proof.
  intros Hn. unfold cardIndexOk. destruct (Z.eqb_spec n 0); [lia|tauto].
Qed.

Lemma cardIndexOk_lookup (imgs : list PortfolioImage) (i : Z) :
  cardIndexOk (len imgs) i -> (at_index imgs i = None <-> imgs = []).
Proof.
  unfold cardIndexOk. intros Hok. rewrite at_index_None.
  destruct (Z.eqb_spec (len imgs) 0) as [E|E].
  - assert (imgs = []) as -> by (destruct imgs; [reflexivity | unfold len in E; cbn in E; lia]).
    split; [reflexivity|]. intros _. unfold inRange, len. cbn. lia.
  - split; [contradiction|]. intros ->. exfalso. apply E. reflexivity.
Qed.

Lemma PC_many_pos (imgs : list PortfolioImage) :
  PC.hasMultipleImages imgs = true -> 0 < len imgs.
Proof. unfold PC.hasMultipleImages. lia. Qed.

Section PortfolioCardInvariant.

Variable imgs : list PortfolioImage.

Let ok (s : PC.State) : Prop := cardIndexOk (len imgs) (PC.currentImageIndex s).

Lemma PC_goToNext_ok (s : PC.State) :
  PC.hasMultipleImages imgs = true -> ok s -> ok (PC.goToNext imgs s).
Proof.
  intros Hm. pose proof (PC_many_pos imgs Hm) as Hn. unfold ok.
  rewrite !cardIndexOk_pos by exact Hn. unfold inRange. cbn.
  destruct (Z.eqb_spec (PC.currentImageIndex s) (len imgs - 1)); lia.
Qed.

Lemma PC_goToPrevious_ok (s : PC.State) :
  PC.hasMultipleImages imgs = true -> ok s -> ok (PC.goToPrevious imgs s).
Proof.
  intros Hm. pose proof (PC_many_pos imgs Hm) as Hn. unfold ok.
  rewrite !cardIndexOk_pos by exact Hn. unfold inRange. cbn.
  destruct (Z.eqb_spec (PC.currentImageIndex s) 0); lia.
Qed.

Lemma PC_touched_index (startX : Z) (moves : list Z) (s : PC.State) :
  PC.currentImageIndex (PC.touched startX moves s) = PC.currentImageIndex s.
Proof.
  unfold PC.touched.
  induction moves as [|x moves IH] using rev_ind; [reflexivity|].
  rewrite fold_left_app. exact IH.
Qed.

Lemma PC_swipe_ok (s1 : PC.State) :
  ok s1 -> ok (PC.performAll imgs (PC.onTouchEnd imgs s1) s1).
Proof.
  intros Hok. destruct (PC.hasMultipleImages imgs) eqn:Hm.
  - unfold PC.onTouchEnd. rewrite Hm, !andb_true_r.
    repeat match goal with
           | |- context [if ?b then _ else _] => destruct b
           end; cbn; auto using PC_goToNext_ok, PC_goToPrevious_ok.
  - rewrite card_single_image_no_call by exact Hm. exact Hok.
Qed.

Lemma PC_step_ok (e : CardEvent) (s : PC.State) :
  ok s ->
  ok (fst (PC.step imgs e s))
  /\ Forall (cardIndexOk (len imgs)) (snd (PC.step imgs e s)).
Proof.
  intros Hok. destruct e as [startX moves| | |index|key|]; cbn [PC.step].
  - split; [|constructor]. cbn [fst]. apply PC_swipe_ok. unfold ok.
    rewrite PC_touched_index. exact Hok.
  - destruct (PC.hasMultipleImages imgs) eqn:Hm; split; cbn; auto using PC_goToPrevious_ok.
  - destruct (PC.hasMultipleImages imgs) eqn:Hm; split; cbn; auto using PC_goToNext_ok.
  - destruct (PC.hasMultipleImages imgs && (0 <=? index) && (index <? len imgs)) eqn:E;
      split; cbn; auto.
    apply andb_prop in E as [E Hhi]. apply andb_prop in E as [Hm Hlo].
    unfold ok. rewrite cardIndexOk_pos by (apply PC_many_pos; exact Hm).
    unfold inRange. cbn. lia.
  - unfold PC.handleKeyDown.
    destruct (String.eqb key "Enter" || String.eqb key " "); [split; cbn; auto|].
    destruct (String.eqb key "ArrowLeft" && PC.hasMultipleImages imgs) eqn:El.
    { apply andb_prop in El as [_ Hm]. split; [|constructor].
      exact (PC_goToPrevious_ok s Hm Hok). }
    destruct (String.eqb key "ArrowRight" && PC.hasMultipleImages imgs) eqn:Er.
    { apply andb_prop in Er as [_ Hm]. split; [|constructor].
      exact (PC_goToNext_ok s Hm Hok). }
    split; cbn; auto.
  - split; cbn; auto.
Qed.

Lemma PC_run_ok (es : list CardEvent) (s : PC.State) :
  ok s ->
  ok (fst (PC.run imgs es s))
  /\ Forall (cardIndexOk (len imgs)) (snd (PC.run imgs es s)).
Proof.
  revert s. induction es as [|e es IH]; intros s Hok.
  - split; [exact Hok|constructor].
  - cbn [PC.run]. destruct (PC_step_ok e s Hok) as [H1 Hout1].
    destruct (PC.step imgs e s) as [s1 out1]. cbn [fst snd] in H1, Hout1.
    destruct (IH s1 H1) as [H2 Hout2].
    destruct (PC.run imgs es s1) as [s2 out2]. cbn [fst snd] in *.
    split; [exact H2|]. apply Forall_app. split; assumption.
Qed.

End PortfolioCardInvariant.

(** X9. Whatever sequence of swipes, arrow and dot clicks, key presses and
    card clicks a portfolio card receives, its image index stays a
    position of its image set (0 when it has no image), every index it
    hands to [onImageClick] is such an index, and the empty fallback image
    is shown exactly when the card has no image. *)
Theorem portfolio_card_index_valid :
  forall (imgs : list PortfolioImage) (es : list CardEvent),
    let s := fst (PC.run imgs es PC.initialState) in
    let clicks := snd (PC.run imgs es PC.initialState) in
    (imgs <> [] -> inRange (len imgs) (PC.currentImageIndex s))
    /\ (imgs = [] -> PC.currentImageIndex s = 0)
    /\ Forall (fun i => if len imgs =? 0 then i = 0 else inRange (len imgs) i) clicks
    /\ (at_index imgs (PC.currentImageIndex s) = None <-> imgs = [])
    /\ (imgs <> [] -> In (PC.currentImage imgs s) imgs).
Proof.
  intros imgs es s clicks.
  assert (H0 : cardIndexOk (len imgs) (PC.currentImageIndex PC.initialState)).
  { unfold cardIndexOk, inRange. cbn. pose proof (Nat2Z.is_nonneg (length imgs)).
    unfold len. destruct (Z.eqb_spec (Z.of_nat (length imgs)) 0); lia. }
  destruct (PC_run_ok imgs es PC.initialState H0) as [Hs Hout].
  fold s in Hs. fold clicks in Hout.
  split; [|split; [|split; [|split]]].
  - intros Hne. apply cardIndexOk_pos; [apply len_pos; exact Hne | exact Hs].
  - intros ->. exact Hs.
  - exact Hout.
  - apply cardIndexOk_lookup. exact Hs.
  - intros Hne. unfold PC.currentImage.
    destruct (at_index imgs (PC.currentImageIndex s)) as [image|] eqn:E.
    + unfold at_index in E. destruct (decide (0 <= PC.currentImageIndex s)); [|discriminate].
      apply list_elem_of_In. eapply list_elem_of_lookup_2. exact E.
    + apply (cardIndexOk_lookup imgs _ Hs) in E. contradiction.
Qed.

(** X10. A touch without any move (a tap) never changes the image of a
    card and makes no navigation call, whatever coordinates an earlier
    gesture left behind: [touchstart] clears the recorded end. *)
Theorem card_tap_does_not_navigate :
  forall (imgs : list PortfolioImage) (data : SC.CardData) (startX : Z)
         (s : PC.State) (t : SC.State),
    PC.touchGesture imgs startX [] s = []
    /\ PC.currentImageIndex (fst (PC.step imgs (CardSwipe startX []) s)) = PC.currentImageIndex s
    /\ SC.touchGesture data startX [] t = []
    /\ SC.currentImageIndex (fst (SC.step data (CardSwipe startX []) t)) = SC.currentImageIndex t.
Proof.
  intros imgs data startX s t.
  assert (HP : PC.touchGesture imgs startX [] s = []).
  { unfold PC.touchGesture, PC.onTouchEnd. cbn. rewrite orb_true_r. reflexivity. }
  assert (HS : SC.touchGesture data startX [] t = []).
  { unfold SC.touchGesture, SC.onTouchEnd. cbn. rewrite orb_true_r. reflexivity. }
  split; [exact HP|]. split; [|split; [exact HS|]].
  - cbn [PC.step fst]. unfold PC.touchGesture in HP. rewrite HP. reflexivity.
  - cbn [SC.step fst]. unfold SC.touchGesture in HS. rewrite HS. reflexivity.
Qed.

(** X11. The outcome of a card gesture depends only on where the finger
    went down and on the last move: neither the moves in between nor the
    coordinates recorded before the gesture change the calls made or the
    image reached. *)
Theorem card_swipe_depends_on_endpoints :
  forall (imgs : list PortfolioImage) (startX endX : Z) (moves : list Z)
         (s s' : PC.State),
    PC.touchGesture imgs startX (moves ++ [endX]) s
      = PC.touchGesture imgs startX [endX] s'
    /\ (PC.currentImageIndex s = PC.currentImageIndex s' ->
        PC.currentImageIndex (fst (PC.step imgs (CardSwipe startX (moves ++ [endX])) s))
        = PC.currentImageIndex (fst (PC.step imgs (CardSwipe startX [endX]) s'))).
Proof.
  intros imgs startX endX moves s s'.
  pose proof (PC_touched_start startX (moves ++ [endX]) s) as H1.
  pose proof (PC_touched_end startX endX moves s) as H2.
  pose proof (PC_touched_index startX (moves ++ [endX]) s) as H3.
  assert (Hcalls : PC.touchGesture imgs startX (moves ++ [endX]) s
                   = PC.touchGesture imgs startX [endX] s').
  { unfold PC.touchGesture, PC.onTouchEnd. rewrite H1, H2. reflexivity. }
  split; [exact Hcalls|].
  intros Hidx. cbn [PC.step fst]. unfold PC.touchGesture in Hcalls. rewrite Hcalls.
  generalize (PC.onTouchEnd imgs (PC.touched startX [endX] s')). intros cs.
  assert (Hgen : forall (a b : PC.State),
             PC.currentImageIndex a = PC.currentImageIndex b ->
             PC.currentImageIndex (PC.performAll imgs cs a)
             = PC.currentImageIndex (PC.performAll imgs cs b)).
  { induction cs as [|c cs IH]; intros a b Hab; [exact Hab|].
    unfold PC.performAll. cbn [fold_left]. apply IH.
    destruct c; cbn; rewrite Hab; reflexivity. }
  apply Hgen. rewrite H3. cbn. exact Hidx.
Qed.

Lemma card_swipe_depends_on_endpoints_witness :
  PC.currentImageIndex
    (fst (PC.step gallery3 (CardSwipe 200 ([150; 260; 90] ++ [100]))
            (PC.mkState 1 (Some 7) (Some 900))))
  = PC.currentImageIndex (fst (PC.step gallery3 (CardSwipe 200 [100]) (PC.mkState 1 None None))).
Proof.
  apply (card_swipe_depends_on_endpoints gallery3 200 100 [150; 260; 90]
           (PC.mkState 1 (Some 7) (Some 900)) (PC.mkState 1 None None)).
  reflexivity.
Defined.

(** ** The two cards are the same slider *)

Lemma PC_touched_eq (startX : Z) (moves : list Z) (s : PC.State) :
  PC.touched startX moves s
  = PC.mkState (PC.currentImageIndex s) (Some startX) (last moves).
Proof.
  unfold PC.touched.
  induction moves as [|x moves IH] using rev_ind; [reflexivity|].
  rewrite fold_left_app, IH, last_snoc. reflexivity.
Qed.

Lemma SC_touched_eq (startX : Z) (moves : list Z) (s : SC.State) :
  SC.touched startX moves s
  = SC.mkState (SC.currentImageIndex s) (Some startX) (last moves).
Proof.
  unfold SC.touched.
  induction moves as [|x moves IH] using rev_ind; [reflexivity|].
  rewrite fold_left_app, IH, last_snoc. reflexivity.
Qed.

Lemma cards_step_agree (data : SC.CardData) (e : CardEvent) (i : Z) (a b : option Z) :
  SC.sameAs (fst (SC.step data e (SC.mkState i a b)))
            (fst (PC.step (SC.imagesOf data) e (PC.mkState i a b)))
  /\ snd (SC.step data e (SC.mkState i a b))
     = snd (PC.step (SC.imagesOf data) e (PC.mkState i a b)).
Proof.
  unfold SC.sameAs.
  destruct e as [startX moves| | |index|key|]; cbn [SC.step PC.step].
  - rewrite SC_touched_eq, PC_touched_eq.
    unfold SC.onTouchEnd, PC.onTouchEnd, SC.hasMultipleImages, PC.hasMultipleImages,
      SC.minSwipeDistance, PC.minSwipeDistance.
    cbn [SC.touchStart SC.touchEnd PC.touchStart PC.touchEnd SC.currentImageIndex
         PC.currentImageIndex].
    repeat match goal with
           | |- context [if ?c then _ else _] => destruct c
           end; cbn; repeat split; reflexivity.
  - unfold SC.hasMultipleImages, PC.hasMultipleImages.
    destruct (len (SC.imagesOf data) >? 1); cbn; repeat split; reflexivity.
  - unfold SC.hasMultipleImages, PC.hasMultipleImages.
    destruct (len (SC.imagesOf data) >? 1); cbn; repeat split; reflexivity.
  - unfold SC.hasMultipleImages, PC.hasMultipleImages.
    destruct ((len (SC.imagesOf data) >? 1) && (0 <=? index)
              && (index <? len (SC.imagesOf data))); cbn; repeat split; reflexivity.
  - unfold SC.handleKeyDown, PC.handleKeyDown, SC.hasMultipleImages, PC.hasMultipleImages,
      SC.goToPrevious, SC.goToNext.
    cbn [SC.touchStart SC.touchEnd PC.touchStart PC.touchEnd SC.currentImageIndex
         PC.currentImageIndex].
    repeat match goal with
           | |- context [if ?c then _ else _] => destruct c
           end; cbn; repeat split; reflexivity.
  - cbn. repeat split; reflexivity.
Qed.

Lemma cards_run_agree (data : SC.CardData) (es : list CardEvent)
    (s : SC.State) (t : PC.State) :
  SC.sameAs s t ->
  SC.sameAs (fst (SC.run data es s)) (fst (PC.run (SC.imagesOf data) es t))
  /\ snd (SC.run data es s) = snd (PC.run (SC.imagesOf data) es t).
Proof.
  revert s t. induction es as [|e es IH]; intros s t Hst.
  - split; [exact Hst|reflexivity].
  - destruct s as [i a b], t as [i' a' b']. destruct Hst as (Hi & Ha & Hb).
    cbn in Hi, Ha, Hb. subst i' a' b'.
    cbn [SC.run PC.run].
    destruct (cards_step_agree data e i a b) as [H1 Hout1].
    destruct (SC.step data e (SC.mkState i a b)) as [s1 out1].
    destruct (PC.step (SC.imagesOf data) e (PC.mkState i a b)) as [t1 out1'].
    cbn [fst snd] in H1, Hout1. subst out1'.
    destruct (IH s1 t1 H1) as [H2 Hout2].
    destruct (SC.run data es s1) as [s2 out2].
    destruct (PC.run (SC.imagesOf data) es t1) as [t2 out2'].
    cbn [fst snd] in *. subst out2'. split; [exact H2|reflexivity].
Qed.

(** X12. The slider card and the portfolio card are the same slider: given
    the same images and the same events they go through the same image
    indices and recorded touches, and hand the same indices to
    [onImageClick]; in particular the arrow keys, which one card handles
    inline and the other through [goToPrevious] and [goToNext], agree. *)
Theorem slider_card_matches_portfolio_card :
  forall (data : SC.CardData) (es : list CardEvent),
    let s := fst (SC.run data es SC.initialState) in
    let t := fst (PC.run (SC.imagesOf data) es PC.initialState) in
    SC.currentImageIndex s = PC.currentImageIndex t
    /\ SC.touchStart s = PC.touchStart t
    /\ SC.touchEnd s = PC.touchEnd t
    /\ snd (SC.run data es SC.initialState)
       = snd (PC.run (SC.imagesOf data) es PC.initialState).
Proof.
  intros data es s t.
  destruct (cards_run_agree data es SC.initialState PC.initialState) as [(Hi & Ha & Hb) Hout].
  - repeat split.
  - repeat split; assumption.
Qed.

Lemma slider_card_index_ok (data : SC.CardData) (es : list CardEvent) :
  cardIndexOk (len (SC.imagesOf data))
    (SC.currentImageIndex (fst (SC.run data es SC.initialState)))
  /\ Forall (cardIndexOk (len (SC.imagesOf data))) (snd (SC.run data es SC.initialState)).
Proof.
  destruct (cards_run_agree data es SC.initialState PC.initialState)
    as [(Hi & _ & _) Hout]; [repeat split|].
  rewrite Hi, Hout. apply PC_run_ok.
  unfold cardIndexOk, inRange, len. cbn.
  destruct (Z.eqb_spec (Z.of_nat (length (SC.imagesOf data))) 0); lia.
Qed.

(** X13. A slider card given only the legacy [image] (no [images] array)
    always shows that one image, with the card title as its alternative
    text, and never leaves index 0, whatever the user does; given an
    empty [images] array it shows the empty fallback even when a legacy
    [image] is there. *)
Theorem legacy_image_card :
  forall (data : SC.CardData) (es : list CardEvent),
    let s := fst (SC.run data es SC.initialState) in
    (forall url : string,
        SC.images data = None -> SC.image data = Some url -> url <> EmptyString ->
        SC.currentImageIndex s = 0
        /\ SC.currentImage data s
           = mkImage url (SC.title data) (Some (SC.title data)) (Some (SC.description data)))
    /\ (SC.images data = Some [] ->
        SC.currentImageIndex s = 0 /\ SC.currentImage data s = SC.fallbackImage data).
Proof.
  intros data es s.
  destruct (slider_card_index_ok data es) as [Hok _]. fold s in Hok.
  split.
  - intros url Hnone Hurl Hne.
    assert (Himgs : SC.imagesOf data
                    = [mkImage url (SC.title data) (Some (SC.title data))
                               (Some (SC.description data))]).
    { unfold SC.imagesOf. rewrite Hnone, Hurl.
      destruct (String.eqb_spec url EmptyString); [contradiction|reflexivity]. }
    rewrite Himgs in Hok. unfold cardIndexOk, inRange, len in Hok.
    change (Z.of_nat (length [mkImage url (SC.title data) (Some (SC.title data))
                                      (Some (SC.description data))])) with 1 in Hok.
    cbn [Z.eqb] in Hok.
    assert (Hz : SC.currentImageIndex s = 0) by lia.
    split; [exact Hz|]. unfold SC.currentImage. rewrite Himgs, Hz. reflexivity.
  - intros Hempty.
    assert (Himgs : SC.imagesOf data = []) by (unfold SC.imagesOf; rewrite Hempty; reflexivity).
    rewrite Himgs in Hok. unfold cardIndexOk in Hok. cbn in Hok.
    split; [exact Hok|]. unfold SC.currentImage. rewrite Himgs, Hok. reflexivity.
Qed.

Lemma legacy_image_card_witness :
  let data := SC.mkCardData "Look" "Festival look" (Some "look.jpg") None in
  let es := [CardSwipe 300 [100]; CardKeyDown "ArrowRight"; CardClickNext] in
  SC.currentImageIndex (fst (SC.run data es SC.initialState)) = 0
  /\ SC.currentImage data (fst (SC.run data es SC.initialState))
     = mkImage "look.jpg" "Look" (Some "Look") (Some "Festival look").
Proof.
  intros data es.
  apply (proj1 (legacy_image_card data es) "look.jpg"); [reflexivity|reflexivity|discriminate].
Defined.

(** * The simple lightbox and its owners *)

(** X14. The heading of the simple lightbox is never empty: it is the
    caption of the image when that is a non-empty string, else the title
    passed by the owner when that is one, else "Portfolio Image"; and the
    paragraph under it, when shown, is never empty either. *)
Theorem lightbox_heading_never_empty :
  forall (p : EnhancedLightbox.Props) (image : PortfolioImage),
    (exists h : string,
        EnhancedLightboxView.heading p image = Some h /\ h <> EmptyString)
    /\ (truthyString (caption image) = true ->
        EnhancedLightboxView.heading p image = caption image)
    /\ (truthyString (caption image) = false ->
        truthyString (EnhancedLightbox.title p) = true ->
        EnhancedLightboxView.heading p image = EnhancedLightbox.title p)
    /\ (truthyString (caption image) = false ->
        truthyString (EnhancedLightbox.title p) = false ->
        EnhancedLightboxView.heading p image = Some "Portfolio Image")
    /\ (forall text : string,
          EnhancedLightboxView.paragraph p image = Some text -> text <> EmptyString).
Proof.
  intros p image.
  assert (Htruthy : forall x : option string,
             truthyString x = true -> exists v, x = Some v /\ v <> EmptyString).
  { intros [v|] H; [|discriminate]. exists v. split; [reflexivity|].
    cbn in H. destruct (String.eqb_spec v EmptyString); [discriminate|assumption]. }
  unfold EnhancedLightboxView.heading, EnhancedLightboxView.paragraph, orString.
  split; [|split; [|split; [|split]]].
  - destruct (truthyString (caption image)) eqn:Ec.
    + rewrite Ec. exact (Htruthy _ Ec).
    + destruct (truthyString (EnhancedLightbox.title p)) eqn:Et.
      * exact (Htruthy _ Et).
      * exists "Portfolio Image". split; [reflexivity|discriminate].
  - intros Ec. rewrite Ec, Ec. reflexivity.
  - intros Ec Et. rewrite Ec, Et. reflexivity.
  - intros Ec Et. rewrite Ec, Et. reflexivity.
  - intros text. cbv zeta.
    destruct (truthyString (if truthyString (description image)
                            then description image
                            else EnhancedLightbox.description p)) eqn:E; [|discriminate].
    intros Heq. rewrite Heq in E. destruct (Htruthy _ E) as (v & [= <-] & Hv). exact Hv.
Qed.

Lemma lightbox_heading_never_empty_witness :
  EnhancedLightboxView.heading
    (EnhancedLightbox.mkProps true gallery3 0 (Some "Showcase") None)
    (mkImage "a" "a" (Some EmptyString) None)
  = Some "Showcase".
Proof.
  apply (lightbox_heading_never_empty
           (EnhancedLightbox.mkProps true gallery3 0 (Some "Showcase") None)
           (mkImage "a" "a" (Some EmptyString) None)); reflexivity.
Defined.

(** ** The mosaic *)

Lemma mosaic_setLightbox_consistent (l' : PortfolioMosaic.LightboxState) (a : MA.App) :
  MA.consistent a ->
  (PortfolioMosaic.isOpen l' = true ->
   PortfolioMosaic.images l' = MA.lightboxImages
   /\ inRange 6 (PortfolioMosaic.currentIndex l')) ->
  MA.consistent (MA.setLightbox l' a).
Proof.
  unfold MA.consistent, MA.setLightbox. cbn [MA.lightbox MA.document].
  intros (_ & _ & Ho & Hk) Hl'.
  unfold EnhancedLightboxView.commit, EnhancedLightboxView.keyboardEffect,
    EnhancedLightboxView.scrollEffect.
  rewrite orb_true_r.
  cbn [EnhancedLightboxView.bodyOverflow EnhancedLightboxView.keydownListener
       PortfolioMosaic.lightboxProps EnhancedLightbox.isOpen].
  destruct (PortfolioMosaic.isOpen l') eqn:E', (PortfolioMosaic.isOpen (MA.lightbox a)) eqn:E;
    rewrite ?E in Ho; cbn [Bool.eqb negb];
    cbn [EnhancedLightboxView.bodyOverflow EnhancedLightboxView.keydownListener];
    repeat split; try (apply Hl'; reflexivity); try discriminate; try exact Ho.
Qed.

Lemma mosaic_tileOpen_consistent (t : MA.Tile) (a : MA.App) :
  MA.consistent a -> MA.consistent (MA.tileOpen t a).
Proof.
  intros Ha. apply mosaic_setLightbox_consistent; [exact Ha|].
  intros _. split; [reflexivity|]. destruct t; unfold inRange; cbn; lia.
Qed.

Lemma mosaic_close_consistent (a : MA.App) :
  MA.consistent a -> MA.consistent (MA.close a).
Proof.
  intros Ha. apply mosaic_setLightbox_consistent; [exact Ha|]. discriminate.
Qed.

Lemma mosaic_documentKeyDown_consistent (key : string) (a : MA.App) :
  MA.consistent a -> MA.consistent (MA.documentKeyDown key a).
Proof.
  intros Ha. unfold MA.documentKeyDown.
  destruct (EnhancedLightboxView.keydownListener (MA.document a)); [|exact Ha].
  unfold EnhancedLightbox.handleKeyDown.
  repeat match goal with
         | |- context [if ?b then _ else _] => destruct b
         end; cbn [Nat.iter nat_rect]; auto using mosaic_close_consistent.
Qed.

Lemma mosaic_step_consistent (e : MA.Event) (a : MA.App) :
  MA.consistent a -> MA.consistent (MA.step e a).
Proof.
  intros Ha. destruct e as [t|t key|key| | |]; cbn [MA.step].
  - apply mosaic_tileOpen_consistent; exact Ha.
  - unfold MA.tileKeyDown. apply mosaic_documentKeyDown_consistent.
    destruct (String.eqb key "Enter" || String.eqb key " ");
      [apply mosaic_tileOpen_consistent|]; exact Ha.
  - apply mosaic_documentKeyDown_consistent; exact Ha.
  - destruct (EnhancedLightboxView.shown _); [apply mosaic_close_consistent|]; exact Ha.
  - destruct (EnhancedLightboxView.shown _); [apply mosaic_close_consistent|]; exact Ha.
  - exact Ha.
Qed.

Lemma mosaic_run_consistent (es : list MA.Event) (a : MA.App) :
  MA.consistent a -> MA.consistent (MA.run es a).
Proof.
  revert a. induction es as [|e es IH]; intros a Ha; [exact Ha|].
  unfold MA.run. cbn [fold_left]. apply IH, mosaic_step_consistent, Ha.
Qed.

Lemma mosaic_initial_consistent : MA.consistent MA.initialApp.
Proof. unfold MA.consistent. cbn. repeat split. discriminate. Qed.

Lemma mosaic_lookup (i : Z) :
  inRange 6 i ->
  exists image : PortfolioImage,
    at_index MA.portfolioImages i = Some image
    /\ at_index MA.lightboxImages i = Some image
    /\ truthyString (caption image) = true.
Proof.
  unfold inRange. intros Hi.
  assert (Hcases : i = 0 \/ i = 1 \/ i = 2 \/ i = 3 \/ i = 4 \/ i = 5) by lia.
  destruct Hcases as [->|[->|[->|[->|[->| ->]]]]];
    eexists; (split; [reflexivity|split; reflexivity]).
Qed.

Lemma mosaic_lightbox_shown_when_open (a : MA.App) :
  MA.consistent a ->
  PortfolioMosaic.isOpen (MA.lightbox a) = true ->
  EnhancedLightboxView.shown (PortfolioMosaic.lightboxProps (MA.lightbox a)) = true.
Proof.
  intros (Himgs & Hidx & _ & _) E. rewrite E in Himgs.
  destruct (mosaic_lookup _ (Hidx E)) as (image & _ & H2 & _).
  unfold EnhancedLightboxView.shown, EnhancedLightbox.render.
  cbn [PortfolioMosaic.lightboxProps EnhancedLightbox.isOpen EnhancedLightbox.images
       EnhancedLightbox.currentIndex].
  rewrite E, Himgs, H2. reflexivity.
Qed.

(** X15. Whatever sequence of tile clicks, key presses and closing clicks
    the mosaic receives, its lightbox never fails on its image lookup:
    while open it shows one of the six mosaic images, the one at its
    current index; background scrolling is suspended exactly while it is
    open, and the Escape listener is registered exactly then. *)
Theorem mosaic_lightbox_never_fails :
  forall es : list MA.Event,
    let a := MA.run es MA.initialApp in
    MA.view a <> EnhancedLightbox.RenderTypeError
    /\ (PortfolioMosaic.isOpen (MA.lightbox a) = true ->
        exists image : PortfolioImage,
          at_index MA.portfolioImages (PortfolioMosaic.currentIndex (MA.lightbox a)) = Some image
          /\ MA.view a = EnhancedLightbox.RenderImage (src image) (alt image))
    /\ (PortfolioMosaic.isOpen (MA.lightbox a) = false ->
        MA.view a = EnhancedLightbox.RenderNull)
    /\ EnhancedLightboxView.bodyOverflow (MA.document a)
       = (if PortfolioMosaic.isOpen (MA.lightbox a) then "hidden" else "unset")
    /\ EnhancedLightboxView.keydownListener (MA.document a)
       = PortfolioMosaic.isOpen (MA.lightbox a).
Proof.
  intros es a.
  assert (Hc : MA.consistent a)
    by (apply mosaic_run_consistent, mosaic_initial_consistent).
  destruct Hc as (Himgs & Hidx & Ho & Hk).
  assert (Hopen : PortfolioMosaic.isOpen (MA.lightbox a) = true ->
                  exists image : PortfolioImage,
                    at_index MA.portfolioImages
                      (PortfolioMosaic.currentIndex (MA.lightbox a)) = Some image
                    /\ MA.view a = EnhancedLightbox.RenderImage (src image) (alt image)).
  { intros E. rewrite E in Himgs.
    destruct (mosaic_lookup _ (Hidx E)) as (image & H1 & H2 & _).
    exists image. split; [exact H1|].
    unfold MA.view, EnhancedLightbox.render.
    cbn [PortfolioMosaic.lightboxProps EnhancedLightbox.isOpen EnhancedLightbox.images
         EnhancedLightbox.currentIndex].
    rewrite E, Himgs, H2. reflexivity. }
  assert (Hclosed : PortfolioMosaic.isOpen (MA.lightbox a) = false ->
                    MA.view a = EnhancedLightbox.RenderNull).
  { intros E. unfold MA.view, EnhancedLightbox.render.
    cbn [PortfolioMosaic.lightboxProps EnhancedLightbox.isOpen]. rewrite E. reflexivity. }
  split; [|split; [exact Hopen|split; [exact Hclosed|split; assumption]]].
  destruct (PortfolioMosaic.isOpen (MA.lightbox a)) eqn:E.
  - destruct (Hopen eq_refl) as (image & _ & ->). discriminate.
  - rewrite (Hclosed eq_refl). discriminate.
Qed.

Lemma mosaic_lightbox_never_fails_witness :
  let es := [MA.TileClick MA.Tile3; MA.DocumentKeyDown "Escape"; MA.TileKeyDown MA.Tile5 " "] in
  PortfolioMosaic.currentIndex (MA.lightbox (MA.run es MA.initialApp)) = 5
  /\ exists image : PortfolioImage,
      at_index MA.portfolioImages 5 = Some image
      /\ MA.view (MA.run es MA.initialApp) = EnhancedLightbox.RenderImage (src image) (alt image).
Proof.
  intros es. split; [reflexivity|].
  exact (proj1 (proj2 (mosaic_lightbox_never_fails es)) eq_refl).
Defined.

(** X16. A click on a mosaic tile, or Enter or Space on it, opens the
    lightbox on the picture the tile itself shows: same source and
    alternative text, with the picture's caption as heading and its
    description underneath, whatever the mosaic was showing before. *)
Theorem mosaic_tile_opens_its_picture :
  forall (a : MA.App) (t : MA.Tile),
    let a' := MA.step (MA.TileClick t) a in
    (exists image : PortfolioImage,
        at_index MA.portfolioImages (MA.tileIndex t) = Some image
        /\ MA.tileBackground t = Some (src image)
        /\ MA.view a' = EnhancedLightbox.RenderImage (src image) (alt image)
        /\ EnhancedLightboxView.heading (PortfolioMosaic.lightboxProps (MA.lightbox a')) image
           = caption image
        /\ EnhancedLightboxView.paragraph (PortfolioMosaic.lightboxProps (MA.lightbox a')) image
           = description image)
    /\ MA.lightbox (MA.step (MA.TileKeyDown t "Enter") a) = MA.lightbox a'
    /\ MA.lightbox (MA.step (MA.TileKeyDown t " ") a) = MA.lightbox a'.
Proof.
  intros a t a'. split.
  - destruct t; eexists; repeat split; reflexivity.
  - assert (Hkey : forall (key : string) (b : MA.App),
               String.eqb key "Escape" = false -> MA.documentKeyDown key b = b).
    { intros key b Hk. unfold MA.documentKeyDown, EnhancedLightbox.handleKeyDown.
      rewrite Hk.
      repeat match goal with
             | |- context [if ?c then _ else _] => destruct c
             end; reflexivity. }
    split; cbn [MA.step]; unfold MA.tileKeyDown; cbn [String.eqb Ascii.eqb Bool.eqb orb];
      rewrite Hkey by reflexivity; reflexivity.
Qed.

(** A key other than Escape is ignored by the listener of the lightbox. *)
Lemma mosaic_documentKeyDown_other (key : string) (a : MA.App) :
  String.eqb key "Escape" = false -> MA.documentKeyDown key a = a.
Proof.
  intros Hkey. unfold MA.documentKeyDown, EnhancedLightbox.handleKeyDown.
  rewrite Hkey.
  repeat match goal with
         | |- context [if ?c then _ else _] => destruct c
         end; reflexivity.
Qed.

(** X17. On the mosaic, Escape (pressed anywhere, also on a focused
    tile), a click on the backdrop and a click on the close button each
    close an open lightbox: nothing is shown any more, scrolling is
    restored and the Escape listener is gone. Every key press is
    accounted for: on the document a key other than Escape changes
    nothing, and Escape changes nothing while the lightbox is closed; on
    a focused tile Enter and Space do what a click on the tile does and
    open the lightbox, closed or not, and any other key does what it does
    on the document. *)
Theorem mosaic_escape_closes :
  forall (es : list MA.Event) (key : string) (t : MA.Tile),
    let a := MA.run es MA.initialApp in
    (PortfolioMosaic.isOpen (MA.lightbox a) = true ->
     forall e : MA.Event,
       e = MA.DocumentKeyDown "Escape" \/ e = MA.TileKeyDown t "Escape"
       \/ e = MA.BackdropClick \/ e = MA.CloseButtonClick ->
       MA.view (MA.step e a) = EnhancedLightbox.RenderNull
       /\ PortfolioMosaic.isOpen (MA.lightbox (MA.step e a)) = false
       /\ MA.document (MA.step e a) = EnhancedLightboxView.mkDocument "unset" false)
    /\ (String.eqb key "Escape" = false -> MA.step (MA.DocumentKeyDown key) a = a)
    /\ (PortfolioMosaic.isOpen (MA.lightbox a) = false ->
        MA.step (MA.DocumentKeyDown key) a = a)
    /\ (String.eqb key "Enter" || String.eqb key " " = true ->
        MA.step (MA.TileKeyDown t key) a = MA.step (MA.TileClick t) a
        /\ PortfolioMosaic.isOpen (MA.lightbox (MA.step (MA.TileKeyDown t key) a)) = true
        /\ PortfolioMosaic.currentIndex (MA.lightbox (MA.step (MA.TileKeyDown t key) a))
           = MA.tileIndex t)
    /\ (String.eqb key "Enter" || String.eqb key " " = false ->
        MA.step (MA.TileKeyDown t key) a = MA.step (MA.DocumentKeyDown key) a).
Proof.
  intros es key t a.
  assert (Hc : MA.consistent a)
    by (apply mosaic_run_consistent, mosaic_initial_consistent).
  pose proof (mosaic_lightbox_shown_when_open a Hc) as Hshown.
  destruct Hc as (Himgs & Hidx & Ho & Hk).
  split; [|split; [|split; [|split]]].
  - intros Hopen e He.
    assert (Hclose : MA.step e a = MA.close a).
    { assert (Hesc : MA.documentKeyDown "Escape" a = MA.close a).
      { unfold MA.documentKeyDown, EnhancedLightbox.handleKeyDown.
        rewrite Hk, Hopen.
        cbn [PortfolioMosaic.lightboxProps EnhancedLightbox.isOpen]. rewrite Hopen.
        reflexivity. }
      destruct He as [->|[->|[->| ->]]]; cbn [MA.step].
      - exact Hesc.
      - unfold MA.tileKeyDown. cbn [String.eqb Ascii.eqb Bool.eqb orb]. exact Hesc.
      - rewrite (Hshown Hopen). reflexivity.
      - rewrite (Hshown Hopen). reflexivity. }
    rewrite Hclose. unfold MA.close, MA.setLightbox, MA.view.
    cbn [MA.lightbox MA.document]. split; [reflexivity|]. split; [reflexivity|].
    unfold EnhancedLightboxView.commit.
    cbn [PortfolioMosaic.lightboxProps PortfolioMosaic.closeLightbox
         EnhancedLightbox.isOpen PortfolioMosaic.isOpen].
    rewrite Hopen. reflexivity.
  - intros Hkey. cbn [MA.step]. apply mosaic_documentKeyDown_other. exact Hkey.
  - intros Hclosed. cbn [MA.step]. unfold MA.documentKeyDown.
    rewrite Hk, Hclosed. reflexivity.
  - intros Hkey. cbn [MA.step]. unfold MA.tileKeyDown. rewrite Hkey.
    assert (Hesc : String.eqb key "Escape" = false).
    { apply orb_prop in Hkey as [H|H]; apply String.eqb_eq in H; subst key; reflexivity. }
    rewrite mosaic_documentKeyDown_other by exact Hesc.
    split; [reflexivity|]. split; reflexivity.
  - intros Hkey. cbn [MA.step]. unfold MA.tileKeyDown. rewrite Hkey. reflexivity.
Qed.

Lemma mosaic_escape_closes_witness :
  let a := MA.run [MA.TileClick MA.Tile2] MA.initialApp in
  MA.view (MA.step (MA.DocumentKeyDown "Escape") a) = EnhancedLightbox.RenderNull
  /\ MA.document (MA.step MA.BackdropClick a) = EnhancedLightboxView.mkDocument "unset" false
  /\ PortfolioMosaic.isOpen (MA.lightbox (MA.step (MA.TileKeyDown MA.Tile4 "Enter") MA.initialApp)) = true
  /\ MA.step (MA.TileKeyDown MA.Tile4 "a") a = a.
Proof.
  intros a.
  destruct (mosaic_escape_closes [MA.TileClick MA.Tile2] "Escape" MA.Tile4) as (Hclose & _).
  destruct (mosaic_escape_closes [] "Enter" MA.Tile4) as (_ & _ & _ & Henter & _).
  destruct (mosaic_escape_closes [MA.TileClick MA.Tile2] "a" MA.Tile4)
    as (_ & Hother & _ & _ & Htile).
  split; [|split; [|split]].
  - apply (Hclose eq_refl (MA.DocumentKeyDown "Escape")). left. reflexivity.
  - apply (Hclose eq_refl MA.BackdropClick). right. right. left. reflexivity.
  - apply Henter. reflexivity.
  - fold a in Htile, Hother. rewrite (Htile eq_refl). apply Hother. reflexivity.
Defined.

(** ** The featured section *)

Lemma supplementary_length (workId : option string) :
  (length (FS.supplementary workId) <= 2)%nat
  /\ length (FS.supplementaryMobileClick workId) = length (FS.supplementary workId).
Proof.
  unfold FS.supplementary, FS.supplementaryMobileClick.
  destruct workId as [i|]; [|cbn; lia].
  repeat match goal with
         | |- context [if ?c then _ else _] => destruct c
         end; cbn; lia.
Qed.

Lemma supplementary_tables_agree (workId : option string) :
  Forall2 sameText (FS.supplementary workId) (FS.supplementaryMobileClick workId).
Proof.
  unfold FS.supplementary, FS.supplementaryMobileClick.
  destruct workId as [i|]; [|constructor].
  repeat match goal with
         | |- context [if ?c then _ else _] => destruct c
         end; repeat constructor.
Qed.

Lemma enhance_tables_agree (l : FS.Layout) (work : FS.Work) :
  Forall2 sameText (FS.enhance (FS.cardTable l) work) (FS.enhance (FS.clickTable l) work)
  /\ (l = FS.Desktop ->
      FS.enhance (FS.clickTable l) work = FS.enhance (FS.cardTable l) work).
Proof.
  split.
  - unfold FS.enhance. apply Forall2_take, Forall2_app.
    + apply Forall_Forall2_diag, Forall_forall. intros x _. repeat split.
    + destruct l; cbn [FS.cardTable FS.clickTable];
        [|apply supplementary_tables_agree].
      apply Forall_Forall2_diag, Forall_forall. intros x _. repeat split.
  - intros ->. reflexivity.
Qed.

(** X18. The images a featured card gets are the work's own images
    followed by the supplementary ones for its id, cut after the fourth:
    never more than four, exactly [min 4 (own + supplementary)], the own
    images first and in order, and no supplementary image at all once
    the work has four of its own; at most two images are ever added. *)
Theorem featured_card_images :
  forall (l : FS.Layout) (work : FS.Work),
    let own := default [] (FS.images work) in
    let enhanced := FS.enhance (FS.cardTable l) work in
    (length enhanced <= 4)%nat
    /\ length enhanced = Nat.min 4 (length own + length (FS.supplementary (FS.id work)))
    /\ (length enhanced <= length own + 2)%nat
    /\ take (length own) enhanced = take 4 own
    /\ ((4 <= length own)%nat -> enhanced = take 4 own)
    /\ length (FS.enhance (FS.clickTable l) work) = length enhanced.
Proof.
  intros l work own enhanced. subst enhanced. unfold FS.enhance, FS.cardTable. fold own.
  destruct (supplementary_length (FS.id work)) as [Hs Hm].
  rewrite !length_take, !length_app.
  split; [lia|]. split; [lia|]. split; [lia|]. split; [|split].
  - rewrite take_take. destruct (Nat.le_gt_cases (length own) 4) as [Hle|Hgt].
    + rewrite Nat.min_l by exact Hle. rewrite take_app_length.
      symmetry. apply take_ge. exact Hle.
    + rewrite Nat.min_r by lia. apply take_app_le. lia.
  - intros Hfour. apply take_app_le. exact Hfour.
  - destruct l; cbn [FS.clickTable]; rewrite ?Hm; reflexivity.
Qed.

Lemma featured_card_images_witness :
  let work := FS.mkWork (Some "featured-warrior") "Forest Warrior" (Some "Festival")
                "A fierce look" None (Some gallery4) in
  FS.enhance (FS.cardTable FS.Mobile) work = take 4 gallery4.
Proof.
  intros work.
  apply (proj2 (proj2 (proj2 (proj2 (featured_card_images FS.Mobile work))))).
  cbn. lia.
Defined.

(** X19. In the featured section a click on a card always opens the
    lightbox on the picture the card is showing at that moment: the
    lightbox never fails on its lookup, returns [null] only for a card
    without images, and otherwise shows the image at the card's index,
    with the same alternative text, caption and description as the card's
    current image and, in the desktop grid, the very same image. The same
    safety holds for every click made along the way. *)
Theorem featured_click_opens_current_image :
  forall (l : FS.Layout) (work : FS.Work) (es : list CardEvent),
    let data := FS.cardData l work in
    let s := fst (SC.run data es SC.initialState) in
    let props := FS.lightboxProps (FS.onImageClick l work (SC.currentImageIndex s)) in
    EnhancedLightbox.render props <> EnhancedLightbox.RenderTypeError
    /\ (SC.imagesOf data = [] -> EnhancedLightbox.render props = EnhancedLightbox.RenderNull)
    /\ (SC.imagesOf data <> [] ->
        exists shown : PortfolioImage,
          EnhancedLightbox.render props = EnhancedLightbox.RenderImage (src shown) (alt shown)
          /\ sameText (SC.currentImage data s) shown
          /\ (l = FS.Desktop -> shown = SC.currentImage data s))
    /\ Forall (fun i => EnhancedLightbox.render (FS.lightboxProps (FS.onImageClick l work i))
                        <> EnhancedLightbox.RenderTypeError)
              (snd (SC.run data es SC.initialState)).
Proof.
  intros l work es data s props.
  destruct (slider_card_index_ok data es) as [Hok Hclicks]. fold s in Hok.
  destruct (enhance_tables_agree l work) as [Hagree Hdesk].
  assert (Himgs : SC.imagesOf data = FS.enhance (FS.cardTable l) work) by reflexivity.
  rewrite Himgs in *.
  pose proof (Forall2_length _ _ _ Hagree) as Hlen.
  assert (Hrender : forall i : Z,
             cardIndexOk (len (FS.enhance (FS.cardTable l) work)) i ->
             let r := EnhancedLightbox.render (FS.lightboxProps (FS.onImageClick l work i)) in
             (FS.enhance (FS.cardTable l) work = [] -> r = EnhancedLightbox.RenderNull)
             /\ (FS.enhance (FS.cardTable l) work <> [] ->
                 exists x y : PortfolioImage,
                   at_index (FS.enhance (FS.cardTable l) work) i = Some x
                   /\ at_index (FS.enhance (FS.clickTable l) work) i = Some y
                   /\ r = EnhancedLightbox.RenderImage (src y) (alt y))).
  { intros i Hi r. subst r. unfold EnhancedLightbox.render.
    cbn [FS.lightboxProps FS.onImageClick FS.openLightbox FS.isOpen FS.lightboxImages
         FS.currentIndex EnhancedLightbox.isOpen EnhancedLightbox.images
         EnhancedLightbox.currentIndex negb orb].
    unfold len in *. rewrite <- Hlen. split.
    - intros ->. reflexivity.
    - intros Hne. pose proof (len_pos _ Hne) as Hpos. unfold len in Hpos.
      apply cardIndexOk_pos in Hi; [|exact Hpos].
      destruct (Z.eqb_spec (Z.of_nat (length (FS.enhance (FS.cardTable l) work))) 0); [lia|].
      destruct (at_index (FS.enhance (FS.cardTable l) work) i) as [x|] eqn:Ex;
        [|apply at_index_None in Ex; contradiction].
      destruct (at_index (FS.enhance (FS.clickTable l) work) i) as [y|] eqn:Ey.
      + exists x, y. repeat split.
      + apply at_index_None in Ey. unfold len in Ey. rewrite <- Hlen in Ey. contradiction. }
  assert (Hsafe : forall i : Z,
             cardIndexOk (len (FS.enhance (FS.cardTable l) work)) i ->
             EnhancedLightbox.render (FS.lightboxProps (FS.onImageClick l work i))
             <> EnhancedLightbox.RenderTypeError).
  { intros i Hi. destruct (Hrender i Hi) as [Hnil Hcons].
    destruct (FS.enhance (FS.cardTable l) work) as [|x0 xs] eqn:E.
    - rewrite Hnil by reflexivity. discriminate.
    - destruct Hcons as (x & y & _ & _ & ->); discriminate. }
  split; [exact (Hsafe _ Hok)|]. split; [exact (proj1 (Hrender _ Hok))|]. split.
  - intros Hne. destruct (proj2 (Hrender _ Hok) Hne) as (x & y & Hx & Hy & Hr).
    exists y. split; [exact Hr|].
    assert (Hcur : SC.currentImage data s = x).
    { unfold SC.currentImage. rewrite Himgs, Hx. reflexivity. }
    rewrite Hcur. split.
    + unfold at_index in Hx, Hy.
      destruct (decide (0 <= SC.currentImageIndex s)); [|discriminate].
      exact (Forall2_lookup_lr _ _ _ _ _ _ Hagree Hx Hy).
    + intros Hd. rewrite (Hdesk Hd) in Hy. congruence.
  - eapply Forall_impl; [exact Hclicks|]. intros i Hi. exact (Hsafe i Hi).
Qed.

Lemma featured_click_opens_current_image_witness :
  let work := FS.mkWork (Some "featured-euphoria") "Festival Euphoria" (Some "Festival")
                "Colour" None (Some gallery1) in
  let es := [CardSwipe 300 [100]; CardClickNext; CardClick] in
  exists shown : PortfolioImage,
    EnhancedLightbox.render
      (FS.lightboxProps
         (FS.onImageClick FS.Desktop work
            (SC.currentImageIndex (fst (SC.run (FS.cardData FS.Desktop work) es SC.initialState)))))
    = EnhancedLightbox.RenderImage (src shown) (alt shown)
    /\ shown = FS.mohawkStyle.
Proof.
  intros work es.
  destruct (proj1 (proj2 (proj2 (featured_click_opens_current_image FS.Desktop work es)))
              ltac:(discriminate)) as (shown & Hr & _ & Hsame).
  exists shown. split; [exact Hr|]. rewrite (Hsame eq_refl). reflexivity.
Defined.

(** * The e-mail service *)

(** ** Blank fields *)

Lemma trimStart_nil (s : ES.JsString) :
  ES.trimStart s = [] <-> Forall (fun c => ES.isWhiteSpace c = true) s.
Proof.
  induction s as [|c s IH]; cbn.
  - split; [constructor|reflexivity].
  - destruct (ES.isWhiteSpace c) eqn:E.
    + rewrite IH. split; [intros H; constructor; assumption|].
      intros H. inversion H; assumption.
    + split; [discriminate|]. intros H. inversion H; congruence.
Qed.

Lemma trimStart_head (s : ES.JsString) (c : N) (rest : ES.JsString) :
  ES.trimStart s = c :: rest -> ES.isWhiteSpace c = false.
Proof.
  induction s as [|c0 s IH]; cbn; [discriminate|].
  destruct (ES.isWhiteSpace c0) eqn:E; [exact IH|].
  intros [= <- _]. exact E.
Qed.

Lemma white_or_text (s : ES.JsString) :
  Forall (fun c => ES.isWhiteSpace c = true) s
  \/ Exists (fun c => ES.isWhiteSpace c = false) s.
Proof.
  induction s as [|c s [IH|IH]].
  - left. constructor.
  - destruct (ES.isWhiteSpace c) eqn:E.
    + left. constructor; assumption.
    + right. apply Exists_cons_hd. exact E.
  - right. apply Exists_cons_tl. exact IH.
Qed.

Lemma blank_spec (s : ES.JsString) :
  ES.blank s = false <-> ES.hasText s.
Proof.
  unfold ES.blank, ES.hasText, ES.trim, ES.trimEnd.
  assert (Hall : rev (ES.trimStart (rev (ES.trimStart s))) = []
                 <-> Forall (fun c => ES.isWhiteSpace c = true) s).
  { rewrite <- trimStart_nil. split.
    - intros H. apply (f_equal (@rev N)) in H. rewrite rev_involutive in H. cbn in H.
      apply trimStart_nil in H. apply Forall_rev in H. rewrite rev_involutive in H.
      destruct (ES.trimStart s) as [|c rest] eqn:E; [reflexivity|].
      apply trimStart_head in E. inversion H; congruence.
    - intros ->. reflexivity. }
  rewrite Exists_exists.
  split.
  - intros Hb.
    destruct (white_or_text s) as [Hf|He].
    + apply Hall in Hf. rewrite Hf in Hb. discriminate.
    + apply Exists_exists in He. exact He.
  - intros (c & Hin & Hc).
    destruct (rev (ES.trimStart (rev (ES.trimStart s)))) eqn:E; [|reflexivity].
    pose proof (proj1 Hall eq_refl) as Hf.
    rewrite Forall_forall in Hf. specialize (Hf c Hin). congruence.
Qed.

(** ** The matcher and the expression *)

Lemma matchPlus_spec (member : N -> bool) (k : ES.JsString -> bool) (s : ES.JsString) :
  ES.matchPlus member k s = true
  <-> exists s1 s2 : ES.JsString,
        s = s1 ++ s2 /\ s1 <> [] /\ Forall (fun c => member c = true) s1 /\ k s2 = true.
Proof.
  induction s as [|c s IH]; cbn.
  - split; [discriminate|]. intros (s1 & s2 & Heq & Hne & _).
    destruct s1; [contradiction|discriminate].
  - rewrite andb_true_iff, orb_true_iff, IH. split.
    + intros [Hc [(s1 & s2 & -> & Hne & Hall & Hk)|Hk]].
      * exists (c :: s1), s2. repeat split; [discriminate|constructor; assumption|exact Hk].
      * exists [c], s. repeat split; [discriminate|repeat constructor; assumption|exact Hk].
    + intros (s1 & s2 & Heq & Hne & Hall & Hk).
      destruct s1 as [|c1 s1]; [contradiction|].
      cbn in Heq. injection Heq as <- ->. inversion Hall as [|? ? Hc Hall']; subst.
      split; [exact Hc|].
      destruct s1 as [|c2 s1]; [right; exact Hk|].
      left. exists (c2 :: s1), s2. repeat split; [discriminate|exact Hall'|exact Hk].
Qed.

Lemma Matches_plus (member : N -> bool) (s : ES.JsString) :
  ES.Matches (ES.PlusClass member) s
  <-> s <> [] /\ Forall (fun c => member c = true) s.
Proof.
  split.
  - intros H. remember (ES.PlusClass member) as r eqn:Er.
    induction H as [| m c Hc | m c s Hc H IH |]; try discriminate;
      injection Er as ->.
    + split; [discriminate|repeat constructor; assumption].
    + destruct (IH eq_refl) as [_ Hall]. split; [discriminate|constructor; assumption].
  - intros [Hne Hall]. induction Hall as [|c s Hc Hall IH]; [contradiction|].
    destruct s as [|c' s'].
    + apply ES.MatchesPlusOne. exact Hc.
    + apply ES.MatchesPlusMore; [exact Hc|]. apply IH. discriminate.
Qed.

Lemma matchFrom_spec (r : ES.Regex) :
  forall (k : ES.JsString -> bool) (s : ES.JsString),
    ES.matchFrom r k s = true
    <-> exists s1 s2 : ES.JsString, s = s1 ++ s2 /\ ES.Matches r s1 /\ k s2 = true.
Proof.
  induction r as [member|member|r1 IH1 r2 IH2]; intros k s; cbn [ES.matchFrom].
  - destruct s as [|c s'].
    + split; [discriminate|]. intros (s1 & s2 & Heq & Hm & _).
      inversion Hm; subst. discriminate.
    + rewrite andb_true_iff. split.
      * intros [Hc Hk]. exists [c], s'. repeat split; [constructor; exact Hc|exact Hk].
      * intros (s1 & s2 & Heq & Hm & Hk). inversion Hm; subst.
        cbn in Heq. injection Heq as <- <-. split; assumption.
  - rewrite matchPlus_spec. split.
    + intros (s1 & s2 & -> & Hne & Hall & Hk). exists s1, s2.
      repeat split; [apply Matches_plus; split; assumption|exact Hk].
    + intros (s1 & s2 & -> & Hm & Hk). apply Matches_plus in Hm as [Hne Hall].
      exists s1, s2. repeat split; assumption.
  - rewrite IH1. split.
    + intros (s1 & rest & -> & Hm1 & Hrest). apply IH2 in Hrest.
      destruct Hrest as (s2 & s3 & -> & Hm2 & Hk).
      exists (s1 ++ s2), s3. rewrite <- app_assoc.
      repeat split; [constructor; assumption|exact Hk].
    + intros (s12 & s3 & -> & Hm & Hk). inversion Hm; subst.
      exists s1, (s2 ++ s3). rewrite <- app_assoc. repeat split; [assumption|].
      apply IH2. exists s2, s3. repeat split; assumption.
Qed.

Lemma test_spec (r : ES.Regex) (s : ES.JsString) :
  ES.test r s = true <-> ES.Matches r s.
Proof.
  unfold ES.test. rewrite matchFrom_spec. split.
  - intros (s1 & s2 & -> & Hm & Hk). destruct s2; [|discriminate].
    rewrite app_nil_r. exact Hm.
  - intros Hm. exists s, []. rewrite app_nil_r. repeat split. exact Hm.
Qed.

Lemma email_regex_shape_iff (s : ES.JsString) :
  ES.test ES.emailRegex s = true
  <-> exists localPart domain tld : ES.JsString,
        s = localPart ++ [64%N] ++ domain ++ [46%N] ++ tld
        /\ localPart <> [] /\ domain <> [] /\ tld <> []
        /\ Forall (fun c => ES.notSpaceNorAt c = true) (localPart ++ domain ++ tld).
Proof.
  rewrite test_spec. unfold ES.emailRegex. split.
  - intros H.
    inversion H as [| | |? ? a r1 Ha H1]; subst.
    inversion H1 as [| | |? ? x r2 Hx H2]; subst.
    inversion H2 as [| | |? ? b r3 Hb H3]; subst.
    inversion H3 as [| | |? ? y c Hy Hc]; subst.
    inversion Hx as [m cx Hcx| | |]; subst.
    inversion Hy as [m cy Hcy| | |]; subst.
    apply N.eqb_eq in Hcx, Hcy. subst cx cy.
    apply Matches_plus in Ha as [Ha1 Ha2].
    apply Matches_plus in Hb as [Hb1 Hb2].
    apply Matches_plus in Hc as [Hc1 Hc2].
    exists a, b, c. repeat split; try assumption.
    rewrite !Forall_app. repeat split; assumption.
  - intros (a & b & c & -> & Ha & Hb & Hc & Hall).
    rewrite !Forall_app in Hall. destruct Hall as (Ha2 & Hb2 & Hc2).
    repeat constructor; apply Matches_plus; split; assumption.
Qed.

(** X20. [emailRegex.test] accepts exactly the addresses made of a
    non-empty local part, one [@], and a domain with a dot that is neither
    its first nor its last character, none of the parts containing white
    space or a further [@]. *)
Theorem email_regex_accepts_shape :
  forall s : ES.JsString,
    ES.test ES.emailRegex s = true
    <-> exists localPart domain tld : ES.JsString,
          s = localPart ++ [64%N] ++ domain ++ [46%N] ++ tld
          /\ localPart <> [] /\ domain <> [] /\ tld <> []
          /\ Forall (fun c => ES.notSpaceNorAt c = true) (localPart ++ domain ++ tld).
Proof.
  intros s. split; intros H.
  - apply (proj1 (email_regex_shape_iff s)). exact H.
  - apply (proj2 (email_regex_shape_iff s)). exact H.
Qed.

Lemma email_regex_accepts_shape_witness :
  ES.test ES.emailRegex (ES.lit "ash@studio.example") = true
  /\ ES.test ES.emailRegex (ES.lit "ash@studio") = false
  /\ ES.test ES.emailRegex (ES.lit "a sh@studio.example") = false.
Proof.
  split; [|split; reflexivity].
  apply (proj2 (email_regex_accepts_shape (ES.lit "ash@studio.example"))).
  exists (ES.lit "ash"), (ES.lit "studio"), (ES.lit "example").
  repeat split; try discriminate. repeat constructor.
Defined.

(** ** What [sendContactForm] does with a form *)

Lemma emailShape_hasText (s : ES.JsString) : ES.emailShape s -> ES.hasText s.
Proof.
  intros (a & b & c & -> & Ha & _ & _ & Hall).
  destruct a as [|x a]; [contradiction|].
  cbn in Hall. inversion Hall as [|? ? Hx _]; subst.
  unfold ES.hasText. cbn. apply Exists_cons_hd.
  unfold ES.notSpaceNorAt in Hx. apply negb_true_iff, orb_false_iff in Hx as [Hx _].
  exact Hx.
Qed.

Lemma form_valid_spec (d : ES.ContactFormData) :
  (ES.blank (ES.name d) || ES.blank (ES.email d) || ES.blank (ES.message d) = false
   /\ ES.test ES.emailRegex (ES.email d) = true)
  <-> ES.hasText (ES.name d) /\ ES.hasText (ES.message d) /\ ES.emailShape (ES.email d).
Proof.
  unfold ES.emailShape. rewrite <- email_regex_shape_iff.
  rewrite !orb_false_iff, !blank_spec. split.
  - intros [[[Hn _] Hm] Ht]. repeat split; assumption.
  - intros (Hn & Hm & Ht). repeat split; try assumption.
    apply emailShape_hasText. unfold ES.emailShape.
    apply email_regex_shape_iff. exact Ht.
Qed.

Lemma failureMessage_not_empty (e : ES.Thrown) : ES.failureMessage e <> EmptyString.
Proof.
  destruct e as [text|]; cbn; [|discriminate].
  repeat match goal with
         | |- context [if ?c then _ else _] => destruct c
         end; discriminate.
Qed.

Lemma send_contact_form_facts (cfg : ES.Config) (send : ES.Email -> ES.SendResult)
    (now : ES.JsString) (d : ES.ContactFormData) :
  (ES.success (fst (ES.sendContactForm cfg send now d)) = true
   <-> (ES.hasText (ES.name d) /\ ES.hasText (ES.message d) /\ ES.emailShape (ES.email d))
       /\ send (ES.notification cfg now d) = ES.Sent)
  /\ (ES.success (fst (ES.sendContactForm cfg send now d)) = false ->
      ES.responseMessage (fst (ES.sendContactForm cfg send now d)) <> EmptyString).
Proof.
  rewrite <- form_valid_spec. unfold ES.sendContactForm.
  destruct (ES.blank (ES.name d) || ES.blank (ES.email d) || ES.blank (ES.message d)) eqn:Eb.
  { cbn. repeat split; try discriminate. intros [[H _] _]. discriminate H. }
  destruct (ES.test ES.emailRegex (ES.email d)) eqn:Et; cbn [negb].
  2:{ cbn. repeat split; try discriminate. intros [[_ H] _]. discriminate H. }
  destruct (send (ES.notification cfg now d)) as [|e] eqn:Es; cbn.
  - repeat split; try discriminate; auto.
  - repeat split; try discriminate; try (intros [_ H]; discriminate H).
    intros _. apply failureMessage_not_empty.
Qed.

(** X21. [sendContactForm] calls the mail service only for a form whose
    name and message contain a character that is not white space and
    whose address has the accepted shape; it reports success exactly when
    the form is such and the notification was delivered, whatever happens
    to the confirmation; a failure always comes with a non-empty message
    and an error text, a success with neither call missing. *)
Theorem send_contact_form_contract :
  forall (cfg : ES.Config) (send : ES.Email -> ES.SendResult) (now : ES.JsString)
         (d : ES.ContactFormData),
    let response := fst (ES.sendContactForm cfg send now d) in
    let sent := snd (ES.sendContactForm cfg send now d) in
    let valid := ES.hasText (ES.name d) /\ ES.hasText (ES.message d)
                 /\ ES.emailShape (ES.email d) in
    (sent <> [] <-> valid)
    /\ (ES.success response = true
        <-> valid /\ send (ES.notification cfg now d) = ES.Sent)
    /\ (ES.success response = true ->
        sent = [ES.notification cfg now d; ES.autoReply cfg d]
        /\ ES.error response = None)
    /\ (ES.success response = false ->
        (exists text : string, ES.error response = Some text)
        /\ ES.responseMessage response <> EmptyString
        /\ (sent = [] \/ sent = [ES.notification cfg now d])).
Proof.
  intros cfg send now d response sent valid. subst response sent valid.
  rewrite <- form_valid_spec. unfold ES.sendContactForm.
  destruct (ES.blank (ES.name d) || ES.blank (ES.email d) || ES.blank (ES.message d)) eqn:Eb.
  { cbn. repeat split; try discriminate; try tauto; try (intros [[H _] _]; discriminate H);
      try (intros [H _]; discriminate H); eauto. }
  destruct (ES.test ES.emailRegex (ES.email d)) eqn:Et; cbn [negb].
  2:{ cbn. repeat split; try discriminate; try tauto; try (intros [[_ H] _]; discriminate H);
      try (intros [_ H]; discriminate H); eauto. }
  destruct (send (ES.notification cfg now d)) as [|e] eqn:Es; cbn.
  - repeat split; try discriminate; auto.
  - repeat split; try discriminate; auto; try (intros [_ H]; discriminate H); eauto.
    apply failureMessage_not_empty.
Qed.

Lemma send_contact_form_contract_witness :
  let d := ES.mkFormData (ES.lit "Ash") (ES.lit "ash@studio.example") (ES.lit "Hello") in
  let send := fun e : ES.Email =>
                if String.eqb (ES.template e) "template_contact_form"
                then ES.Sent else ES.Rejected ES.ThrownOther in
  ES.success (fst (ES.sendContactForm ES.EMAILJS_CONFIG send [] d)) = true.
Proof.
  intros d send.
  apply (proj2 (proj1 (proj2 (send_contact_form_contract ES.EMAILJS_CONFIG send [] d)))).
  split; [|reflexivity]. split; [|split].
  - unfold ES.hasText. cbn. apply Exists_cons_hd. reflexivity.
  - unfold ES.hasText. cbn. apply Exists_cons_hd. reflexivity.
  - exists (ES.lit "ash"), (ES.lit "studio"), (ES.lit "example").
    repeat split; try discriminate. repeat constructor.
Defined.

(** * The contact form *)

Lemma handleChange_configured (f : CF.Field) (value : ES.JsString) (st : CF.State) :
  CF.isEmailJSConfigured (CF.handleChange f value st) = CF.isEmailJSConfigured st.
Proof. reflexivity. Qed.

Lemma typing_keeps_flags (changes : list (CF.Field * ES.JsString)) (st : CF.State) :
  let st' := fold_left (fun acc change => CF.handleChange (fst change) (snd change) acc)
                       changes st in
  CF.isEmailJSConfigured st' = CF.isEmailJSConfigured st
  /\ CF.isSubmitted st' = CF.isSubmitted st
  /\ CF.isSubmitting st' = CF.isSubmitting st.
Proof.
  revert st. induction changes as [|[f v] changes IH]; intros st; [repeat split|].
  cbn [fold_left]. cbv zeta. cbn [fst snd].
  destruct (IH (CF.handleChange f v st)) as (H1 & H2 & H3).
  cbv zeta in H1, H2, H3. rewrite H1, H2, H3. repeat split.
Qed.

(** X22. With a configuration that still holds a placeholder, as the one
    in the source does, the contact form runs in demo mode: whatever is
    typed, submitting never calls the mail service, and a form whose
    three fields contain some text is reported as sent (and its reset
    timer started) even when the address is not a valid one. *)
Theorem demo_mode_sends_nothing :
  ES.validateEmailJSConfig ES.EMAILJS_CONFIG = false
  /\ forall (cfg : ES.Config) (send : ES.Email -> ES.SendResult) (now : ES.JsString)
            (changes : list (CF.Field * ES.JsString)),
       ES.validateEmailJSConfig cfg = false ->
       let st := fold_left (fun acc change => CF.handleChange (fst change) (snd change) acc)
                           changes (CF.mount cfg) in
       let out := CF.handleSubmit cfg send now st in
       snd (fst out) = []
       /\ (ES.hasText (ES.name (CF.formData st)) ->
           ES.hasText (ES.email (CF.formData st)) ->
           ES.hasText (ES.message (CF.formData st)) ->
           CF.isSubmitted (fst (fst out)) = true /\ snd out = 1%nat)
       /\ (CF.isSubmitted (fst (fst out)) = false ->
           CF.submitError (fst (fst out)) = Some "Please fill in all fields").
Proof.
  split; [reflexivity|].
  intros cfg send now changes Hcfg st out.
  destruct (typing_keeps_flags changes (CF.mount cfg)) as (Hdemo & _ & _).
  fold st in Hdemo. cbn in Hdemo. rewrite Hcfg in Hdemo.
  subst out. unfold CF.handleSubmit. rewrite Hdemo.
  destruct (ES.blank (ES.name (CF.formData st)) || ES.blank (ES.email (CF.formData st))
            || ES.blank (ES.message (CF.formData st))) eqn:Eb; cbn.
  - split; [reflexivity|]. split.
    + intros Hn He Hm. apply blank_spec in Hn, He, Hm. rewrite Hn, He, Hm in Eb. discriminate.
    + intros _. reflexivity.
  - split; [reflexivity|]. split; [split; reflexivity|discriminate].
Qed.

Lemma demo_mode_sends_nothing_witness :
  let changes := [(CF.NameField, ES.lit "Ash"); (CF.EmailField, ES.lit "not an address");
                  (CF.MessageField, ES.lit "Hello")] in
  let st := fold_left (fun acc change => CF.handleChange (fst change) (snd change) acc)
                      changes (CF.mount ES.EMAILJS_CONFIG) in
  let out := CF.handleSubmit ES.EMAILJS_CONFIG (fun _ => ES.Sent) [] st in
  snd (fst out) = [] /\ CF.isSubmitted (fst (fst out)) = true.
Proof.
  intros changes st out.
  destruct (proj2 demo_mode_sends_nothing ES.EMAILJS_CONFIG (fun _ => ES.Sent) [] changes eq_refl)
    as (Hsent & Hok & _).
  split; [exact Hsent|].
  apply Hok; unfold ES.hasText; cbn; apply Exists_cons_hd; reflexivity.
Defined.

(** X23. With a configured mail service, submitting the form ends with the
    typed data untouched and the sending flag off; it shows the thank-you
    view exactly when the three fields contain some text, the address has
    the accepted shape and the notification was delivered, and then
    starts one reset timer; otherwise it shows a non-empty error, which
    the next keystroke clears. When the timer fires the form is empty
    again. *)
Theorem configured_submit_outcomes :
  forall (cfg : ES.Config) (send : ES.Email -> ES.SendResult) (now : ES.JsString)
         (st : CF.State),
    CF.isEmailJSConfigured st = true ->
    CF.isSubmitted st = false ->
    CF.isSubmitting st = false ->
    let out := CF.handleSubmit cfg send now st in
    let st' := fst (fst out) in
    let d := CF.formData st in
    CF.formData st' = d
    /\ CF.isSubmitting st' = false
    /\ (CF.isSubmitted st' = true
        <-> (ES.hasText (ES.name d) /\ ES.hasText (ES.message d) /\ ES.emailShape (ES.email d))
            /\ send (ES.notification cfg now d) = ES.Sent)
    /\ snd out = (if CF.isSubmitted st' then 1%nat else 0%nat)
    /\ (CF.isSubmitted st' = false ->
        (exists text : string, CF.submitError st' = Some text /\ text <> EmptyString)
        /\ forall (f : CF.Field) (value : ES.JsString),
             CF.submitError (CF.handleChange f value st') = None)
    /\ CF.formData (CF.resetTimer st') = CF.emptyForm
    /\ CF.isSubmitted (CF.resetTimer st') = false.
Proof.
  intros cfg send now st Hconf Hsub Hing out st' d.
  pose proof (send_contact_form_facts cfg send now d) as (Hsucc & Hmsg).
  subst out st'. unfold CF.handleSubmit. rewrite Hconf. fold d.
  destruct (ES.blank (ES.name d) || ES.blank (ES.email d) || ES.blank (ES.message d)) eqn:Eb.
  - cbn. rewrite Hsub, Hing.
    assert (Hinvalid : ~ ((ES.hasText (ES.name d) /\ ES.hasText (ES.message d)
                           /\ ES.emailShape (ES.email d))
                          /\ send (ES.notification cfg now d) = ES.Sent)).
    { intros [Hvalid _]. apply form_valid_spec in Hvalid as [Hb _]. congruence. }
    split; [reflexivity|]. split; [reflexivity|]. split; [split; [discriminate|tauto]|].
    split; [reflexivity|]. split; [|split; reflexivity].
    intros _. split; [|reflexivity].
    exists "Please fill in all fields". split; [reflexivity|discriminate].
  - destruct (ES.sendContactForm cfg send now d) as [result sent] eqn:Er.
    cbn [fst snd] in Hsucc, Hmsg.
    destruct (ES.success result) eqn:Es; cbn.
    + split; [reflexivity|]. split; [reflexivity|].
      split; [split; [intros _; apply Hsucc; reflexivity|reflexivity]|].
      split; [reflexivity|]. split; [discriminate|split; reflexivity].
    + rewrite Hsub.
      assert (Hshown : orString (Some (ES.responseMessage result))
                         (Some "Failed to send message. Please try again.")
                       = Some (ES.responseMessage result)).
      { unfold orString, truthyString.
        destruct (String.eqb_spec (ES.responseMessage result) EmptyString) as [E|E];
          [exfalso; exact (Hmsg eq_refl E)|reflexivity]. }
      rewrite Hshown.
      split; [reflexivity|]. split; [reflexivity|].
      split; [split; [discriminate|intros H; apply Hsucc in H; discriminate H]|].
      split; [reflexivity|]. split; [|split; reflexivity].
      intros _. split.
      * exists (ES.responseMessage result). split; [reflexivity|exact (Hmsg eq_refl)].
      * intros f value. unfold truthyString.
        destruct (String.eqb_spec (ES.responseMessage result) EmptyString) as [E|E];
          [exfalso; exact (Hmsg eq_refl E)|reflexivity].
Qed.

Lemma configured_submit_outcomes_witness :
  let st := CF.mkState (ES.mkFormData (ES.lit "Ash") (ES.lit "ash@studio") (ES.lit "Hello"))
              false false None true in
  let out := CF.handleSubmit ES.EMAILJS_CONFIG (fun _ => ES.Sent) [] st in
  CF.formData (fst (fst out)) = CF.formData st
  /\ CF.submitError (fst (fst out)) = Some "Please enter a valid email address.".
Proof.
  intros st out. split; [|reflexivity].
  exact (proj1 (configured_submit_outcomes ES.EMAILJS_CONFIG (fun _ => ES.Sent) [] st
                  eq_refl eq_refl eq_refl)).
Defined.

(** * The single-image lightbox *)

Lemma simple_lightbox_commit (p p' : SL.Props) (d : SL.Document) :
  SL.bodyOverflow d = (if SL.isOpen p then "hidden" else "unset") ->
  SL.keydownListener d = SL.isOpen p ->
  SL.bodyOverflow (SL.commit p p' d) = (if SL.isOpen p' then "hidden" else "unset")
  /\ SL.keydownListener (SL.commit p p' d) = SL.isOpen p'.
Proof.
  intros Ho Hk. unfold SL.commit, SL.keyboardEffect, SL.scrollEffect.
  destruct (SL.isOpen p), (SL.isOpen p'), (negb (Nat.eqb (SL.onClose p) (SL.onClose p')));
    cbn; split; assumption || reflexivity.
Qed.

(** X24. In the single-image lightbox, whose Escape handler does not test
    [isOpen] itself, a key press still reaches [onClose] only while the
    lightbox is open and only for Escape, once: after any series of
    renders the listener is registered exactly when [isOpen] holds, and
    background scrolling is suspended exactly then. *)
Theorem simple_lightbox_escape_only_when_open :
  forall (p : SL.Props) (ps : list SL.Props) (key : string),
    let final := fst (SL.rerenders p (SL.mount p) ps) in
    let d := snd (SL.rerenders p (SL.mount p) ps) in
    SL.documentKeyDown d key
      = (if SL.isOpen final && String.eqb key "Escape" then 1%nat else 0%nat)
    /\ SL.bodyOverflow d = (if SL.isOpen final then "hidden" else "unset")
    /\ (SL.render final = None <-> SL.isOpen final = false).
Proof.
  intros p ps key final d.
  assert (Hinv : SL.bodyOverflow d = (if SL.isOpen final then "hidden" else "unset")
                 /\ SL.keydownListener d = SL.isOpen final).
  { subst final d.
    assert (H0 : SL.bodyOverflow (SL.mount p) = (if SL.isOpen p then "hidden" else "unset")
                 /\ SL.keydownListener (SL.mount p) = SL.isOpen p) by (split; reflexivity).
    revert H0. generalize (SL.mount p). revert p.
    induction ps as [|p' ps IH]; intros p d0 [Ho Hk]; [split; assumption|].
    cbn [SL.rerenders]. apply IH. apply simple_lightbox_commit; assumption. }
  destruct Hinv as [Ho Hk]. split; [|split; [exact Ho|]].
  - unfold SL.documentKeyDown, SL.handleEscape. rewrite Hk.
    destruct (SL.isOpen final), (String.eqb key "Escape"); reflexivity.
  - unfold SL.render. destruct (SL.isOpen final); cbn; split; congruence.
Qed.

Lemma simple_lightbox_escape_only_when_open_witness :
  let p := SL.mkProps false 0%nat "look.jpg" "A look" None None in
  let ps := [SL.mkProps true 1%nat "look.jpg" "A look" None None;
             SL.mkProps false 2%nat "look.jpg" "A look" None None] in
  SL.documentKeyDown (snd (SL.rerenders p (SL.mount p) ps)) "Escape" = 0%nat
  /\ SL.render (fst (SL.rerenders p (SL.mount p) ps)) = None.
Proof.
  intros p ps.
  destruct (simple_lightbox_escape_only_when_open p ps "Escape") as (Hkey & _ & Hnull).
  split; [exact Hkey|]. apply (proj2 Hnull). reflexivity.
Defined.

Lemma portfolio_card_index_valid_witness :
  let es := [CardSwipe 300 [100]; CardClickDot 2; CardKeyDown "ArrowRight"; CardClick] in
  inRange (len gallery3) (PC.currentImageIndex (fst (PC.run gallery3 es PC.initialState)))
  /\ In (PC.currentImage gallery3 (fst (PC.run gallery3 es PC.initialState))) gallery3.
Proof.
  intros es.
  destruct (portfolio_card_index_valid gallery3 es) as (Hrange & _ & _ & _ & Hin).
  split; [apply Hrange | apply Hin]; discriminate.
Defined.
